(** * CDP relay: the WebSocket relay server and the extension-side adapter

    A shallow embedding of

    - [CDPWebSocketRelay] (the relay server pairing one extension socket
      with one browser/client socket), and
    - [Extension] / [CDPAdapter] (the extension background script bridging
      [chrome.debugger] to a WebSocket),

    together with the properties of the relay subsystem.

    Objects with identity (sockets, adapters, bound functions) live in
    explicit stores keyed by natural numbers; every handler is a function
    on the store; calls on external objects and field assignments are
    appended, in program order, to a trace. *)

From Stdlib Require Import String List ZArith Lia PrimFloat.
From stdpp Require Import base option gmap strings list.

Local Open Scope string_scope.
Local Open Scope list_scope.
Set Warnings "-register-all".
Set Warnings "-notation-overridden".
Set Warnings "-notation-incompatible-prefix".

(* ===================================================================== *)
(** ** The relay server *)
(* ===================================================================== *)

Module Relay.

(** [WebSocket.readyState] of the [ws] package. *)
Inductive ReadyState := CONNECTING | OPEN | CLOSING | CLOSED.

#[global] Instance ReadyState_eq_dec : EqDecision ReadyState.
Proof. solve_decision. Defined.

(** Payload of a frame as the ['message'] event delivers it (a Buffer). *)
Definition RawData := list Byte.byte.

(** Which of the two listener sets [_onConnection] attached to a socket. *)
Inductive Listeners := NoListeners | ExtensionListeners | BrowserListeners.

#[global] Instance Listeners_eq_dec : EqDecision Listeners.
Proof. solve_decision. Defined.

(** A [ws] socket object: its state, the payloads handed to [send] while
    open (oldest first), and the code and reason of the close frame it
    sent, if any. *)
Record WebSocket := mkWebSocket {
  readyState : ReadyState;
  sent : list RawData;
  closeFrame : option (option (Z * string));
  listeners : Listeners
}.

(** Calls on external objects and assignments to the relay's fields.
    [ServerListen bound] is the call [_server.listen(0, 'localhost', ...)]
    with its outcome, [ServerClose] stands for [_server.close()] followed by
    [_server.closeAllConnections()], and [UncaughtError ws] is the
    exception the emitter of socket [ws] throws for an ['error'] event
    that has no listener: nothing catches it and the process ends. *)
Inductive Action :=
| Log (msg : string)
| Close (ws : nat) (args : option (Z * string))
| Send (ws : nat) (data : RawData)
| SetExtensionSocket (v : option nat)
| SetBrowserSocket (v : option nat)
| ResolveWaiter
| ServerClose
| ServerListen (bound : bool)
| UncaughtError (ws : nat).

(** The fields of [CDPWebSocketRelay], the store of socket objects and the
    trace. [_waiter] is [Some resolved] once [waitForConnection] created
    the promise. *)
Record World := mkWorld {
  _extensionSocket : option nat;
  _browserSocket : option nat;
  _extensionToken : string;
  _browserToken : string;
  _waiter : option bool;
  sockets : gmap nat WebSocket;
  next_ws : nat;
  trace : list Action
}.

Definition kExtensionPath : string := "/extension".
Definition kBrowserPath : string := "/browser".

(** The two values [_onConnection] reads off the request:
    [url.pathname] and [url.searchParams.get('token')] ([None] is null). *)
Record IncomingMessage := mkRequest {
  pathname : string;
  token : option string
}.

(** *** Field and store updates *)

Definition act (a : Action) (w : World) : World :=
  mkWorld (_extensionSocket w) (_browserSocket w) (_extensionToken w)
    (_browserToken w) (_waiter w) (sockets w) (next_ws w) (trace w ++ [a]).

Definition with_sockets (f : gmap nat WebSocket → gmap nat WebSocket)
    (w : World) : World :=
  mkWorld (_extensionSocket w) (_browserSocket w) (_extensionToken w)
    (_browserToken w) (_waiter w) (f (sockets w)) (next_ws w) (trace w).

Definition set_extensionSocket (v : option nat) (w : World) : World :=
  act (SetExtensionSocket v)
    (mkWorld v (_browserSocket w) (_extensionToken w) (_browserToken w)
       (_waiter w) (sockets w) (next_ws w) (trace w)).

Definition set_browserSocket (v : option nat) (w : World) : World :=
  act (SetBrowserSocket v)
    (mkWorld (_extensionSocket w) v (_extensionToken w) (_browserToken w)
       (_waiter w) (sockets w) (next_ws w) (trace w)).

Definition set_waiter (v : option bool) (w : World) : World :=
  mkWorld (_extensionSocket w) (_browserSocket w) (_extensionToken w)
    (_browserToken w) v (sockets w) (next_ws w) (trace w).

Definition debugLogger (msg : string) (w : World) : World := act (Log msg) w.

(** *** The [ws] socket operations the relay calls *)

(** [ws.close(code, reason)]: an open socket sends its close frame and
    becomes CLOSING; a connecting one is aborted; a closing or closed one
    is left as it is. *)
Definition close_socket (args : option (Z * string)) (s : WebSocket) : WebSocket :=
  match readyState s with
  | OPEN => mkWebSocket CLOSING (sent s) (Some args) (listeners s)
  | CONNECTING => mkWebSocket CLOSING (sent s) (closeFrame s) (listeners s)
  | CLOSING | CLOSED => s
  end.

Definition ws_close (ws : nat) (args : option (Z * string)) (w : World) : World :=
  with_sockets (alter (close_socket args) ws) (act (Close ws args) w).

(** [ws.send(data)]: transmitted only by an open socket. *)
Definition send_socket (data : RawData) (s : WebSocket) : WebSocket :=
  match readyState s with
  | OPEN => mkWebSocket OPEN (sent s ++ [data]) (closeFrame s) (listeners s)
  | _ => s
  end.

Definition ws_send (ws : nat) (data : RawData) (w : World) : World :=
  with_sockets (alter (send_socket data) ws) (act (Send ws data) w).

Definition on (l : Listeners) (ws : nat) (w : World) : World :=
  with_sockets
    (alter (λ s, mkWebSocket (readyState s) (sent s) (closeFrame s) l) ws) w.

(** [sock?.readyState === WebSocket.OPEN] *)
Definition is_open (sock : option nat) (w : World) : bool :=
  match sock with
  | Some s =>
      match sockets w !! s with
      | Some o => bool_decide (readyState o = OPEN)
      | None => false
      end
  | None => false
  end.

(** *** The HTTP server and the process

    [_server] is an object of the runtime; what the relay can observe of it
    follows from the calls made on it, which the trace records. *)

(** [_server.listening] after one more call. *)
Definition server_after (l : bool) (a : Action) : bool :=
  match a with
  | ServerListen bound => l || bound
  | ServerClose => false
  | _ => l
  end.

(** [_server.listening] *)
Definition listening (w : World) : bool := fold_left server_after (trace w) false.

Definition is_uncaught (a : Action) : bool :=
  match a with
  | UncaughtError _ => true
  | _ => false
  end.

(** The process has ended on an uncaught exception. *)
Definition exited (w : World) : bool := existsb is_uncaught (trace w).

(** *** The relay's methods *)

(** [startIfNeeded()], run to the end of its [await]; [bound] tells
    whether the server could bind a port. When it could not the promise is
    rejected by the server's ['error'] listener. *)
Definition startIfNeeded (bound : bool) (w : World) : World :=
  if listening w then w else act (ServerListen bound) w.

Definition handleBrowserConnection (ws : nat) (w : World) : World :=
  on BrowserListeners ws
    (debugLogger "Browser client connected."
       (set_browserSocket (Some ws) w)).

Definition resolve_waiter (w : World) : World :=
  match _waiter w with
  | Some _ => set_waiter (Some true) (act ResolveWaiter w)
  | None => w
  end.

Definition handleExtensionConnection (ws : nat) (w : World) : World :=
  let w1 :=
    if is_open (_extensionSocket w) w then
      match _extensionSocket w with
      | Some old =>
          ws_close old (Some (1000%Z, "New extension connection established"))
            (debugLogger "Closing previous extension connection." w)
      | None => w
      end
    else w in
  resolve_waiter (on ExtensionListeners ws (set_extensionSocket (Some ws) w1)).

(** [token !== expected] *)
Definition token_differs (tok : option string) (expected : string) : bool :=
  match tok with
  | Some t => negb (String.eqb t expected)
  | None => true
  end.

Definition _onConnection (ws : nat) (request : IncomingMessage) (w : World) : World :=
  if String.eqb (pathname request) kExtensionPath then
    if token_differs (token request) (_extensionToken w) then
      ws_close ws (Some (4001%Z, "Invalid token"))
        (debugLogger "Invalid token for extension connection." w)
    else handleExtensionConnection ws w
  else if String.eqb (pathname request) kBrowserPath then
    if token_differs (token request) (_browserToken w) then
      ws_close ws (Some (4001%Z, "Invalid token"))
        (debugLogger "Invalid token for browser connection." w)
    else handleBrowserConnection ws w
  else
    ws_close ws (Some (4001%Z, "Invalid path"))
      (debugLogger "Invalid path for connection:" w).

(** [close()]. [_server.close()] stops the server taking connections and
    [_server.closeAllConnections()] ends its HTTP connections, which leaves
    sockets upgraded to WebSocket alone; the two calls are the trace entry
    [ServerClose], after which [listening] is false. *)
Definition close (w : World) : World :=
  let w1 := act ServerClose w in
  let w2 := match _browserSocket w1 with
            | Some b => ws_close b None w1
            | None => w1
            end in
  let w3 := set_browserSocket None w2 in
  let w4 := match _extensionSocket w3 with
            | Some e => ws_close e None w3
            | None => w3
            end in
  set_extensionSocket None w4.

(** [waitForConnection()] *)
Definition waitForConnection (w : World) : World := set_waiter (Some false) w.

(** *** The listeners attached by the two [handle...Connection] methods *)

Definition extension_on_message (ws : nat) (data : RawData) (w : World) : World :=
  if is_open (_browserSocket w) w then
    match _browserSocket w with
    | Some b => ws_send b data w
    | None => w
    end
  else w.

Definition extension_on_close (ws : nat) (w : World) : World :=
  debugLogger "Extension disconnected."
    (if bool_decide (_extensionSocket w = Some ws)
     then set_extensionSocket None w else w).

Definition extension_on_error (ws : nat) (w : World) : World :=
  debugLogger "Error on extension socket:" w.

Definition browser_on_message (ws : nat) (data : RawData) (w : World) : World :=
  if is_open (_extensionSocket w) w then
    match _extensionSocket w with
    | Some e => ws_send e data w
    | None => w
    end
  else ws_close ws (Some (4001%Z, "No extension client connected")) w.

Definition browser_on_close (ws : nat) (w : World) : World :=
  debugLogger "Browser disconnected." (set_browserSocket None w).

Definition browser_on_error (ws : nat) (w : World) : World :=
  debugLogger "Error on browser socket:" w.

(** *** The event loop *)

Inductive Event :=
| Connection (request : IncomingMessage)
| Message (ws : nat) (data : RawData)
| Closed (ws : nat)
| Error (ws : nat)
| CallClose
| CallWaitForConnection
| CallStartIfNeeded (bound : bool).

Definition listeners_of (ws : nat) (w : World) : Listeners :=
  match sockets w !! ws with
  | Some s => listeners s
  | None => NoListeners
  end.

Definition emit_message (ws : nat) (data : RawData) (w : World) : World :=
  match listeners_of ws w with
  | ExtensionListeners => extension_on_message ws data w
  | BrowserListeners => browser_on_message ws data w
  | NoListeners => w
  end.

Definition emit_close (ws : nat) (w : World) : World :=
  match listeners_of ws w with
  | ExtensionListeners => extension_on_close ws w
  | BrowserListeners => browser_on_close ws w
  | NoListeners => w
  end.

(** [_onConnection] returns without registering an ['error'] listener on
    a socket it refuses; an ['error'] event on such a socket is thrown by
    the emitter. *)
Definition emit_error (ws : nat) (w : World) : World :=
  match listeners_of ws w with
  | ExtensionListeners => extension_on_error ws w
  | BrowserListeners => browser_on_error ws w
  | NoListeners => act (UncaughtError ws) w
  end.

(** The server hands [_onConnection] a new, open socket object. *)
Definition accept (w : World) : World :=
  mkWorld (_extensionSocket w) (_browserSocket w) (_extensionToken w)
    (_browserToken w) (_waiter w)
    (<[next_ws w := mkWebSocket OPEN [] None NoListeners]> (sockets w))
    (S (next_ws w)) (trace w).

Definition live (ws : nat) (w : World) : bool :=
  match sockets w !! ws with
  | Some s => negb (bool_decide (readyState s = CLOSED))
  | None => false
  end.

Definition mark_closed (s : WebSocket) : WebSocket :=
  mkWebSocket CLOSED (sent s) (closeFrame s) (listeners s).

(** One turn of the event loop: what the relay's code does with an event
    the runtime hands it. Frames and the ['close'] event are only
    delivered on sockets that have not emitted ['close'] yet. Which events
    the runtime can hand over at all is [enabled], below. *)
Definition step (w : World) (e : Event) : World :=
  match e with
  | Connection request => _onConnection (next_ws w) request (accept w)
  | Message ws data => if live ws w then emit_message ws data w else w
  | Closed ws =>
      if live ws w
      then emit_close ws (with_sockets (alter mark_closed ws) w)
      else w
  | Error ws => if live ws w then emit_error ws w else w
  | CallClose => close w
  | CallWaitForConnection => waitForConnection w
  | CallStartIfNeeded bound => startIfNeeded bound w
  end.

(** The events the runtime can hand to the relay in state [w]: none once
    the process has ended; a connection only while the server is
    listening; a socket event only on a socket that has not emitted
    ['close'] yet. *)
Definition enabled (w : World) (e : Event) : bool :=
  negb (exited w)
  && match e with
     | Connection _ => listening w
     | Message ws _ | Closed ws | Error ws => live ws w
     | CallClose | CallWaitForConnection | CallStartIfNeeded _ => true
     end.

(** The relay after its constructor ran, with the two generated tokens. *)
Definition init (extensionToken browserToken : string) : World :=
  mkWorld None None extensionToken browserToken None ∅ 0 [].

Definition run (w : World) (es : list Event) : World := fold_left step es w.

(** A run in which every event is one the runtime can hand over when its
    turn comes. *)
Fixpoint feasible (w : World) (es : list Event) : Prop :=
  match es with
  | [] => True
  | e :: rest => enabled w e = true ∧ feasible (step w e) rest
  end.

(** What [_onConnection] refuses: an unknown path, or a token that is not
    the one generated for the path's role. *)
Definition refused (request : IncomingMessage) (w : World) : Prop :=
  (pathname request ≠ kExtensionPath ∧ pathname request ≠ kBrowserPath)
  ∨ (pathname request = kExtensionPath ∧ token request ≠ Some (_extensionToken w))
  ∨ (pathname request = kBrowserPath ∧ token request ≠ Some (_browserToken w)).

(** Socket identities not handed out yet name no socket. *)
Definition fresh_sockets (w : World) : Prop :=
  ∀ s, (next_ws w ≤ s)%nat → sockets w !! s = None.

(** An open socket carrying the extension listeners. *)
Definition open_extension (o : WebSocket) : Prop :=
  listeners o = ExtensionListeners ∧ readyState o = OPEN.

(** The only socket that can be an open extension socket is the one the
    relay's [_extensionSocket] field holds. *)
Definition sole_extension (w : World) : Prop :=
  ∀ s o, sockets w !! s = Some o → open_extension o → _extensionSocket w = Some s.

(** [w'] has no open extension socket that [w] did not have. *)
Definition no_new_extension (w w' : World) : Prop :=
  ∀ s o', sockets w' !! s = Some o' → open_extension o' →
    ∃ o, sockets w !! s = Some o ∧ open_extension o.

(** Frames arriving one after the other on the socket [ws]. *)
Definition frames (ws : nat) (ds : list RawData) : list Event := Message ws <$> ds.

Inductive reachable : World → Prop :=
| reachable_init extensionToken browserToken :
    reachable (init extensionToken browserToken)
| reachable_step w e : reachable w → reachable (step w e).

(** *** Sample runs *)

Definition extension_request (tok : string) : IncomingMessage :=
  mkRequest "/extension" (Some tok).

Definition browser_request (tok : string) : IncomingMessage :=
  mkRequest "/browser" (Some tok).

(** A relay with tokens "E" and "B" whose server is listening. *)
Definition started : World :=
  run (init "E" "B") [CallStartIfNeeded true].

(** The relay to which the extension (socket 0) and then the client
    (socket 1) have connected. *)
Definition paired : World :=
  run started [Connection (extension_request "E");
               Connection (browser_request "B")].

(** The relay to which only the client (socket 0) has connected. *)
Definition client_only : World :=
  run started [Connection (browser_request "B")].

(** *** Vocabulary of further properties *)

(** A request [_onConnection] hands to [handleExtensionConnection]. *)
Definition extension_accepted (request : IncomingMessage) (w : World) : Prop :=
  pathname request = kExtensionPath ∧ token request = Some (_extensionToken w).

(** A request [_onConnection] hands to [handleBrowserConnection]. *)
Definition browser_accepted (request : IncomingMessage) (w : World) : Prop :=
  pathname request = kBrowserPath ∧ token request = Some (_browserToken w).

(** A socket that has left the open state keeps what [keeps] compares:
    the payloads it sent, its listeners and its close frame, and it is not
    open. *)
Definition keeps (o o' : WebSocket) : Prop :=
  sent o' = sent o ∧ listeners o' = listeners o ∧ closeFrame o' = closeFrame o
  ∧ readyState o' ≠ OPEN.

(** Between [w] and [w'] every socket with an identity below [n] that was
    not open stays as it was. *)
Definition settled_below (n : nat) (w w' : World) : Prop :=
  ∀ s o, (s < n)%nat → sockets w !! s = Some o → readyState o ≠ OPEN →
    ∃ o', sockets w' !! s = Some o' ∧ keeps o o'.

(** Between [w] and [w'] every socket with an identity below [n] is still
    there with the listeners it had. *)
Definition roles_below (n : nat) (w w' : World) : Prop :=
  ∀ s o, (s < n)%nat → sockets w !! s = Some o →
    ∃ o', sockets w' !! s = Some o' ∧ listeners o' = listeners o.

(** Both relations at once, for the handlers. *)
Definition steady (n : nat) (w w' : World) : Prop :=
  settled_below n w w' ∧ roles_below n w w'.

(** Every identity handed out names a socket. *)
Definition dense_sockets (w : World) : Prop :=
  ∀ s, (s < next_ws w)%nat → is_Some (sockets w !! s).

(** [sock?.close()] on the socket store. *)
Definition close_held (sock : option nat) (m : gmap nat WebSocket) :
    gmap nat WebSocket :=
  match sock with
  | Some x => alter (close_socket None) x m
  | None => m
  end.

(** A socket that was refused: it carries no listeners, was never handed a
    payload, is not open and was sent a close frame with code 4001. *)
Definition refused_socket (o : WebSocket) : Prop :=
  sent o = [] ∧ readyState o ≠ OPEN
  ∧ ∃ reason, closeFrame o = Some (Some (4001%Z, reason)).

(** The relay's two fields hold sockets of the matching role. *)
Definition well_paired (w : World) : Prop :=
  (∀ s, _extensionSocket w = Some s →
     ∃ o, sockets w !! s = Some o ∧ listeners o = ExtensionListeners)
  ∧ (∀ s, _browserSocket w = Some s →
     ∃ o, sockets w !! s = Some o ∧ listeners o = BrowserListeners).

(** An event that is an accepted extension connection in [w]. *)
Definition extension_connects (e : Event) (w : World) : Prop :=
  ∃ request, e = Connection request ∧ extension_accepted request w.

(** A relay to which the extension (socket 0) and two clients (sockets 1
    and 2) have connected. *)
Definition two_clients : World :=
  run paired [Connection (browser_request "B")].

(** A relay whose extension was superseded: socket 0 closing, socket 2 the
    extension socket, socket 1 the client. *)
Definition superseded : World :=
  run paired [Connection (extension_request "E")].

End Relay.

(* ===================================================================== *)
(** ** The extension: [Extension] and [CDPAdapter] *)
(* ===================================================================== *)

Module Extension.

(** *** JavaScript values *)

(** The values [JSON.parse] produces, and [Undefined] for what a read of
    an absent property gives. Objects list their own properties. *)
Inductive value :=
| Undefined
| Null
| Bool (b : bool)
| Number (f : float)
| Str (s : string)
| Arr (items : list value)
| Obj (fields : list (string * value)).

(** [!!v] *)
Definition truthy (v : value) : bool :=
  match v with
  | Undefined | Null => false
  | Bool b => b
  | Number f => negb (PrimFloat.eqb f 0%float) && PrimFloat.eqb f f
  | Str s => negb (String.eqb s EmptyString)
  | Arr _ | Obj _ => true
  end.

(** [v === 'lit'] for a string literal *)
Definition is_string (v : value) (lit : string) : bool :=
  match v with
  | Str s => String.eqb s lit
  | _ => false
  end.

Fixpoint lookup_field (key : string) (fields : list (string * value)) : value :=
  match fields with
  | [] => Undefined
  | (k, v) :: rest => if String.eqb k key then v else lookup_field key rest
  end.

(** Result of running a piece of JavaScript: it returns or it throws. *)
Inductive Completion (A : Type) :=
| Normal (a : A)
| Throw (error : string).
Arguments Normal {A} a.
Arguments Throw {A} error.

(** [v.key], for the keys the adapter reads (method, id, sessionId,
    params), none of which a prototype defines: reading one off null or
    undefined throws a TypeError, off any other non-object is undefined. *)
Definition get_property (v : value) (key : string) : Completion value :=
  match v with
  | Undefined | Null => Throw "TypeError: Cannot read properties"
  | Obj fields => Normal (lookup_field key fields)
  | _ => Normal Undefined
  end.

(** [event.data] of a browser [MessageEvent]: a string for a text frame, a
    Blob for a binary one. *)
Inductive MessageData :=
| TextData (s : string)
| BlobData (text : string).

(** *** Objects *)

Inductive ReadyState := CONNECTING | OPEN | CLOSING | CLOSED.

#[global] Instance ReadyState_eq_dec : EqDecision ReadyState.
Proof. solve_decision. Defined.

(** The listeners [onTabsUpdated] adds to a socket all close over the same
    adapter, target id and browser context id. *)
Record SocketListeners := mkSocketListeners {
  l_adapter : nat;
  l_targetId : string;
  l_browserContextId : string
}.

(** A browser [WebSocket]; [sent] lists the values whose
    [JSON.stringify] was handed to [send], oldest first. *)
Record WebSocket := mkWebSocket {
  url : string;
  readyState : ReadyState;
  sent : list value;
  wired : option SocketListeners
}.

(** The two closures an adapter's [dispatch] can hold: the constructor's
    [(data) => { }] and the one [onTabsUpdated] assigns. *)
Inductive DispatchFn :=
| dispatch_noop
| dispatch_to_socket (socket : nat).

(** Likewise for [onClose]. *)
Inductive OnCloseFn :=
| onClose_noop
| onClose_of_tab (tabId : nat) (socket : nat).

Record CDPAdapter := mkCDPAdapter {
  onClose : OnCloseFn;
  dispatch : DispatchFn;
  _debuggee : nat
}.

(** A function object made by [method.bind(this)]: every [bind] makes a
    new object, told apart by [fn_id]. *)
Record BoundFn := mkBoundFn {
  fn_id : nat;
  fn_this : nat
}.

Inductive Action :=
| Log (msg : string)
| Dispatch (adapter : nat) (data : value)
| SocketSend (socket : nat) (data : value)
| SocketClose (socket : nat)
| DebuggerAttach (tabId : nat)
| DebuggerDetach (tabId : nat)
| SendCommand (tabId : nat) (method : value) (params : value)
| MapSet (tabId : nat) (adapter : nat)
| MapDelete (tabId : nat)
| TabsUpdate (tabId : nat) (page : string)
| UnhandledRejection (error : string).

(** The extension's state and the part of the browser it talks to:
    [adapters] is [Extension.adapters], [heap] the adapter objects,
    [attached] the tabs [chrome.debugger] is attached to, [onEvent] and
    [onDetach] the listeners of the two [chrome.debugger] events in
    registration order, [pending] the consent listeners on
    [chrome.runtime.onMessage] with the tab and relay address each waits
    with, [userAgent] is [navigator.userAgent]. *)
Record World := mkWorld {
  adapters : gmap nat nat;
  heap : gmap nat CDPAdapter;
  sockets : gmap nat WebSocket;
  attached : gset nat;
  onEvent : list BoundFn;
  onDetach : list BoundFn;
  pending : list (nat * string);
  next_id : nat;
  userAgent : string;
  trace : list Action
}.

Definition set_adapters v w :=
  mkWorld v (heap w) (sockets w) (attached w) (onEvent w) (onDetach w)
    (pending w) (next_id w) (userAgent w) (trace w).
Definition set_heap v w :=
  mkWorld (adapters w) v (sockets w) (attached w) (onEvent w) (onDetach w)
    (pending w) (next_id w) (userAgent w) (trace w).
Definition set_sockets v w :=
  mkWorld (adapters w) (heap w) v (attached w) (onEvent w) (onDetach w)
    (pending w) (next_id w) (userAgent w) (trace w).
Definition set_attached v w :=
  mkWorld (adapters w) (heap w) (sockets w) v (onEvent w) (onDetach w)
    (pending w) (next_id w) (userAgent w) (trace w).
Definition set_onEvent v w :=
  mkWorld (adapters w) (heap w) (sockets w) (attached w) v (onDetach w)
    (pending w) (next_id w) (userAgent w) (trace w).
Definition set_onDetach v w :=
  mkWorld (adapters w) (heap w) (sockets w) (attached w) (onEvent w) v
    (pending w) (next_id w) (userAgent w) (trace w).
Definition set_pending v w :=
  mkWorld (adapters w) (heap w) (sockets w) (attached w) (onEvent w)
    (onDetach w) v (next_id w) (userAgent w) (trace w).
Definition set_next_id v w :=
  mkWorld (adapters w) (heap w) (sockets w) (attached w) (onEvent w)
    (onDetach w) (pending w) v (userAgent w) (trace w).
Definition set_trace v w :=
  mkWorld (adapters w) (heap w) (sockets w) (attached w) (onEvent w)
    (onDetach w) (pending w) (next_id w) (userAgent w) v.

(** *** A state-and-exception monad for the handlers *)

Definition M (A : Type) : Type := World → World * Completion A.

#[global] Instance M_ret : MRet M := λ A a w, (w, Normal a).

#[global] Instance M_bind : MBind M := λ A B k c w,
  match c w with
  | (w', Normal a) => k a w'
  | (w', Throw e) => (w', Throw e)
  end.

Definition throw {A} (e : string) : M A := λ w, (w, Throw e).

(** [try { c } catch (e) { handler(e) }] *)
Definition try_catch {A} (c : M A) (handler : string → M A) : M A :=
  λ w, match c w with
       | (w', Normal a) => (w', Normal a)
       | (w', Throw e) => handler e w'
       end.

Definition lift {A} (c : Completion A) : M A := λ w, (w, c).

Definition modify (f : World → World) : M unit := λ w, (f w, Normal tt).

Definition read {A} (f : World → A) : M A := λ w, (w, Normal (f w)).

Definition act (a : Action) : M unit :=
  modify (λ w, set_trace (trace w ++ [a]) w).

Definition debugLog (msg : string) : M unit := act (Log msg).

(** A new object identity. *)
Definition fresh : M nat :=
  λ w, (set_next_id (S (next_id w)) w, Normal (next_id w)).

(** *** The browser APIs the extension calls *)

Definition socket_is_open (socket : nat) (w : World) : bool :=
  match sockets w !! socket with
  | Some s => bool_decide (readyState s = OPEN)
  | None => false
  end.

(** [socket.send(JSON.stringify(data))], called on an open socket only. *)
Definition socket_send (socket : nat) (data : value) : M unit :=
  act (SocketSend socket data);;
  modify (λ w, set_sockets
    (alter (λ s, mkWebSocket (url s) (readyState s) (sent s ++ [data]) (wired s))
       socket (sockets w)) w).

(** [socket.close()], called on an open socket only. *)
Definition socket_close (socket : nat) : M unit :=
  act (SocketClose socket);;
  modify (λ w, set_sockets
    (alter (λ s, mkWebSocket (url s) CLOSING (sent s) (wired s))
       socket (sockets w)) w).

(** [chrome.debugger.attach(debuggee, '1.3')]: rejected when a debugger is
    already attached to the tab. A failure rejects the awaited promise, so
    the check of [chrome.runtime.lastError] that follows the call in
    [onTabsUpdated] is only reached without an error. *)
Definition chrome_debugger_attach (tabId : nat) : M unit :=
  act (DebuggerAttach tabId);;
  is_attached ← read (λ w, bool_decide (tabId ∈ attached w));
  if is_attached : bool
  then throw "Another debugger is already attached to the tab"
  else modify (λ w, set_attached ({[tabId]} ∪ attached w) w).

(** [chrome.debugger.detach(debuggee)]: rejected when no debugger is
    attached to the tab. The sibling extension guards its call for this
    very case: [try { await chrome.debugger.detach(connection.debuggee); }
    catch (error) { /* Ignore detach errors - might already be detached */ }]. *)
Definition chrome_debugger_detach (tabId : nat) : M unit :=
  act (DebuggerDetach tabId);;
  is_attached ← read (λ w, bool_decide (tabId ∈ attached w));
  if is_attached : bool
  then modify (λ w, set_attached (attached w ∖ {[tabId]}) w)
  else throw "Debugger is not attached to the tab".

(** [event.addListener(f)]: a function already registered is not added
    again. *)
Definition addListener (f : BoundFn) (ls : list BoundFn) : list BoundFn :=
  if bool_decide (fn_id f ∈ fn_id <$> ls) then ls else ls ++ [f].

(** [event.removeListener(f)]: removes the registration of that very
    function object. *)
Definition removeListener (f : BoundFn) (ls : list BoundFn) : list BoundFn :=
  filter (λ g, fn_id g ≠ fn_id f) ls.

(** [method.bind(this)] *)
Definition bind_this (this : nat) : M BoundFn :=
  id ← fresh; mret (mkBoundFn id this).

(** *** [CDPAdapter] *)

(** [new CDPAdapter(tabId)] *)
Definition new_CDPAdapter (tabId : nat) : M nat :=
  this ← fresh;
  f ← bind_this this;
  modify (λ w, set_onEvent (addListener f (onEvent w)) w);;
  g ← bind_this this;
  modify (λ w, set_onDetach (addListener g (onDetach w)) w);;
  modify (λ w, set_heap
    (<[this := mkCDPAdapter onClose_noop dispatch_noop tabId]> (heap w)) w);;
  mret this.

(** [this.dispatch(data)]: runs whichever closure the field holds. *)
Definition call_dispatch (this : nat) (data : value) : M unit :=
  act (Dispatch this data);;
  a ← read (λ w, heap w !! this);
  match a with
  | Some (mkCDPAdapter _ (dispatch_to_socket socket) _) =>
      debugLog "Sending message to browser:";;
      is_open ← read (socket_is_open socket);
      if is_open : bool
      then socket_send socket data
      else debugLog "WebSocket is not open. Cannot send data."
  | _ => mret tt
  end.

(** [this.onClose()] *)
Definition call_onClose (this : nat) : M unit :=
  a ← read (λ w, heap w !! this);
  match a with
  | Some (mkCDPAdapter (onClose_of_tab tabId socket) _ _) =>
      debugLog "Debugger detached from tab:";;
      act (MapDelete tabId);;
      modify (λ w, set_adapters (delete tabId (adapters w)) w);;
      is_open ← read (socket_is_open socket);
      if is_open : bool then socket_close socket else mret tt
  | _ => mret tt
  end.

Definition debuggee_of (this : nat) (w : World) : nat :=
  match heap w !! this with
  | Some a => _debuggee a
  | None => 0
  end.

Definition version_info (w : World) : value :=
  Obj [("protocolVersion", Str "1.3");
       ("userAgent", Str (userAgent w));
       ("product", Str "Chrome")].

(** [message.key] inside a handler *)
Definition prop (message : value) (key : string) : M value :=
  lift (get_property message key).

Section Decoding.

(** [JSON.parse]: [None] when it throws a SyntaxError. *)
Variable JSON_parse : string → option value.

(** [JSON.parse(await event.data.text())]: a string has no [text] method,
    so a text frame's data throws a TypeError. *)
Definition decode (data : MessageData) : Completion value :=
  match data with
  | TextData _ => Throw "TypeError: event.data.text is not a function"
  | BlobData text =>
      match JSON_parse text with
      | Some message => Normal message
      | None => Throw "SyntaxError"
      end
  end.

(** The body of the [try] block of [onBrowserMessage]. *)
Definition onBrowserMessage_body (this : nat) (targetId browserContextId : string)
    (data : MessageData) : M unit :=
  message ← lift (decode data);
  method ← prop message "method";
  if is_string method "Browser.getVersion" then
    versionInfo ← read version_info;
    id ← prop message "id";
    call_dispatch this (Obj [("id", id); ("result", versionInfo)])
  else
  method ← prop message "method";
  no_session ←
    (if is_string method "Target.setAutoAttach"
     then sessionId ← prop message "sessionId"; mret (negb (truthy sessionId))
     else mret false);
  if no_session : bool then
    call_dispatch this
      (Obj [("method", Str "Target.attachedToTarget");
            ("params", Obj [
               ("sessionId", Str "dummy-session-id");
               ("targetInfo", Obj [
                  ("targetId", Str targetId);
                  ("browserContextId", Str browserContextId);
                  ("type", Str "page");
                  ("title", Str EmptyString);
                  ("url", Str "data:text/html,");
                  ("attached", Bool true);
                  ("canAccessOpener", Bool false)]);
               ("waitingForDebugger", Bool false)])]);;
    id ← prop message "id";
    call_dispatch this (Obj [("id", id); ("result", Obj [])])
  else
  method ← prop message "method";
  if is_string method "Browser.setDownloadBehavior" then
    id ← prop message "id";
    call_dispatch this (Obj [("id", id); ("result", Obj [])])
  else
  method ← prop message "method";
  if truthy method then
    debugLog "Received command from WebSocket:";;
    tabId ← read (debuggee_of this);
    method ← prop message "method";
    params ← prop message "params";
    act (SendCommand tabId method params)
  else mret tt.

(** [onBrowserMessage(targetId, browserContextId, event)] *)
Definition onBrowserMessage (this : nat) (targetId browserContextId : string)
    (data : MessageData) : M unit :=
  try_catch (onBrowserMessage_body this targetId browserContextId data)
    (λ e, debugLog "Error processing WebSocket message:").

End Decoding.

(** The continuation [onBrowserMessage] passes to [sendCommand(...).then]:
    [lastError] is [chrome.runtime.lastError.message], if set. *)
Definition onCommandResponse (this : nat) (message response : value)
    (lastError : option string) : M unit :=
  id ← prop message "id";
  sessionId ← prop message "sessionId";
  call_dispatch this
    (Obj [("id", id);
          ("result", response);
          ("error", match lastError with Some m => Str m | None => Null end);
          ("sessionId", sessionId)]).

(** [_onDebuggerEvent(source, method, params)]; [source] is the tab the
    event comes from. *)
Definition _onDebuggerEvent (this : nat) (source : nat) (method : string)
    (params : value) : M unit :=
  debugLog "CDP event:";;
  call_dispatch this
    (Obj [("method", Str method);
          ("params", params);
          ("sessionId", Str "dummy-session-id")]).

(** [_onDebuggerDetach(reason)] *)
Definition _onDebuggerDetach (this : nat) : M unit :=
  debugLog "Debugger detached from tab with reason:";;
  call_onClose this.

(** [detach()] *)
Definition detach (this : nat) : M unit :=
  tabId ← read (debuggee_of this);
  chrome_debugger_detach tabId;;
  f ← bind_this this;
  modify (λ w, set_onEvent (removeListener f (onEvent w)) w);;
  g ← bind_this this;
  modify (λ w, set_onDetach (removeListener g (onDetach w)) w);;
  call_onClose this.

(** *** [Extension] *)

(** What [onTabsUpdated] reads off [new URL(tab.url)]: the host name, the
    path and the [connectionURL] query parameter ([None] is null). *)
Record TabURL := mkTabURL {
  hostname : string;
  pathname : string;
  connectionURL : option string
}.

(** [onTabsUpdated(tabId, changeInfo, tab)] up to the point where it waits
    for the user's approval; [status] is [changeInfo.status] and [tab_url]
    is [tab.url]. *)
Definition onTabsUpdated (tabId : nat) (status : string)
    (tab_url : option TabURL) : M unit :=
  match tab_url with
  | None => mret tt
  | Some u =>
      if negb (String.eqb status "complete") then mret tt
      else if negb (String.eqb (hostname u) "demo.playwright.dev")
              || negb (String.eqb (pathname u) "/mcp.html") then mret tt
      else
        match connectionURL u with
        | None => mret tt
        | Some proxyURL =>
            if String.eqb proxyURL EmptyString then mret tt
            else
              has ← read (λ w, bool_decide (is_Some (adapters w !! tabId)));
              if has : bool then debugLog "Already attached to tab:"
              else
                debugLog "Attaching debugger to tab:";;
                act (TabsUpdate tabId "prompt.html");;
                modify (λ w, set_pending (pending w ++ [(tabId, proxyURL)]) w)
        end
  end.

Section Bridge.

(** The [WebSocket] constructor of the browser takes any string and throws
    a SyntaxError unless the string parses as a URL whose scheme is ws,
    wss, http or https and which has no fragment; [WebSocket_accepts] tells
    the addresses it takes. *)
Variable WebSocket_accepts : string → bool.

(** [new WebSocket(proxyURL)] *)
Definition new_WebSocket (proxyURL : string) : M nat :=
  if WebSocket_accepts proxyURL then
    socket ← fresh;
    modify (λ w, set_sockets
      (<[socket := mkWebSocket proxyURL CONNECTING [] None]> (sockets w)) w);;
    mret socket
  else throw "SyntaxError".

(** The rest of [onTabsUpdated], run once the approval arrived;
    [targetId] and [browserContextId] are what the browser answers to
    [Target.getTargetInfo]. *)
Definition onTabsUpdated_approved (tabId : nat) (proxyURL : string)
    (targetId browserContextId : string) : M unit :=
  chrome_debugger_attach tabId;;
  debugLog "Debugger attached to tab:";;
  act (SendCommand tabId (Str "Target.getTargetInfo") (Obj []));;
  socket ← new_WebSocket proxyURL;
  adapter ← new_CDPAdapter tabId;
  modify (λ w, set_heap
    (alter (λ a, mkCDPAdapter (onClose a) (dispatch_to_socket socket) (_debuggee a))
       adapter (heap w)) w);;
  modify (λ w, set_heap
    (alter (λ a, mkCDPAdapter (onClose_of_tab tabId socket) (dispatch a) (_debuggee a))
       adapter (heap w)) w);;
  modify (λ w, set_sockets
    (alter (λ s, mkWebSocket (url s) (readyState s) (sent s)
                   (Some (mkSocketListeners adapter targetId browserContextId)))
       socket (sockets w)) w);;
  act (MapSet tabId adapter);;
  modify (λ w, set_adapters (<[tabId := adapter]> (adapters w)) w).

End Bridge.

(** *** The event loop *)

(** A handler whose promise nobody awaits: a rejection stays unhandled. *)
Definition run_handler (c : M unit) (w : World) : World :=
  match c w with
  | (w', Normal _) => w'
  | (w', Throw e) => set_trace (trace w' ++ [UnhandledRejection e]) w'
  end.

Fixpoint run_all (cs : list (M unit)) (w : World) : World :=
  match cs with
  | [] => w
  | c :: rest => run_all rest (run_handler c w)
  end.

Inductive Event :=
| TabsUpdated (tabId : nat) (status : string) (tab_url : option TabURL)
| Approved (tabId : nat) (targetId browserContextId : string)
| SocketOpened (socket : nat)
| SocketMessage (socket : nat) (data : MessageData)
| SocketFailed (socket : nat)
| SocketClosed (socket : nat)
| CommandResponse (adapter : nat) (message response : value)
    (lastError : option string)
| DebuggerEvent (source : nat) (method : string) (params : value)
| DebuggerDetached (source : nat).

Definition set_readyState (socket : nat) (r : ReadyState) (w : World) : World :=
  set_sockets
    (alter (λ s, mkWebSocket (url s) r (sent s) (wired s)) socket (sockets w)) w.

Definition state_of (socket : nat) (w : World) : option ReadyState :=
  readyState <$> sockets w !! socket.

Definition listeners_of (socket : nat) (w : World) : option SocketListeners :=
  s ← sockets w !! socket; wired s.

(** *** Vocabulary of the properties *)

(** The adapter's observable calls: what it hands to [dispatch] and what
    it forwards to the native debugger. *)
Definition is_call (a : Action) : bool :=
  match a with
  | Dispatch _ _ | SendCommand _ _ _ => true
  | _ => false
  end.

Definition calls (t : list Action) : list Action := List.filter is_call t.

(** A decoded command: an object whose [method] is the given string. *)
Definition command (method : string) (message : value) : Prop :=
  ∃ fields, message = Obj fields ∧ lookup_field "method" fields = Str method.


(** [message.id], for a message that is an object. *)
Definition id_of (message : value) : value :=
  match message with
  | Obj fields => lookup_field "id" fields
  | _ => Undefined
  end.

(** Every function object registered as a listener was made before the
    next fresh identity. *)
Definition ids_below (w : World) : Prop :=
  Forall (λ f, fn_id f < next_id w)%nat (onEvent w)
  ∧ Forall (λ f, fn_id f < next_id w)%nat (onDetach w).

(** A computation that leaves the listener registrations and the supply
    of identities alone. *)
Definition quiet {A} (c : M A) : Prop :=
  ∀ w, onEvent (c w).1 = onEvent w ∧ onDetach (c w).1 = onDetach w
       ∧ next_id (c w).1 = next_id w.

(** A handler under which [ids_below] is stable. *)
Definition stable (c : M unit) : Prop := ∀ w, ids_below w → ids_below (c w).1.

(** The value [_onDebuggerEvent] hands to [dispatch]. *)
Definition wrapped_event (method : string) (params : value) : value :=
  Obj [("method", Str method);
       ("params", params);
       ("sessionId", Str "dummy-session-id")].

Section Loop.

Variable JSON_parse : string → option value.
Variable WebSocket_accepts : string → bool.

(** One turn of the extension's event loop; an async handler runs to its
    end within the turn. The browser closes a socket either cleanly
    ([SocketClosed]: the ['close'] listener runs) or after a failure
    ([SocketFailed]: the ['error'] listener, then the ['close'] listener),
    and the socket is CLOSED by the time its listeners run. It fires
    [onEvent] for tabs the extension is attached to, and [onDetach] when
    it ends such a session itself; every registered listener is called. *)
Definition step (w : World) (e : Event) : World :=
  match e with
  | TabsUpdated tabId status tab_url =>
      run_handler (onTabsUpdated tabId status tab_url) w
  | Approved tabId targetId browserContextId =>
      let waiting := filter (λ p, p.1 = tabId) (pending w) in
      run_all
        ((λ p, onTabsUpdated_approved WebSocket_accepts tabId p.2 targetId
                 browserContextId)
           <$> waiting)
        (set_pending (filter (λ p, p.1 ≠ tabId) (pending w)) w)
  | SocketOpened socket =>
      match state_of socket w, listeners_of socket w with
      | Some CONNECTING, Some l =>
          run_handler
            (tabId ← read (debuggee_of (l_adapter l));
             act (TabsUpdate tabId "success.html"))
            (set_readyState socket OPEN w)
      | _, _ => w
      end
  | SocketMessage socket data =>
      match state_of socket w, listeners_of socket w with
      | Some OPEN, Some l | Some CLOSING, Some l =>
          run_handler
            (onBrowserMessage JSON_parse (l_adapter l) (l_targetId l)
               (l_browserContextId l) data) w
      | _, _ => w
      end
  | SocketFailed socket =>
      match state_of socket w, listeners_of socket w with
      | Some CLOSED, _ | None, _ | _, None => w
      | Some _, Some l =>
          run_all
            [debugLog "WebSocket error:";; detach (l_adapter l);
             detach (l_adapter l)]
            (set_readyState socket CLOSED w)
      end
  | SocketClosed socket =>
      match state_of socket w, listeners_of socket w with
      | Some CLOSED, _ | None, _ | _, None => w
      | Some _, Some l =>
          run_handler (detach (l_adapter l)) (set_readyState socket CLOSED w)
      end
  | CommandResponse adapter message response lastError =>
      run_handler (onCommandResponse adapter message response lastError) w
  | DebuggerEvent source method params =>
      if bool_decide (source ∈ attached w) then
        run_all ((λ f, _onDebuggerEvent (fn_this f) source method params)
                   <$> onEvent w) w
      else w
  | DebuggerDetached source =>
      if bool_decide (source ∈ attached w) then
        run_all ((λ f, _onDebuggerDetach (fn_this f)) <$> onDetach w)
          (set_attached (attached w ∖ {[source]}) w)
      else w
  end.

Definition run (w : World) (es : list Event) : World := fold_left step es w.

(** The extension after [new Extension()]. *)
Definition init (userAgent : string) : World :=
  mkWorld ∅ ∅ ∅ ∅ [] [] [] 0 userAgent [].

Inductive reachable : World → Prop :=
| reachable_init userAgent : reachable (init userAgent)
| reachable_step w e : reachable w → reachable (step w e).

End Loop.

(** The events that trigger the teardown of a bridge. *)
Definition teardown_event (e : Event) : Prop :=
  match e with
  | SocketClosed _ | SocketFailed _ | DebuggerDetached _ => True
  | _ => False
  end.

(** *** Sample runs *)

Definition quoted (s : string) : string :=
  String (Ascii.ascii_of_nat 34) (s ++ String (Ascii.ascii_of_nat 34) EmptyString).

Definition getVersion_text : string :=
  "{" ++ quoted "id" ++ ":7," ++ quoted "method" ++ ":"
      ++ quoted "Browser.getVersion" ++ "}".

Definition setAutoAttach_text : string :=
  "{" ++ quoted "id" ++ ":2," ++ quoted "method" ++ ":"
      ++ quoted "Target.setAutoAttach" ++ "," ++ quoted "params" ++ ":{}}".

(** A decoder that agrees with [JSON.parse] on the three texts the
    examples use: two commands and a text that is not JSON. *)
Definition sample_parse (text : string) : option value :=
  if String.eqb text getVersion_text then
    Some (Obj [("id", Number 7); ("method", Str "Browser.getVersion")])
  else if String.eqb text setAutoAttach_text then
    Some (Obj [("id", Number 2); ("method", Str "Target.setAutoAttach");
               ("params", Obj [])])
  else None.

Definition trigger_url : TabURL :=
  mkTabURL "demo.playwright.dev" "/mcp.html"
    (Some "ws://localhost:9223/extension?token=E").

(** Agrees with the [WebSocket] constructor on the two addresses the
    examples use: the relay address above, and "not a url". *)
Definition sample_accepts (address : string) : bool :=
  String.eqb address "ws://localhost:9223/extension?token=E".

(** Tab 7 bridged after the user's approval: its socket is object 0, its
    adapter object 1, the constructor's two bound listeners objects 2
    and 3; the socket has opened. *)
Definition bridged : World :=
  run sample_parse sample_accepts (init "Mozilla/5.0")
    [TabsUpdated 7 "complete" (Some trigger_url);
     Approved 7 "target-7" "context-1";
     SocketOpened 0].

(** Tab 8 bridged as well: socket 4, adapter 5, listeners 6 and 7. *)
Definition two_bridges : World :=
  run sample_parse sample_accepts bridged
    [TabsUpdated 8 "complete" (Some trigger_url);
     Approved 8 "target-8" "context-1";
     SocketOpened 4].

(** *** Vocabulary of further properties *)

(** A navigation [onTabsUpdated] acts on: it completed, on the page
    [demo.playwright.dev/mcp.html], with a non-empty [connectionURL]. *)
Definition trigger (status : string) (tab_url : option TabURL)
    (proxyURL : string) : Prop :=
  status = "complete"
  ∧ ∃ u, tab_url = Some u
      ∧ hostname u = "demo.playwright.dev" ∧ pathname u = "/mcp.html"
      ∧ connectionURL u = Some proxyURL ∧ proxyURL ≠ EmptyString.

(** The user's approval. *)
Definition is_approval (e : Event) : Prop :=
  match e with
  | Approved _ _ _ => True
  | _ => False
  end.

(** Nothing is bridged and nothing ever was: no debugger attached, no
    socket, no adapter, no listener, and [chrome.debugger.attach] was never
    called. *)
Definition unbridged (w : World) : Prop :=
  attached w = ∅ ∧ sockets w = ∅ ∧ heap w = ∅ ∧ adapters w = ∅
  ∧ onEvent w = [] ∧ onDetach w = []
  ∧ ∀ tabId, DebuggerAttach tabId ∉ trace w.

(** [message.params] and [message.sessionId], for a message that is an
    object. *)
Definition params_of (message : value) : value :=
  match message with
  | Obj fields => lookup_field "params" fields
  | _ => Undefined
  end.

Definition sessionId_of (message : value) : value :=
  match message with
  | Obj fields => lookup_field "sessionId" fields
  | _ => Undefined
  end.

Definition method_of (message : value) : value :=
  match message with
  | Obj fields => lookup_field "method" fields
  | _ => Undefined
  end.

(** Tab 7 waiting for the user's approval. *)
Definition awaiting : World :=
  run sample_parse sample_accepts (init "Mozilla/5.0")
    [TabsUpdated 7 "complete" (Some trigger_url)].

(** From [w] to [w'] no adapter object changed, the adapter map at most
    lost entries, every socket kept its listeners and none became open. *)
Definition calm (w w' : World) : Prop :=
  heap w' = heap w
  ∧ (∀ tab, adapters w' !! tab = adapters w !! tab ∨ adapters w' !! tab = None)
  ∧ (∀ s, wired <$> sockets w' !! s = wired <$> sockets w !! s)
  ∧ (∀ s, socket_is_open s w' = true → socket_is_open s w = true).

(** A computation that is calm from every state. *)
Definition tame {A} (c : M A) : Prop := ∀ w, calm w (c w).1.

(** [calm], and moreover the registered listeners are the same and no
    identity was taken back. *)
Definition orderly (w w' : World) : Prop :=
  calm w w' ∧ onEvent w' = onEvent w ∧ onDetach w' = onDetach w
  ∧ (next_id w ≤ next_id w')%nat.

(** The objects of the extension fit together: identities not handed out
    name nothing; every adapter is wired to a socket whose listeners lead
    back to it, closes that socket, and has its two listeners registered;
    every entry of the adapter map leads to an adapter of that tab; every
    socket belongs to an adapter that sends on it. *)
Definition registry_ok (w : World) : Prop :=
  (∀ k, (next_id w ≤ k)%nat → heap w !! k = None ∧ sockets w !! k = None)
  ∧ (∀ a ad, heap w !! a = Some ad →
       ∃ socket so t c,
         ad = mkCDPAdapter (onClose_of_tab (_debuggee ad) socket)
                (dispatch_to_socket socket) (_debuggee ad)
         ∧ sockets w !! socket = Some so
         ∧ wired so = Some (mkSocketListeners a t c))
  ∧ (∀ a ad, heap w !! a = Some ad →
       (∃ f, f ∈ onDetach w ∧ fn_this f = a)
       ∧ (∃ g, g ∈ onEvent w ∧ fn_this g = a))
  ∧ (∀ tab a, adapters w !! tab = Some a →
       ∃ ad, heap w !! a = Some ad ∧ _debuggee ad = tab)
  ∧ (∀ s so, sockets w !! s = Some so →
       ∃ l ad, wired so = Some l ∧ heap w !! l_adapter l = Some ad
         ∧ dispatch ad = dispatch_to_socket s).

Definition sound (w : World) : Prop := ids_below w ∧ registry_ok w.

(** Tab 9 waiting for the user's approval with a relay address that is
    no URL. *)
Definition awaiting_refused : World :=
  run sample_parse sample_accepts (init "Mozilla/5.0")
    [TabsUpdated 9 "complete"
       (Some (mkTabURL "demo.playwright.dev" "/mcp.html" (Some "not a url")))].

(** Tab 7 approved, its socket still connecting. *)
Definition connecting : World :=
  run sample_parse sample_accepts awaiting [Approved 7 "target-7" "context-1"].

(** Tabs 7 and 8 bridged, the browser then ended the session of tab 8, and
    tab 7, still attached, navigated to the trigger page again. *)
Definition retriggered : World :=
  run sample_parse sample_accepts two_bridges
    [DebuggerDetached 8; TabsUpdated 7 "complete" (Some trigger_url)].

Definition setDownloadBehavior_text : string :=
  "{" ++ quoted "id" ++ ":3," ++ quoted "method" ++ ":"
      ++ quoted "Browser.setDownloadBehavior" ++ "}".

Definition navigate_text : string :=
  "{" ++ quoted "id" ++ ":4," ++ quoted "method" ++ ":"
      ++ quoted "Page.navigate" ++ "," ++ quoted "sessionId" ++ ":"
      ++ quoted "S" ++ "}".

Definition setAutoAttach_null_text : string :=
  "{" ++ quoted "id" ++ ":5," ++ quoted "method" ++ ":"
      ++ quoted "Target.setAutoAttach" ++ "," ++ quoted "sessionId" ++ ":null}".

Definition result_text : string :=
  "{" ++ quoted "id" ++ ":6," ++ quoted "result" ++ ":{}}".

(** A decoder that agrees with [JSON.parse] on the texts above as well. *)
Definition more_parse (text : string) : option value :=
  if String.eqb text setDownloadBehavior_text then
    Some (Obj [("id", Number 3); ("method", Str "Browser.setDownloadBehavior")])
  else if String.eqb text navigate_text then
    Some (Obj [("id", Number 4); ("method", Str "Page.navigate");
               ("sessionId", Str "S")])
  else if String.eqb text setAutoAttach_null_text then
    Some (Obj [("id", Number 5); ("method", Str "Target.setAutoAttach");
               ("sessionId", Null)])
  else if String.eqb text result_text then
    Some (Obj [("id", Number 6); ("result", Obj [])])
  else if String.eqb text "null" then Some Null
  else sample_parse text.

End Extension.

(* ===================================================================== *)
(** ** Properties of the relay *)
(* ===================================================================== *)

Module RelayProps.
Import Relay.

(** Updating the object stored at a key known to hold [o]. *)
Lemma alter_known {A} (f : A → A) (m : gmap nat A) (i : nat) (o : A) :
  m !! i = Some o → alter f i m = <[i := f o]> m.
Proof.
  intros Hi. apply map_eq. intros j.
  rewrite lookup_alter, lookup_insert.
  destruct (decide (i = j)) as [->|]; [by rewrite Hi | done].
Qed.

Lemma is_open_true (sock : option nat) (w : World) :
  is_open sock w = true ↔
  ∃ s o, sock = Some s ∧ sockets w !! s = Some o ∧ readyState o = OPEN.
Proof.
  unfold is_open. split.
  - destruct sock as [s|]; [|done].
    destruct (sockets w !! s) as [o|] eqn:Hs; [|done].
    intros H%bool_decide_eq_true. by exists s, o.
  - intros (s & o & -> & -> & Ho). by apply bool_decide_eq_true.
Qed.

(** The forwarding listener of an extension socket. *)
Lemma extension_on_message_open (ws b : nat) (o : WebSocket) (data : RawData)
    (w : World) :
  _browserSocket w = Some b → sockets w !! b = Some o → readyState o = OPEN →
  extension_on_message ws data w =
    mkWorld (_extensionSocket w) (_browserSocket w) (_extensionToken w)
      (_browserToken w) (_waiter w)
      (<[b := mkWebSocket OPEN (sent o ++ [data]) (closeFrame o) (listeners o)]>
         (sockets w))
      (next_ws w) (trace w ++ [Send b data]).
Proof.
  intros Hb Ho Hopen. unfold extension_on_message.
  assert (is_open (_browserSocket w) w = true) as ->
    by (apply is_open_true; eauto).
  rewrite Hb. unfold ws_send, with_sockets, act. simpl.
  rewrite (alter_known _ _ _ _ Ho). unfold send_socket.
  rewrite Hopen. by rewrite Hb.
Qed.

Lemma extension_on_message_shape (ws : nat) (data : RawData) (w : World) (s : nat) :
  readyState <$> sockets (extension_on_message ws data w) !! s
    = readyState <$> sockets w !! s
  ∧ listeners <$> sockets (extension_on_message ws data w) !! s
    = listeners <$> sockets w !! s.
Proof.
  unfold extension_on_message.
  destruct (is_open _ w); [|done].
  destruct (_browserSocket w) as [b|]; [|done].
  unfold ws_send, with_sockets, act. simpl. rewrite lookup_alter.
  destruct (decide (b = s)) as [->|]; [|done].
  destruct (sockets w !! s) as [o|]; [|done]. simpl.
  unfold send_socket. by destruct o as [[] ? ? ?].
Qed.

Lemma extension_on_message_listeners (ws : nat) (data : RawData) (w : World) (s : nat) :
  listeners_of s (extension_on_message ws data w) = listeners_of s w.
Proof.
  unfold listeners_of.
  pose proof (extension_on_message_shape ws data w s) as [_ H].
  destruct (sockets _ !! s), (sockets w !! s); simpl in H; congruence.
Qed.

Lemma extension_on_message_live (ws : nat) (data : RawData) (w : World) (s : nat) :
  live s (extension_on_message ws data w) = live s w.
Proof.
  unfold live.
  pose proof (extension_on_message_shape ws data w s) as [H _].
  destruct (sockets _ !! s) as [x|], (sockets w !! s) as [y|];
    simpl in H; try done.
  inversion H as [H']. by rewrite H'.
Qed.

Lemma run_frames_open (ws b : nat) (ds : list RawData) :
  ∀ (w : World) (o : WebSocket),
  listeners_of ws w = ExtensionListeners → live ws w = true →
  _browserSocket w = Some b → sockets w !! b = Some o → readyState o = OPEN →
  sockets (run w (frames ws ds)) !! b
    = Some (mkWebSocket OPEN (sent o ++ ds) (closeFrame o) (listeners o)).
Proof.
  induction ds as [|d ds IH]; intros w o Hl Hlive Hb Ho Hopen.
  - simpl. rewrite app_nil_r, Ho. destruct o; simpl in *; by subst.
  - change (run w (frames ws (d :: ds)))
      with (run (step w (Message ws d)) (frames ws ds)).
    assert (step w (Message ws d) = extension_on_message ws d w) as ->.
    { unfold step. rewrite Hlive. unfold emit_message. by rewrite Hl. }
    rewrite (IH _ (mkWebSocket OPEN (sent o ++ [d]) (closeFrame o) (listeners o))).
    + simpl. by rewrite <- app_assoc.
    + by rewrite extension_on_message_listeners.
    + by rewrite extension_on_message_live.
    + by rewrite (extension_on_message_open ws b o d w Hb Ho Hopen).
    + rewrite (extension_on_message_open ws b o d w Hb Ho Hopen). simpl.
      by rewrite lookup_insert_eq.
    + done.
Qed.

(** C1. A frame received on an extension socket is handed unchanged to the
    client socket when that one is open: the client's list of sent payloads
    gains exactly that payload at its end and nothing else in the relay
    changes; frames received in a row arrive in the same order. When no
    client socket is open the frame is dropped and the relay, its sockets
    and its trace stay as they were. *)
Theorem extension_frame_forwarded_or_dropped (w : World) (ws : nat) :
  listeners_of ws w = ExtensionListeners → live ws w = true →
  (∀ data b o,
     _browserSocket w = Some b → sockets w !! b = Some o → readyState o = OPEN →
     step w (Message ws data) =
       mkWorld (_extensionSocket w) (_browserSocket w) (_extensionToken w)
         (_browserToken w) (_waiter w)
         (<[b := mkWebSocket OPEN (sent o ++ [data]) (closeFrame o) (listeners o)]>
            (sockets w))
         (next_ws w) (trace w ++ [Send b data]))
  ∧ (∀ ds b o,
     _browserSocket w = Some b → sockets w !! b = Some o → readyState o = OPEN →
     sockets (run w (frames ws ds)) !! b
       = Some (mkWebSocket OPEN (sent o ++ ds) (closeFrame o) (listeners o)))
  ∧ (∀ data, is_open (_browserSocket w) w = false → step w (Message ws data) = w).
Proof.
  intros Hl Hlive. split; [|split].
  - intros data b o Hb Ho Hopen. unfold step. rewrite Hlive.
    unfold emit_message. rewrite Hl. by apply extension_on_message_open.
  - intros ds b o. by apply run_frames_open.
  - intros data Hclosed. unfold step. rewrite Hlive.
    unfold emit_message. rewrite Hl. unfold extension_on_message.
    by rewrite Hclosed.
Qed.

Lemma token_differs_true (tok : option string) (expected : string) :
  tok ≠ Some expected → token_differs tok expected = true.
Proof.
  destruct tok as [t|]; [|done]. intros Hne. simpl.
  destruct (String.eqb_spec t expected); [congruence | done].
Qed.

Lemma rejected (ws : nat) (request : IncomingMessage) (w : World) :
  refused request w →
  ∃ msg reason,
    _onConnection ws request w =
      ws_close ws (Some (4001%Z, reason)) (debugLogger msg w)
    ∧ reason ≠ EmptyString.
Proof.
  unfold refused, _onConnection. intros [[He Hb]|[[He Ht]|[Hb Ht]]].
  - destruct (String.eqb_spec (pathname request) kExtensionPath); [done|].
    destruct (String.eqb_spec (pathname request) kBrowserPath); [done|].
    by eexists _, _.
  - rewrite He. simpl. rewrite (token_differs_true _ _ Ht). by eexists _, _.
  - rewrite Hb. simpl. rewrite (token_differs_true _ _ Ht). by eexists _, _.
Qed.

(** C2. A connection on an unknown path, or with a token that is not
    exactly the one of its path's role, is closed with code 4001 and a
    non-empty reason, and that is all the relay does: its extension and
    client fields keep their values, the waiter is untouched and every
    other socket object is as before. *)
Theorem refused_connection_closed_4001 (w : World) (request : IncomingMessage) :
  refused request w →
  ∃ msg reason, reason ≠ EmptyString ∧
    trace (step w (Connection request))
      = trace w ++ [Log msg; Close (next_ws w) (Some (4001%Z, reason))]
    ∧ sockets (step w (Connection request)) !! next_ws w
      = Some (mkWebSocket CLOSING [] (Some (Some (4001%Z, reason))) NoListeners)
    ∧ _extensionSocket (step w (Connection request)) = _extensionSocket w
    ∧ _browserSocket (step w (Connection request)) = _browserSocket w
    ∧ _waiter (step w (Connection request)) = _waiter w
    ∧ ∀ s, s ≠ next_ws w →
        sockets (step w (Connection request)) !! s = sockets w !! s.
Proof.
  intros Href. unfold step.
  destruct (rejected (next_ws w) request (accept w)) as (msg & reason & -> & Hne);
    [done|].
  exists msg, reason. split; [done|].
  unfold ws_close, debugLogger, with_sockets, act, accept. simpl.
  repeat split.
  - by rewrite <- app_assoc.
  - by rewrite lookup_alter, decide_True, lookup_insert_eq.
  - intros s Hs. by rewrite lookup_alter, decide_False, lookup_insert_ne.
Qed.

(** C4. A frame received on a client socket is handed unchanged to the
    extension socket when that one is open. Otherwise the relay calls
    [close(4001, 'No extension client connected')] on the socket the frame
    came from, which closes it if it was open, and the frame reaches no
    socket: no list of sent payloads changes, nor do the relay's fields. *)
Theorem client_frame_forwarded_or_closed (w : World) (ws : nat) (data : RawData) :
  listeners_of ws w = BrowserListeners → live ws w = true →
  (∀ e o,
     _extensionSocket w = Some e → sockets w !! e = Some o → readyState o = OPEN →
     step w (Message ws data) =
       mkWorld (_extensionSocket w) (_browserSocket w) (_extensionToken w)
         (_browserToken w) (_waiter w)
         (<[e := mkWebSocket OPEN (sent o ++ [data]) (closeFrame o) (listeners o)]>
            (sockets w))
         (next_ws w) (trace w ++ [Send e data]))
  ∧ (is_open (_extensionSocket w) w = false →
     trace (step w (Message ws data))
       = trace w ++ [Close ws (Some (4001%Z, "No extension client connected"))]
     ∧ (∀ o, sockets w !! ws = Some o → readyState o = OPEN →
          sockets (step w (Message ws data)) !! ws
            = Some (mkWebSocket CLOSING (sent o)
                      (Some (Some (4001%Z, "No extension client connected")))
                      BrowserListeners))
     ∧ (∀ s, sent <$> sockets (step w (Message ws data)) !! s
             = sent <$> sockets w !! s)
     ∧ (∀ s, s ≠ ws → sockets (step w (Message ws data)) !! s = sockets w !! s)
     ∧ _extensionSocket (step w (Message ws data)) = _extensionSocket w
     ∧ _browserSocket (step w (Message ws data)) = _browserSocket w).
Proof.
  intros Hl Hlive.
  assert (step w (Message ws data) = browser_on_message ws data w) as ->.
  { unfold step. rewrite Hlive. unfold emit_message. by rewrite Hl. }
  unfold browser_on_message. split.
  - intros e o He Ho Hopen.
    assert (is_open (_extensionSocket w) w = true) as ->
      by (apply is_open_true; eauto).
    rewrite He. unfold ws_send, with_sockets, act. simpl.
    rewrite (alter_known _ _ _ _ Ho). unfold send_socket.
    rewrite Hopen. by rewrite He.
  - intros ->. unfold ws_close, with_sockets, act. simpl. repeat split.
    + intros o Ho Hopen. rewrite lookup_alter, decide_True, Ho by done. simpl.
      unfold close_socket. rewrite Hopen. f_equal.
      unfold listeners_of in Hl. rewrite Ho in Hl. by rewrite Hl.
    + intros s. rewrite lookup_alter. destruct (decide (ws = s)) as [->|]; [|done].
      destruct (sockets w !! s) as [[[] ? ? ?]|]; done.
    + intros s Hs. by rewrite lookup_alter, decide_False.
Qed.

(** *** One open extension socket at a time *)

Lemma no_new_extension_refl (w : World) : no_new_extension w w.
Proof. intros s o Hs Ho. eauto. Qed.

Lemma no_new_extension_trans (w1 w2 w3 : World) :
  no_new_extension w1 w2 → no_new_extension w2 w3 → no_new_extension w1 w3.
Proof.
  intros H12 H23 s o Hs Ho.
  destruct (H23 s o Hs Ho) as (o2 & Hs2 & Ho2). eauto.
Qed.

Lemma sole_extension_mono (w w' : World) :
  no_new_extension w w' → _extensionSocket w' = _extensionSocket w →
  sole_extension w → sole_extension w'.
Proof.
  intros Hnew He Hsole s o Hs Ho. rewrite He.
  destruct (Hnew s o Hs Ho) as (o0 & Hs0 & Ho0). eauto.
Qed.

(** Altering a socket with a function that never makes an open extension
    socket out of something else. *)
Lemma no_new_extension_alter (f : WebSocket → WebSocket) (x : nat) (w : World) :
  (∀ o, open_extension (f o) → open_extension o) →
  no_new_extension w (with_sockets (alter f x) w).
Proof.
  intros Hf s o'. unfold with_sockets. simpl. rewrite lookup_alter.
  destruct (decide (x = s)) as [->|]; [|eauto].
  destruct (sockets w !! s) as [o|]; [|done]. simpl.
  intros [= <-] Ho. eauto.
Qed.

Lemma close_socket_not_open (args : option (Z * string)) (o : WebSocket) :
  readyState (close_socket args o) ≠ OPEN.
Proof. unfold close_socket. by destruct o as [[] ? ? ?]. Qed.

Lemma no_new_extension_ws_close (x : nat) args (w : World) :
  no_new_extension w (ws_close x args w).
Proof.
  apply (no_new_extension_alter (close_socket args) x (act (Close x args) w)).
  intros o [_ Ho]. by apply close_socket_not_open in Ho.
Qed.

Lemma no_new_extension_ws_send (x : nat) data (w : World) :
  no_new_extension w (ws_send x data w).
Proof.
  apply (no_new_extension_alter (send_socket data) x (act (Send x data) w)).
  intros o. unfold send_socket, open_extension. by destruct o as [[] ? ? ?].
Qed.

Lemma no_new_extension_browser (x : nat) (w : World) :
  no_new_extension w (on BrowserListeners x w).
Proof. apply no_new_extension_alter. by intros o [? ?]. Qed.

Lemma no_new_extension_mark_closed (x : nat) (w : World) :
  no_new_extension w (with_sockets (alter mark_closed x) w).
Proof. apply no_new_extension_alter. by intros o [? ?]. Qed.

Lemma no_new_extension_accept (w : World) : no_new_extension w (accept w).
Proof.
  intros s o'. unfold accept. simpl. rewrite lookup_insert.
  destruct (decide (next_ws w = s)); [|eauto]. by intros [= <-] [? ?].
Qed.

Lemma sole_extension_handleExtensionConnection (ws : nat) (w : World) :
  sole_extension w → sole_extension (handleExtensionConnection ws w).
Proof.
  intros Hsole s o'. unfold handleExtensionConnection.
  set (w1 := if is_open _ w then _ else w).
  assert (∀ x o, sockets w1 !! x = Some o → open_extension o → False) as Hnone.
  { intros x o. subst w1. destruct (is_open (_extensionSocket w) w) eqn:Hopen.
    - apply is_open_true in Hopen as (old & oo & He & Hold & Hoo). rewrite He.
      unfold ws_close, with_sockets, debugLogger, act. simpl.
      rewrite lookup_alter. destruct (decide (old = x)) as [->|Hne].
      + rewrite Hold. simpl. intros [= <-] [_ Hx].
        by apply close_socket_not_open in Hx.
      + intros Hx Ho. specialize (Hsole x o Hx Ho). congruence.
    - intros Hx Ho. pose proof (Hsole x o Hx Ho) as He.
      assert (is_open (_extensionSocket w) w = true); [|congruence].
      apply is_open_true. destruct Ho. eauto. }
  assert (_extensionSocket (resolve_waiter
            (on ExtensionListeners ws (set_extensionSocket (Some ws) w1)))
          = Some ws) as ->.
  { unfold resolve_waiter. simpl. by destruct (_waiter w1). }
  assert (sockets (resolve_waiter
            (on ExtensionListeners ws (set_extensionSocket (Some ws) w1)))
          = alter (λ o, mkWebSocket (readyState o) (sent o) (closeFrame o)
                          ExtensionListeners) ws (sockets w1)) as ->.
  { unfold resolve_waiter. simpl. by destruct (_waiter w1). }
  rewrite lookup_alter. destruct (decide (ws = s)) as [->|]; [done|].
  intros Hs Ho. destruct (Hnone s o' Hs Ho).
Qed.

Lemma sole_extension_reject (ws : nat) args msg (w : World) :
  sole_extension w → sole_extension (ws_close ws args (debugLogger msg w)).
Proof.
  apply sole_extension_mono; [|done].
  exact (no_new_extension_ws_close ws args (debugLogger msg w)).
Qed.

Lemma sole_extension_onConnection (ws : nat) request (w : World) :
  sole_extension w → sole_extension (_onConnection ws request w).
Proof.
  intros Hsole. unfold _onConnection.
  destruct (String.eqb _ kExtensionPath).
  { destruct (token_differs _ _).
    - by apply sole_extension_reject.
    - by apply sole_extension_handleExtensionConnection. }
  destruct (String.eqb _ kBrowserPath).
  { destruct (token_differs _ _).
    - by apply sole_extension_reject.
    - revert Hsole. apply sole_extension_mono; [|done].
      exact (no_new_extension_browser ws
               (debugLogger "Browser client connected."
                  (set_browserSocket (Some ws) w))). }
  by apply sole_extension_reject.
Qed.

Lemma sole_extension_step (w : World) (e : Event) :
  sole_extension w → sole_extension (step w e).
Proof.
  intros Hsole. destruct e as [request|ws data|ws|ws| | |bound]; simpl.
  - apply sole_extension_onConnection.
    apply (sole_extension_mono w); [apply no_new_extension_accept|done..].
  - destruct (live ws w); [|done]. unfold emit_message.
    destruct (listeners_of ws w); [done| |].
    + unfold extension_on_message. destruct (is_open _ w); [|done].
      destruct (_browserSocket w); [|done].
      apply (sole_extension_mono w); [apply no_new_extension_ws_send|done..].
    + unfold browser_on_message. destruct (is_open _ w).
      * destruct (_extensionSocket w); [|done].
        apply (sole_extension_mono w); [apply no_new_extension_ws_send|done..].
      * apply (sole_extension_mono w); [apply no_new_extension_ws_close|done..].
  - destruct (live ws w); [|done].
    pose proof (no_new_extension_mark_closed ws w) as Hnew.
    set (w1 := with_sockets (alter mark_closed ws) w) in *.
    assert (sole_extension w1) as Hsole1 by by apply (sole_extension_mono w).
    unfold emit_close. destruct (listeners_of ws w1); [done| |].
    + unfold extension_on_close.
      destruct (bool_decide (_extensionSocket w1 = Some ws)) eqn:He; [|done].
      apply bool_decide_eq_true in He.
      intros s o Hs Ho. simpl in Hs.
      pose proof (Hsole1 s o Hs Ho) as Hs1. rewrite He in Hs1.
      injection Hs1 as <-. subst w1. simpl in Hs.
      rewrite lookup_alter, decide_True in Hs by done.
      destruct (sockets w !! ws); [|done]. simpl in Hs.
      injection Hs as <-. by destruct Ho.
    + exact Hsole1.
  - destruct (live ws w); [|done]. unfold emit_error.
    by destruct (listeners_of ws w).
  - intros s o. unfold close. simpl.
    intros Hs Ho. exfalso. revert Hs.
    destruct (_browserSocket w) as [b|]; simpl.
    + destruct (_extensionSocket w) as [e|] eqn:He; simpl.
      * rewrite !lookup_alter.
        destruct (decide (e = s)) as [->|].
        -- destruct (decide (b = s)) as [->|].
           ++ destruct (sockets w !! s); [|done]. simpl. intros [= <-].
              destruct Ho as [_ Ho]. by apply close_socket_not_open in Ho.
           ++ destruct (sockets w !! s); [|done]. simpl. intros [= <-].
              destruct Ho as [_ Ho]. by apply close_socket_not_open in Ho.
        -- destruct (decide (b = s)) as [->|].
           ++ destruct (sockets w !! s); [|done]. simpl. intros [= <-].
              destruct Ho as [_ Ho]. by apply close_socket_not_open in Ho.
           ++ intros Hs. specialize (Hsole s o Hs Ho). congruence.
      * rewrite lookup_alter. destruct (decide (b = s)) as [->|].
        -- destruct (sockets w !! s); [|done]. simpl. intros [= <-].
           destruct Ho as [_ Ho]. by apply close_socket_not_open in Ho.
        -- intros Hs. specialize (Hsole s o Hs Ho). congruence.
    + destruct (_extensionSocket w) as [e|] eqn:He; simpl.
      * rewrite lookup_alter. destruct (decide (e = s)) as [->|].
        -- destruct (sockets w !! s); [|done]. simpl. intros [= <-].
           destruct Ho as [_ Ho]. by apply close_socket_not_open in Ho.
        -- intros Hs. specialize (Hsole s o Hs Ho). congruence.
      * intros Hs. specialize (Hsole s o Hs Ho). congruence.
  - exact Hsole.
  - unfold startIfNeeded. destruct (listening w); exact Hsole.
Qed.

(** *** Socket identities are handed out once *)

Ltac case_branches :=
  repeat match goal with
    | |- context [if ?b then _ else _] => destruct b eqn:?
    | |- context [match ?x with Some _ => _ | None => _ end] => destruct x eqn:?
    | |- context [match ?x with NoListeners => _ | _ => _ end] => destruct x eqn:?
    end.

Lemma fresh_sockets_step (w : World) (e : Event) :
  fresh_sockets w → fresh_sockets (step w e).
Proof.
  intros Hfresh s. destruct e as [request|ws data|ws|ws| | |bound]; simpl.
  - unfold _onConnection, handleExtensionConnection, handleBrowserConnection,
      resolve_waiter.
    case_branches; simpl; intros Hs; rewrite ?lookup_alter_None;
      (rewrite lookup_insert_ne by lia); apply Hfresh; lia.
  - unfold emit_message, extension_on_message, browser_on_message.
    case_branches; simpl; intros Hs; rewrite ?lookup_alter_None; by apply Hfresh.
  - unfold emit_close, extension_on_close, browser_on_close.
    case_branches; simpl; intros Hs; rewrite ?lookup_alter_None; by apply Hfresh.
  - unfold emit_error. case_branches; simpl; intros Hs; by apply Hfresh.
  - unfold close. case_branches; simpl; intros Hs; rewrite ?lookup_alter_None;
      by apply Hfresh.
  - apply Hfresh.
  - unfold startIfNeeded. destruct (listening w); apply Hfresh.
Qed.

Lemma reachable_invariant (w : World) :
  reachable w → fresh_sockets w ∧ sole_extension w.
Proof.
  induction 1 as [extensionToken browserToken | w e _ [Hfresh Hsole]].
  - split; [by intros s _ | by intros s o Hs].
  - split; [by apply fresh_sockets_step | by apply sole_extension_step].
Qed.

Lemma relay_reachable_run (w : World) (es : list Event) :
  reachable w → reachable (run w es).
Proof.
  revert w. induction es as [|e es IH]; intros w Hw; [done|].
  apply IH. by constructor.
Qed.

(** C3. When an extension connection with the right token arrives while
    the relay's extension socket is open, the relay first calls
    [close(1000, 'New extension connection established')] on the previous
    socket, which leaves the open state, and after that stores the new
    socket in [_extensionSocket]; afterwards the new socket is the one and
    only open socket carrying the extension listeners. *)
Theorem extension_connection_supersedes (w : World) (old : nat) (o : WebSocket)
    (request : IncomingMessage) :
  reachable w →
  _extensionSocket w = Some old → sockets w !! old = Some o → readyState o = OPEN →
  pathname request = kExtensionPath → token request = Some (_extensionToken w) →
  trace (step w (Connection request))
    = trace w
      ++ [Log "Closing previous extension connection.";
          Close old (Some (1000%Z, "New extension connection established"));
          SetExtensionSocket (Some (next_ws w))]
      ++ match _waiter w with Some _ => [ResolveWaiter] | None => [] end
  ∧ sockets (step w (Connection request)) !! old
    = Some (mkWebSocket CLOSING (sent o)
              (Some (Some (1000%Z, "New extension connection established")))
              (listeners o))
  ∧ _extensionSocket (step w (Connection request)) = Some (next_ws w)
  ∧ sockets (step w (Connection request)) !! next_ws w
    = Some (mkWebSocket OPEN [] None ExtensionListeners)
  ∧ ∀ s x, sockets (step w (Connection request)) !! s = Some x →
      (open_extension x ↔ s = next_ws w).
Proof.
  intros Hreach He Hold Hopen Hpath Htok.
  destruct (reachable_invariant w Hreach) as [Hfresh Hsole].
  assert (old ≠ next_ws w) as Hne.
  { intros ->. rewrite Hfresh in Hold; [done | lia]. }
  pose proof (sole_extension_step w (Connection request) Hsole) as Hsole'.
  assert (step w (Connection request)
          = handleExtensionConnection (next_ws w) (accept w)) as Hstep.
  { unfold step, _onConnection. rewrite Hpath, Htok. simpl.
    by rewrite String.eqb_refl. }
  rewrite Hstep in *. clear Hstep.
  unfold handleExtensionConnection in *.
  assert (is_open (_extensionSocket (accept w)) (accept w) = true) as Hio.
  { apply is_open_true. exists old, o. simpl.
    by rewrite lookup_insert_ne. }
  rewrite Hio in *. simpl in *. rewrite He in *.
  unfold resolve_waiter in *. simpl in *.
  destruct (_waiter w) as [r|]; simpl in *.
  all: split; [by rewrite <- !app_assoc|].
  all: split;
    [rewrite lookup_alter, decide_False, lookup_alter, decide_True,
       lookup_insert_ne, Hold by done;
     simpl; unfold close_socket; by rewrite Hopen|].
  all: split; [done|].
  all: split;
    [by rewrite lookup_alter, decide_True, lookup_alter, decide_False,
       lookup_insert_eq by done|].
  all: intros s x Hx; split;
    [intros Hox; pose proof (Hsole' s x Hx Hox) as Hs; simpl in Hs; congruence|].
  all: intros ->;
    rewrite lookup_alter, decide_True, lookup_alter, decide_False,
      lookup_insert_eq in Hx by done;
    simpl in Hx; by injection Hx as <-.
Qed.

(** *** The theorems at work on sample runs *)

Lemma extension_frame_forwarded_or_dropped_witness :
  sockets (run paired (frames 0 [[Byte.x01]; [Byte.x02; Byte.x03]])) !! 1
    = Some (mkWebSocket OPEN [[Byte.x01]; [Byte.x02; Byte.x03]] None
              BrowserListeners).
Proof.
  destruct (extension_frame_forwarded_or_dropped paired 0 eq_refl eq_refl)
    as (_ & Hrun & _).
  exact (Hrun [[Byte.x01]; [Byte.x02; Byte.x03]] 1
           (mkWebSocket OPEN [] None BrowserListeners) eq_refl eq_refl eq_refl).
Defined.

Lemma refused_connection_closed_4001_witness :
  refused (extension_request "B") paired
  ∧ ∃ msg reason, reason ≠ EmptyString ∧
      trace (step paired (Connection (extension_request "B")))
        = trace paired ++ [Log msg; Close 2 (Some (4001%Z, reason))]
      ∧ _extensionSocket (step paired (Connection (extension_request "B"))) = Some 0
      ∧ _browserSocket (step paired (Connection (extension_request "B"))) = Some 1.
Proof.
  assert (refused (extension_request "B") paired) as Href.
  { right. left. split; [reflexivity | discriminate]. }
  split; [exact Href|].
  destruct (refused_connection_closed_4001 paired (extension_request "B") Href)
    as (msg & reason & Hne & Htrace & _ & He & Hb & _).
  exists msg, reason. repeat split; assumption.
Defined.

Lemma extension_connection_supersedes_witness :
  let w := step paired (Connection (extension_request "E")) in
  sockets w !! 0
    = Some (mkWebSocket CLOSING []
              (Some (Some (1000%Z, "New extension connection established")))
              ExtensionListeners)
  ∧ _extensionSocket w = Some 2
  ∧ sockets w !! 2 = Some (mkWebSocket OPEN [] None ExtensionListeners).
Proof.
  assert (reachable paired) as Hreach
    by apply relay_reachable_run, relay_reachable_run, reachable_init.
  destruct (extension_connection_supersedes paired 0
              (mkWebSocket OPEN [] None ExtensionListeners)
              (extension_request "E") Hreach eq_refl eq_refl eq_refl eq_refl eq_refl)
    as (_ & Hold & He & Hnew & _).
  repeat split; assumption.
Defined.

Lemma client_frame_forwarded_or_closed_witness :
  trace (step client_only (Message 0 [Byte.x01]))
    = trace client_only ++ [Close 0 (Some (4001%Z, "No extension client connected"))]
  ∧ sockets (step client_only (Message 0 [Byte.x01])) !! 0
    = Some (mkWebSocket CLOSING []
              (Some (Some (4001%Z, "No extension client connected")))
              BrowserListeners).
Proof.
  destruct (client_frame_forwarded_or_closed client_only 0 [Byte.x01]
              eq_refl eq_refl) as (_ & Hclose).
  destruct (Hclose eq_refl) as (Htrace & Hws & _).
  split; [exact Htrace|].
  exact (Hws (mkWebSocket OPEN [] None BrowserListeners) eq_refl eq_refl).
Defined.

End RelayProps.

(* ===================================================================== *)
(** ** Properties of the adapter *)
(* ===================================================================== *)

Module ExtensionProps.
Import Extension.

Ltac run_M :=
  unfold mbind, M_bind, mret, M_ret, prop, lift, read, modify, act, debugLog,
    throw, try_catch, fresh; simpl.


Lemma calls_app (t1 t2 : list Action) : calls (t1 ++ t2) = calls t1 ++ calls t2.
Proof. apply List.filter_app. Qed.

(** What [this.dispatch(data)] does, whichever closure the field holds. *)
Lemma call_dispatch_spec (this : nat) (data : value) (w : World) :
  ∃ w', call_dispatch this data w = (w', Normal tt)
    ∧ calls (trace w') = calls (trace w) ++ [Dispatch this data]
    ∧ heap w' = heap w ∧ userAgent w' = userAgent w
    ∧ adapters w' = adapters w ∧ attached w' = attached w
    ∧ onEvent w' = onEvent w ∧ onDetach w' = onDetach w
    ∧ pending w' = pending w ∧ next_id w' = next_id w
    ∧ ∀ s, readyState <$> sockets w' !! s = readyState <$> sockets w !! s.
Proof.
  unfold call_dispatch. run_M.
  destruct (heap w !! this) as [[c [|socket] d]|]; simpl;
    try (eexists; split; [done|]; simpl;
         rewrite calls_app; simpl; by rewrite ?app_nil_r).
  destruct (socket_is_open socket _); simpl.
  - unfold socket_send. run_M. eexists; split; [done|]. simpl.
    rewrite !calls_app. simpl. rewrite !app_nil_r. repeat split; try done.
    intros s. rewrite lookup_alter. destruct (decide (socket = s)) as [->|]; [|done].
    by destruct (sockets w !! s).
  - eexists; split; [done|]. simpl.
    rewrite !calls_app. simpl. by rewrite !app_nil_r.
Qed.

(** [this.dispatch(data)] of a bridged adapter whose socket is open. *)
Lemma call_dispatch_open (this socket : nat) (a : CDPAdapter) (so : WebSocket)
    (data : value) (w : World) :
  heap w !! this = Some a → dispatch a = dispatch_to_socket socket →
  sockets w !! socket = Some so → readyState so = OPEN →
  call_dispatch this data w =
    (set_trace (trace w ++ [Dispatch this data;
                            Log "Sending message to browser:";
                            SocketSend socket data])
       (set_sockets
          (<[socket := mkWebSocket (url so) OPEN (sent so ++ [data]) (wired so)]>
             (sockets w)) w),
     Normal tt).
Proof.
  intros Ha Hd Hso Hopen. unfold call_dispatch. run_M. rewrite Ha.
  destruct a as [c dsp tab]. simpl in Hd. subst dsp. simpl.
  unfold socket_is_open. simpl. rewrite Hso, Hopen. simpl.
  unfold socket_send. run_M. unfold set_trace, set_sockets. simpl.
  rewrite <- !app_assoc. simpl. repeat f_equal.
  apply map_eq. intros j. rewrite lookup_alter, lookup_insert.
  destruct (decide (socket = j)) as [->|]; [|done].
  rewrite Hso. simpl. by rewrite Hopen.
Qed.

Section Pump.

Variable JSON_parse : string → option value.
Variable WebSocket_accepts : string → bool.


(** C6. A frame that decodes to a [Browser.getVersion] command, whatever
    its id, is answered by the adapter itself: it returns normally having
    made exactly one call, the dispatch of a reply with the request's id
    whose result holds protocolVersion '1.3', the browser's user agent and
    product 'Chrome'; nothing is sent to the native debugger. *)
Theorem getVersion_answered_locally (this : nat) (targetId browserContextId : string)
    (data : MessageData) (message : value) (w : World) :
  decode JSON_parse data = Normal message →
  command "Browser.getVersion" message →
  ∃ w', onBrowserMessage JSON_parse this targetId browserContextId data w
          = (w', Normal tt)
    ∧ calls (trace w')
      = calls (trace w)
        ++ [Dispatch this
              (Obj [("id", id_of message);
                    ("result", Obj [("protocolVersion", Str "1.3");
                                    ("userAgent", Str (userAgent w));
                                    ("product", Str "Chrome")])])].
Proof.
  intros Hdec (fields & -> & Hm).
  unfold onBrowserMessage, onBrowserMessage_body. run_M.
  rewrite Hdec. simpl. rewrite Hm. simpl.
  destruct (call_dispatch_spec this
              (Obj [("id", lookup_field "id" fields); ("result", version_info w)]) w)
    as (w1 & Hw1 & Hc1 & _).
  rewrite Hw1. by exists w1.
Qed.

(** C7. A frame that fails to decode is dropped by the message pump: the
    handler returns normally, its only effect is one log entry, so nothing
    is dispatched or forwarded and no field of the extension, adapter or
    socket changes; delivered by the event loop to an open bridged socket,
    the frame leaves that socket open. *)
Theorem malformed_frame_dropped (this : nat) (targetId browserContextId : string)
    (data : MessageData) (error : string) (w : World) :
  decode JSON_parse data = Throw error →
  onBrowserMessage JSON_parse this targetId browserContextId data w
    = (set_trace (trace w ++ [Log "Error processing WebSocket message:"]) w,
       Normal tt)
  ∧ ∀ socket so l,
      sockets w !! socket = Some so → readyState so = OPEN → wired so = Some l →
      step JSON_parse WebSocket_accepts w (SocketMessage socket data)
        = set_trace (trace w ++ [Log "Error processing WebSocket message:"]) w
      ∧ sockets (step JSON_parse WebSocket_accepts w (SocketMessage socket data))
          !! socket = Some so.
Proof.
  intros Hdec.
  assert (∀ this targetId browserContextId,
            onBrowserMessage JSON_parse this targetId browserContextId data w
            = (set_trace (trace w ++ [Log "Error processing WebSocket message:"]) w,
               Normal tt)) as Hdrop.
  { intros. unfold onBrowserMessage, onBrowserMessage_body. run_M.
    by rewrite Hdec. }
  split; [apply Hdrop|].
  intros socket so l Hso Hopen Hl.
  unfold step, state_of, listeners_of, run_handler. rewrite Hso. simpl.
  rewrite Hopen, Hl, Hdrop. by simpl.
Qed.

End Pump.

(** *** The native-event pump *)

Lemma onDebuggerEvent_spec (this source : nat) (method : string) (params : value)
    (w : World) :
  ∃ w', _onDebuggerEvent this source method params w = (w', Normal tt)
    ∧ calls (trace w') = calls (trace w) ++ [Dispatch this (wrapped_event method params)]
    ∧ onEvent w' = onEvent w.
Proof.
  unfold _onDebuggerEvent. run_M.
  destruct (call_dispatch_spec this (wrapped_event method params)
              (set_trace (trace w ++ [Log "CDP event:"]) w))
    as (w1 & Hw1 & Hc1 & _ & _ & _ & _ & He & _).
  unfold wrapped_event in *. rewrite Hw1. exists w1. split; [done|].
  split; [|done]. rewrite Hc1. simpl. rewrite calls_app. simpl.
  by rewrite app_nil_r.
Qed.

Lemma run_all_onDebuggerEvent (source : nat) (method : string) (params : value)
    (ls : list BoundFn) :
  ∀ w,
  calls (trace (run_all ((λ f, _onDebuggerEvent (fn_this f) source method params)
                           <$> ls) w))
    = calls (trace w)
      ++ ((λ f, Dispatch (fn_this f) (wrapped_event method params)) <$> ls).
Proof.
  induction ls as [|f ls IH]; intros w; simpl; [by rewrite app_nil_r|].
  rewrite IH. unfold run_handler.
  destruct (onDebuggerEvent_spec (fn_this f) source method params w)
    as (w1 & -> & Hc & _).
  by rewrite Hc, <- app_assoc.
Qed.

Section Events.

Variable JSON_parse : string → option value.
Variable WebSocket_accepts : string → bool.

(** C9. The native-event pump never looks at the source of an event: the
    adapter's handler does the same for every source, namely one dispatch
    of [{method, params, sessionId: 'dummy-session-id'}], which an open
    bridge socket sends as it is; and an event of any attached tab is
    dispatched once by every adapter whose listener is registered, in
    registration order, whichever tab that adapter bridges. *)
Theorem debugger_event_dispatched_for_any_source (source : nat) (method : string)
    (params : value) (w : World) :
  source ∈ attached w →
  (∀ this source', _onDebuggerEvent this source method params w
                   = _onDebuggerEvent this source' method params w)
  ∧ (∀ this a socket so,
       heap w !! this = Some a → dispatch a = dispatch_to_socket socket →
       sockets w !! socket = Some so → readyState so = OPEN →
       sockets (_onDebuggerEvent this source method params w).1 !! socket
         = Some (mkWebSocket (url so) OPEN
                   (sent so ++ [wrapped_event method params]) (wired so)))
  ∧ calls (trace (step JSON_parse WebSocket_accepts w (DebuggerEvent source method params)))
    = calls (trace w)
      ++ ((λ f, Dispatch (fn_this f) (wrapped_event method params)) <$> onEvent w).
Proof.
  intros Hsrc. split; [done|]. split.
  - intros this a socket so Ha Hd Hso Hopen.
    unfold _onDebuggerEvent. run_M.
    erewrite call_dispatch_open; [| exact Ha | exact Hd | exact Hso | exact Hopen].
    simpl. by rewrite lookup_insert_eq.
  - unfold step. rewrite bool_decide_eq_true_2 by done.
    apply run_all_onDebuggerEvent.
Qed.

End Events.

(** *** Listener registrations *)

Lemma removeListener_fresh (f : BoundFn) (ls : list BoundFn) (n : nat) :
  Forall (λ g, fn_id g < n)%nat ls → (n ≤ fn_id f)%nat → removeListener f ls = ls.
Proof.
  intros Hls Hn. unfold removeListener.
  induction Hls as [|g ls Hg Hls IH]; [done|].
  rewrite filter_cons_True by lia. by rewrite IH.
Qed.

Lemma quiet_call_onClose (this : nat) : quiet (call_onClose this).
Proof.
  intros w. unfold call_onClose. run_M.
  destruct (heap w !! this) as [[[|tabId socket] d t]|]; simpl; try done.
  destruct (socket_is_open socket _); simpl; done.
Qed.

(** [detach] meets a world whose registered listeners are all older than
    the function objects it is about to make. *)
Lemma detach_keeps_listeners (this : nat) (w : World) :
  ids_below w →
  onEvent (detach this w).1 = onEvent w ∧ onDetach (detach this w).1 = onDetach w.
Proof.
  intros [He Hd]. unfold detach, chrome_debugger_detach, bind_this. run_M.
  destruct (bool_decide (debuggee_of this w ∈ attached w)); simpl; [|done].
  match goal with |- context [call_onClose this ?w0] =>
    destruct (quiet_call_onClose this w0) as (-> & -> & _) end.
  simpl. split.
  - by apply (removeListener_fresh _ _ (next_id w)).
  - apply (removeListener_fresh _ _ (next_id w)); [done | simpl; lia].
Qed.

(** *** Registered listeners are older than the next identity *)

Lemma quiet_bind {A B} (c : M A) (k : A → M B) :
  quiet c → (∀ a, quiet (k a)) → quiet (c ≫= k).
Proof.
  intros Hc Hk w. unfold mbind, M_bind.
  destruct (Hc w) as (He & Hd & Hn). destruct (c w) as [w1 [a|e]]; [|done].
  destruct (Hk a w1) as (He' & Hd' & Hn'). simpl in *. by rewrite He', Hd', Hn'.
Qed.

Lemma quiet_ret {A} (a : A) : quiet (mret a).
Proof. done. Qed.

Lemma quiet_lift {A} (c : Completion A) : quiet (lift c).
Proof. done. Qed.

Lemma quiet_read {A} (f : World → A) : quiet (read f).
Proof. done. Qed.

Lemma quiet_act (a : Action) : quiet (act a).
Proof. done. Qed.

Lemma quiet_try_catch {A} (c : M A) (h : string → M A) :
  quiet c → (∀ e, quiet (h e)) → quiet (try_catch c h).
Proof.
  intros Hc Hh w. unfold try_catch.
  destruct (Hc w) as (He & Hd & Hn). destruct (c w) as [w1 [a|e]]; [done|].
  destruct (Hh e w1) as (He' & Hd' & Hn'). simpl in *. by rewrite He', Hd', Hn'.
Qed.

Lemma quiet_call_dispatch (this : nat) (data : value) : quiet (call_dispatch this data).
Proof.
  intros w.
  destruct (call_dispatch_spec this data w)
    as (w1 & -> & _ & _ & _ & _ & _ & He & Hd & _ & Hn & _).
  done.
Qed.

Ltac quiet_step :=
  lazymatch goal with
  | |- quiet (call_dispatch _ _) => apply quiet_call_dispatch
  | |- quiet (call_onClose _) => apply quiet_call_onClose
  | |- quiet (try_catch _ _) => apply quiet_try_catch; [|intros ?]
  | |- quiet (mbind _ _) => apply quiet_bind; [|intros ?]
  | |- quiet (mret _) => apply quiet_ret
  | |- quiet (lift _) => apply quiet_lift
  | |- quiet (read _) => apply quiet_read
  | |- quiet (act _) => apply quiet_act
  | |- quiet (if ?b then _ else _) => destruct b
  | |- quiet (match ?x with Some _ => _ | None => _ end) => destruct x
  end.

Ltac solve_quiet := repeat quiet_step.

Lemma quiet_onBrowserMessage JSON_parse this targetId browserContextId data :
  quiet (onBrowserMessage JSON_parse this targetId browserContextId data).
Proof.
  unfold onBrowserMessage, onBrowserMessage_body, prop, debugLog. solve_quiet.
Qed.

Lemma quiet_onCommandResponse this message response lastError :
  quiet (onCommandResponse this message response lastError).
Proof. unfold onCommandResponse, prop. solve_quiet. Qed.

Lemma quiet_onDebuggerEvent this source method params :
  quiet (_onDebuggerEvent this source method params).
Proof. unfold _onDebuggerEvent, debugLog. solve_quiet. Qed.

Lemma quiet_onDebuggerDetach this : quiet (_onDebuggerDetach this).
Proof. unfold _onDebuggerDetach, debugLog. solve_quiet. Qed.

Lemma quiet_onTabsUpdated tabId status tab_url :
  quiet (onTabsUpdated tabId status tab_url).
Proof. unfold onTabsUpdated, debugLog. solve_quiet; done. Qed.

Lemma quiet_stable (c : M unit) : quiet c → stable c.
Proof.
  intros Hc w [He Hd]. destruct (Hc w) as (He' & Hd' & Hn').
  unfold ids_below. by rewrite He', Hd', Hn'.
Qed.

Lemma stable_detach (this : nat) : stable (detach this).
Proof.
  intros w Hw. destruct (detach_keeps_listeners this w Hw) as [He Hd].
  assert (next_id w ≤ next_id (detach this w).1)%nat as Hn.
  { unfold detach, chrome_debugger_detach, bind_this. run_M.
    destruct (bool_decide (debuggee_of this w ∈ attached w)); simpl; [|done].
    match goal with |- context [call_onClose this ?w0] =>
      destruct (quiet_call_onClose this w0) as (_ & _ & ->) end.
    simpl. lia. }
  destruct Hw as [Hwe Hwd]. unfold ids_below. rewrite He, Hd. split.
  - eapply Forall_impl; [exact Hwe | simpl; intros; lia].
  - eapply Forall_impl; [exact Hwd | simpl; intros; lia].
Qed.

Lemma addListener_below (f : BoundFn) (ls : list BoundFn) (n : nat) :
  Forall (λ g, fn_id g < n)%nat ls → (fn_id f < n)%nat →
  Forall (λ g, fn_id g < n)%nat (addListener f ls).
Proof.
  intros Hls Hf. unfold addListener. destruct (bool_decide _); [done|].
  apply Forall_app. split; [done | by constructor].
Qed.

Lemma stable_onTabsUpdated_approved accepts tabId proxyURL targetId browserContextId :
  stable (onTabsUpdated_approved accepts tabId proxyURL targetId browserContextId).
Proof.
  intros w [He Hd].
  unfold onTabsUpdated_approved, chrome_debugger_attach, new_WebSocket,
    new_CDPAdapter, bind_this.
  destruct (accepts proxyURL); run_M;
    (destruct (bool_decide (tabId ∈ attached w)); simpl; [done|]); [|done].
  split; simpl.
  - apply addListener_below; [|simpl; lia].
    eapply Forall_impl; [exact He | simpl; intros; lia].
  - apply addListener_below; [|simpl; lia].
    eapply Forall_impl; [exact Hd | simpl; intros; lia].
Qed.

Lemma stable_run_handler (c : M unit) (w : World) :
  stable c → ids_below w → ids_below (run_handler c w).
Proof.
  intros Hc Hw. specialize (Hc w Hw). unfold run_handler.
  by destruct (c w) as [w1 [[]|e]].
Qed.

Lemma stable_run_all (cs : list (M unit)) :
  Forall stable cs → ∀ w, ids_below w → ids_below (run_all cs w).
Proof.
  induction 1 as [|c cs Hc _ IH]; intros w Hw; [done|].
  simpl. apply IH. by apply stable_run_handler.
Qed.

Lemma stable_seq (c1 c2 : M unit) : stable c1 → stable c2 → stable (c1;; c2).
Proof.
  intros H1 H2 w Hw. unfold mbind, M_bind. specialize (H1 w Hw).
  destruct (c1 w) as [w1 [[]|e]]; [|done]. by apply H2.
Qed.

Section Invariant.

Variable JSON_parse : string → option value.
Variable WebSocket_accepts : string → bool.

Lemma ids_below_step (w : World) (e : Event) :
  ids_below w → ids_below (step JSON_parse WebSocket_accepts w e).
Proof.
  intros Hw. destruct e; simpl.
  - apply stable_run_handler; [|done]. apply quiet_stable, quiet_onTabsUpdated.
  - apply stable_run_all; [|done].
    apply Forall_fmap, Forall_forall. intros p _. unfold compose.
    apply stable_onTabsUpdated_approved.
  - destruct (state_of socket w) as [[]|]; try done.
    destruct (listeners_of socket w); [|done].
    apply stable_run_handler; [|done]. apply quiet_stable. solve_quiet.
  - destruct (state_of socket w) as [[]|]; try done;
      (destruct (listeners_of socket w); [|done]);
      (apply stable_run_handler; [|done]);
      apply quiet_stable, quiet_onBrowserMessage.
  - destruct (state_of socket w) as [[]|]; try done;
      (destruct (listeners_of socket w); [|done]);
      (apply stable_run_handler; [apply stable_detach|]);
      (apply stable_run_handler; [|done]);
      (apply stable_seq; [apply quiet_stable, quiet_act | apply stable_detach]).
  - destruct (state_of socket w) as [[]|]; try done;
      (destruct (listeners_of socket w); [|done]);
      (apply stable_run_handler; [|done]); apply stable_detach.
  - apply stable_run_handler; [|done].
    apply quiet_stable, quiet_onCommandResponse.
  - destruct (bool_decide _); [|done]. apply stable_run_all; [|done].
    apply Forall_fmap, Forall_forall. intros f _. unfold compose.
    apply quiet_stable, quiet_onDebuggerEvent.
  - destruct (bool_decide _); [|done]. apply stable_run_all; [|done].
    apply Forall_fmap, Forall_forall. intros f _. unfold compose.
    apply quiet_stable, quiet_onDebuggerDetach.
Qed.

Lemma reachable_ids_below (w : World) : reachable JSON_parse WebSocket_accepts w → ids_below w.
Proof.
  induction 1 as [userAgent | w e _ IH].
  - split; constructor.
  - by apply ids_below_step.
Qed.

Lemma extension_reachable_run (w : World) (es : list Event) :
  reachable JSON_parse WebSocket_accepts w →
  reachable JSON_parse WebSocket_accepts (run JSON_parse WebSocket_accepts w es).
Proof.
  revert w. induction es as [|e es IH]; intros w Hw; [done|].
  apply IH. by constructor.
Qed.

Lemma run_handler_listeners (c : M unit) (w : World) :
  onEvent (run_handler c w) = onEvent (c w).1
  ∧ onDetach (run_handler c w) = onDetach (c w).1.
Proof. unfold run_handler. by destruct (c w) as [w1 [[]|e]]. Qed.

Lemma run_detach_keeps_listeners (this : nat) (w : World) :
  ids_below w →
  onEvent (run_handler (detach this) w) = onEvent w
  ∧ onDetach (run_handler (detach this) w) = onDetach w.
Proof.
  intros Hw. destruct (run_handler_listeners (detach this) w) as [-> ->].
  by apply detach_keeps_listeners.
Qed.

Lemma run_all_quiet (cs : list (M unit)) :
  Forall quiet cs →
  ∀ w, onEvent (run_all cs w) = onEvent w ∧ onDetach (run_all cs w) = onDetach w.
Proof.
  induction 1 as [|c cs Hc _ IH]; intros w; [done|]. simpl.
  destruct (IH (run_handler c w)) as [-> ->].
  destruct (run_handler_listeners c w) as [-> ->].
  destruct (Hc w) as (He & Hd & _). done.
Qed.

Lemma teardown_keeps_listeners (w : World) (e : Event) :
  ids_below w → teardown_event e →
  onEvent (step JSON_parse WebSocket_accepts w e) = onEvent w
  ∧ onDetach (step JSON_parse WebSocket_accepts w e) = onDetach w.
Proof.
  intros Hw He. destruct e; try done; simpl.
  - destruct (state_of socket w) as [[]|]; try done;
      (destruct (listeners_of socket w) as [l|]; [|done]).
    all: set (w0 := set_readyState socket CLOSED w).
    all: assert (ids_below w0) as Hw0 by exact Hw.
    all: assert (ids_below
                   (run_handler (debugLog "WebSocket error:";; detach (l_adapter l)) w0))
           as Hw1
           by (apply stable_run_handler; [|done];
               apply stable_seq; [apply quiet_stable, quiet_act | apply stable_detach]).
    all: destruct (run_detach_keeps_listeners (l_adapter l) _ Hw1) as [-> ->].
    all: destruct (run_handler_listeners
                     (debugLog "WebSocket error:";; detach (l_adapter l)) w0)
           as [-> ->].
    all: unfold debugLog, act, modify, mbind, M_bind; simpl.
    all: by apply (detach_keeps_listeners (l_adapter l)
                     (set_trace (trace w0 ++ [Log "WebSocket error:"]) w0)).
  - destruct (state_of socket w) as [[]|]; try done;
      (destruct (listeners_of socket w) as [l|]; [|done]).
    all: by apply (run_detach_keeps_listeners (l_adapter l)
                     (set_readyState socket CLOSED w)).
  - destruct (bool_decide _); [|done].
    refine (run_all_quiet _ _ (set_attached (attached w ∖ {[source]}) w)).
    apply Forall_fmap, Forall_forall. intros f _. unfold compose.
    apply quiet_onDebuggerDetach.
Qed.

(** C10. [detach] leaves the registrations of [chrome.debugger.onEvent]
    and [chrome.debugger.onDetach] exactly as they were: the two function
    objects it passes to [removeListener] are new ones, so none of the
    registered listeners, the ones the constructors added among them, is
    removed; the same holds for a whole turn of the event loop that tears
    a bridge down, whether the socket closed, failed or the browser ended
    the debugging session. *)
Theorem detach_leaves_listeners_registered (this : nat) (w : World) :
  reachable JSON_parse WebSocket_accepts w →
  (onEvent (detach this w).1 = onEvent w
   ∧ onDetach (detach this w).1 = onDetach w)
  ∧ ∀ e, teardown_event e →
      onEvent (step JSON_parse WebSocket_accepts w e) = onEvent w
      ∧ onDetach (step JSON_parse WebSocket_accepts w e) = onDetach w.
Proof.
  intros Hw%reachable_ids_below. split.
  - by apply detach_keeps_listeners.
  - intros e He. by apply teardown_keeps_listeners.
Qed.

End Invariant.

(** *** Teardown *)

(** [detach] on an adapter whose tab has no debugger attached: the native
    call is made, it is rejected, and nothing after it runs. *)
Lemma detach_unattached_throws (this : nat) (w : World) :
  debuggee_of this w ∉ attached w →
  detach this w
    = (set_trace (trace w ++ [DebuggerDetach (debuggee_of this w)]) w,
       Throw "Debugger is not attached to the tab").
Proof.
  intros Hnot. unfold detach, chrome_debugger_detach. run_M.
  by rewrite bool_decide_eq_false_2.
Qed.

(** C8. Teardown triggered twice for tab 7: the native-detach listener
    fires and runs [onClose], which removes the tab's entry and closes
    the socket; the socket's ['close'] listener then calls [detach], whose
    [chrome.debugger.detach] is rejected because the tab is no longer
    attached, so this second teardown throws and ends as an unhandled
    rejection. The entry is removed once and the socket closed once. *)
Theorem teardown_twice_second_throws :
  let w1 := step sample_parse sample_accepts bridged (DebuggerDetached 7) in
  let w2 := step sample_parse sample_accepts w1 (SocketClosed 0) in
  adapters bridged !! 7 = Some 1
  ∧ adapters w1 !! 7 = None
  ∧ state_of 0 w1 = Some CLOSING
  ∧ (detach 1 (set_readyState 0 CLOSED w1)).2
    = Throw "Debugger is not attached to the tab"
  ∧ List.skipn (length (trace bridged)) (trace w2)
    = [Log "Debugger detached from tab with reason:";
       Log "Debugger detached from tab:";
       MapDelete 7;
       SocketClose 0;
       DebuggerDetach 7;
       UnhandledRejection "Debugger is not attached to the tab"].
Proof. vm_compute. repeat split. Qed.

(** A failing socket runs the ['error'] listener and then the ['close']
    listener: both call [detach], and the second call throws. *)
Example socket_failure_second_detach_throws :
  List.skipn (length (trace bridged))
    (trace (step sample_parse sample_accepts bridged (SocketFailed 0)))
  = [Log "WebSocket error:";
     DebuggerDetach 7;
     Log "Debugger detached from tab:";
     MapDelete 7;
     DebuggerDetach 7;
     UnhandledRejection "Debugger is not attached to the tab"].
Proof. vm_compute. reflexivity. Qed.

(** *** The theorems at work on sample runs *)


Lemma getVersion_answered_locally_witness :
  ∃ w', onBrowserMessage sample_parse 1 "target-7" "context-1"
          (BlobData getVersion_text) bridged = (w', Normal tt)
    ∧ calls (trace w')
      = calls (trace bridged)
        ++ [Dispatch 1
              (Obj [("id", Number 7);
                    ("result", Obj [("protocolVersion", Str "1.3");
                                    ("userAgent", Str "Mozilla/5.0");
                                    ("product", Str "Chrome")])])].
Proof.
  destruct (getVersion_answered_locally sample_parse 1 "target-7" "context-1"
              (BlobData getVersion_text)
              (Obj [("id", Number 7); ("method", Str "Browser.getVersion")])
              bridged eq_refl)
    as (w' & Hrun & Hcalls).
  - eexists. split; reflexivity.
  - exists w'. split; assumption.
Defined.

Lemma malformed_frame_dropped_witness :
  step sample_parse sample_accepts bridged (SocketMessage 0 (BlobData "{not json"))
    = set_trace (trace bridged ++ [Log "Error processing WebSocket message:"])
        bridged
  ∧ state_of 0 (step sample_parse sample_accepts bridged
                  (SocketMessage 0 (BlobData "{not json")))
    = Some OPEN.
Proof.
  destruct (malformed_frame_dropped sample_parse sample_accepts 1 "target-7" "context-1"
              (BlobData "{not json") "SyntaxError" bridged eq_refl)
    as (_ & Hloop).
  destruct (Hloop 0
              (mkWebSocket "ws://localhost:9223/extension?token=E" OPEN []
                 (Some (mkSocketListeners 1 "target-7" "context-1")))
              (mkSocketListeners 1 "target-7" "context-1")
              eq_refl eq_refl eq_refl) as (Hstep & Hsock).
  split; [exact Hstep|]. unfold state_of. by rewrite Hsock.
Defined.

Lemma debugger_event_dispatched_for_any_source_witness :
  calls (trace (step sample_parse sample_accepts two_bridges
                  (DebuggerEvent 8 "Page.frameNavigated" (Obj []))))
    = calls (trace two_bridges)
      ++ [Dispatch 1 (wrapped_event "Page.frameNavigated" (Obj []));
          Dispatch 5 (wrapped_event "Page.frameNavigated" (Obj []))].
Proof.
  assert (8 ∈ attached two_bridges) as Hsrc.
  { apply (bool_decide_unpack _). vm_compute. exact I. }
  destruct (debugger_event_dispatched_for_any_source sample_parse sample_accepts 8
              "Page.frameNavigated" (Obj []) two_bridges Hsrc)
    as (_ & _ & Hcalls).
  exact Hcalls.
Defined.

(** An event of tab 8 is sent on the socket of tab 7's bridge. *)
Example event_of_other_tab_reaches_bridge :
  sent <$> sockets (step sample_parse sample_accepts two_bridges
                      (DebuggerEvent 8 "Page.frameNavigated" (Obj []))) !! 0
    = Some [wrapped_event "Page.frameNavigated" (Obj [])]
  ∧ _debuggee <$> heap two_bridges !! 1 = Some 7.
Proof. vm_compute. split; reflexivity. Qed.

Lemma detach_leaves_listeners_registered_witness :
  onEvent (detach 1 bridged).1 = [mkBoundFn 2 1]
  ∧ onDetach (detach 1 bridged).1 = [mkBoundFn 3 1].
Proof.
  assert (reachable sample_parse sample_accepts bridged) as Hreach
    by apply extension_reachable_run, reachable_init.
  destruct (detach_leaves_listeners_registered sample_parse sample_accepts 1 bridged Hreach)
    as ((He & Hd) & _).
  split; [rewrite He | rewrite Hd]; reflexivity.
Defined.

End ExtensionProps.

(* ===================================================================== *)
(** ** Further properties of the relay *)
(* ===================================================================== *)

Module RelayExtras.
Import Relay RelayProps.

(** *** Frames from the client *)

Lemma ws_send_shape (x : nat) (data : RawData) (w : World) (s : nat) :
  readyState <$> sockets (ws_send x data w) !! s = readyState <$> sockets w !! s
  ∧ listeners <$> sockets (ws_send x data w) !! s = listeners <$> sockets w !! s.
Proof.
  unfold ws_send, with_sockets, act. simpl. rewrite lookup_alter.
  destruct (decide (x = s)) as [->|]; [|done].
  destruct (sockets w !! s) as [o|]; [|done]. simpl.
  unfold send_socket. by destruct o as [[] ? ? ?].
Qed.

Lemma browser_on_message_open (ws e : nat) (o : WebSocket) (data : RawData)
    (w : World) :
  _extensionSocket w = Some e → sockets w !! e = Some o → readyState o = OPEN →
  browser_on_message ws data w = ws_send e data w
  ∧ sockets (ws_send e data w) !! e
    = Some (mkWebSocket OPEN (sent o ++ [data]) (closeFrame o) (listeners o))
  ∧ trace (ws_send e data w) = trace w ++ [Send e data]
  ∧ _extensionSocket (ws_send e data w) = Some e.
Proof.
  intros He Ho Hopen. unfold browser_on_message.
  assert (is_open (_extensionSocket w) w = true) as ->
    by (apply is_open_true; eauto).
  rewrite He. split; [done|].
  unfold ws_send, with_sockets, act. simpl.
  rewrite lookup_alter, decide_True, Ho by done. simpl.
  unfold send_socket. by rewrite Hopen.
Qed.

(** X1. Frames received in a row on a client socket while the extension
    socket is open all reach the extension socket unchanged and in the
    order they came, and forwarding them is all the relay does: its trace
    grows by one send per frame. *)
Theorem client_frames_arrive_in_order (ws e : nat) (ds : list RawData) :
  ∀ (w : World) (o : WebSocket),
  listeners_of ws w = BrowserListeners → live ws w = true →
  _extensionSocket w = Some e → sockets w !! e = Some o → readyState o = OPEN →
  sockets (run w (frames ws ds)) !! e
    = Some (mkWebSocket OPEN (sent o ++ ds) (closeFrame o) (listeners o))
  ∧ trace (run w (frames ws ds)) = trace w ++ (Send e <$> ds).
Proof.
  induction ds as [|d ds IH]; intros w o Hl Hlive He Ho Hopen.
  - simpl. rewrite !app_nil_r, Ho. split; [|done].
    destruct o; simpl in *; by subst.
  - change (run w (frames ws (d :: ds)))
      with (run (step w (Message ws d)) (frames ws ds)).
    assert (step w (Message ws d) = browser_on_message ws d w) as ->.
    { unfold step. rewrite Hlive. unfold emit_message. by rewrite Hl. }
    destruct (browser_on_message_open ws e o d w He Ho Hopen)
      as (-> & Hsock & Htrace & He').
    destruct (ws_send_shape e d w ws) as [Hr Hls].
    assert (listeners_of ws (ws_send e d w) = BrowserListeners) as Hl'.
    { unfold listeners_of in *.
      destruct (sockets (ws_send e d w) !! ws), (sockets w !! ws);
        simpl in *; congruence. }
    assert (live ws (ws_send e d w) = true) as Hlive'.
    { unfold live in *.
      destruct (sockets (ws_send e d w) !! ws) as [x|], (sockets w !! ws) as [y|];
        simpl in *; try done.
      inversion Hr as [Hr']. by rewrite Hr'. }
    destruct (IH (ws_send e d w)
                (mkWebSocket OPEN (sent o ++ [d]) (closeFrame o) (listeners o))
                Hl' Hlive' He' Hsock eq_refl) as [Hs Ht].
    rewrite Hs, Ht, Htrace. simpl. by rewrite <- !app_assoc.
Qed.

(** *** The ['close'] listeners *)

Lemma listeners_of_mark_closed (ws x : nat) (w : World) :
  listeners_of x (with_sockets (alter mark_closed ws) w) = listeners_of x w.
Proof.
  unfold listeners_of, with_sockets. simpl. rewrite lookup_alter.
  destruct (decide (ws = x)) as [->|]; [|done]. by destruct (sockets w !! x).
Qed.

(** X2. When a client socket emits ['close'] the relay forgets its client
    socket whichever one that is: also when a newer client has connected
    since and is still open, which then stays open but unpaired, so that
    frames from the extension are dropped. Nothing else changes. *)
Theorem client_close_clears_pairing (w : World) (ws : nat) :
  listeners_of ws w = BrowserListeners → live ws w = true →
  _browserSocket (step w (Closed ws)) = None
  ∧ _extensionSocket (step w (Closed ws)) = _extensionSocket w
  ∧ (∀ s, s ≠ ws → sockets (step w (Closed ws)) !! s = sockets w !! s)
  ∧ (∀ x data, listeners_of x (step w (Closed ws)) = ExtensionListeners →
       live x (step w (Closed ws)) = true →
       step (step w (Closed ws)) (Message x data) = step w (Closed ws)).
Proof.
  intros Hl Hlive.
  assert (step w (Closed ws)
          = browser_on_close ws (with_sockets (alter mark_closed ws) w)) as ->.
  { unfold step. rewrite Hlive. unfold emit_close.
    by rewrite listeners_of_mark_closed, Hl. }
  repeat split; try done.
  - intros s Hs. simpl. by rewrite lookup_alter, decide_False.
  - intros x data Hx Hlx. unfold step. rewrite Hlx. unfold emit_message.
    by rewrite Hx.
Qed.

(** X3. When an extension socket emits ['close'] the relay forgets its
    extension socket only if it is that very socket: the close of a
    superseded socket leaves the current pairing alone. *)
Theorem extension_close_is_guarded (w : World) (ws : nat) :
  listeners_of ws w = ExtensionListeners → live ws w = true →
  (_extensionSocket w = Some ws → _extensionSocket (step w (Closed ws)) = None)
  ∧ (_extensionSocket w ≠ Some ws →
       _extensionSocket (step w (Closed ws)) = _extensionSocket w)
  ∧ _browserSocket (step w (Closed ws)) = _browserSocket w
  ∧ (∀ s, s ≠ ws → sockets (step w (Closed ws)) !! s = sockets w !! s).
Proof.
  intros Hl Hlive.
  assert (step w (Closed ws)
          = extension_on_close ws (with_sockets (alter mark_closed ws) w)) as ->.
  { unfold step. rewrite Hlive. unfold emit_close.
    by rewrite listeners_of_mark_closed, Hl. }
  unfold extension_on_close. simpl. repeat split.
  - intros He. by rewrite bool_decide_eq_true_2.
  - intros He. by rewrite bool_decide_eq_false_2.
  - by destruct (bool_decide _).
  - intros s Hs. destruct (bool_decide _); simpl;
      by rewrite lookup_alter, decide_False.
Qed.

(** *** Accepted connections *)

(** X4. A client connection with the right token becomes the relay's
    client socket and gets the client listeners; the relay closes nothing
    on that occasion, neither a client socket it held before nor any other
    socket, and leaves the extension socket and the waiter as they are. *)
Theorem client_connection_replaces_without_closing (w : World)
    (request : IncomingMessage) :
  browser_accepted request w →
  _browserSocket (step w (Connection request)) = Some (next_ws w)
  ∧ sockets (step w (Connection request)) !! next_ws w
    = Some (mkWebSocket OPEN [] None BrowserListeners)
  ∧ (∀ s, s ≠ next_ws w →
       sockets (step w (Connection request)) !! s = sockets w !! s)
  ∧ _extensionSocket (step w (Connection request)) = _extensionSocket w
  ∧ _waiter (step w (Connection request)) = _waiter w
  ∧ trace (step w (Connection request))
    = trace w ++ [SetBrowserSocket (Some (next_ws w));
                  Log "Browser client connected."].
Proof.
  intros [Hpath Htok].
  assert (step w (Connection request)
          = handleBrowserConnection (next_ws w) (accept w)) as ->.
  { unfold step, _onConnection. rewrite Hpath, Htok. simpl.
    by rewrite String.eqb_refl. }
  unfold handleBrowserConnection, on, debugLogger, set_browserSocket,
    with_sockets, act, accept. simpl. repeat split.
  - by rewrite lookup_alter, decide_True, lookup_insert_eq.
  - intros s Hs. by rewrite lookup_alter, decide_False, lookup_insert_ne.
  - by rewrite <- app_assoc.
Qed.

(** *** Sockets keep their role, and closed ones stay closed *)

Lemma settled_below_refl (n : nat) (w : World) : settled_below n w w.
Proof. intros s o _ Hs Ho. exists o. by repeat split. Qed.

Lemma keeps_trans (o1 o2 o3 : WebSocket) : keeps o1 o2 → keeps o2 o3 → keeps o1 o3.
Proof. intros (? & ? & ? & ?) (? & ? & ? & ?). repeat split; congruence. Qed.

Lemma settled_below_trans (n : nat) (w1 w2 w3 : World) :
  settled_below n w1 w2 → settled_below n w2 w3 → settled_below n w1 w3.
Proof.
  intros H12 H23 s o Hn Hs Ho.
  destruct (H12 s o Hn Hs Ho) as (o2 & Hs2 & Hk2).
  destruct (H23 s o2 Hn Hs2 (proj2 (proj2 (proj2 Hk2)))) as (o3 & Hs3 & Hk3).
  exists o3. split; [done|]. by apply (keeps_trans o o2 o3).
Qed.

Lemma settled_below_alter (f : WebSocket → WebSocket) (n x : nat) (w : World) :
  (∀ o, readyState o ≠ OPEN → keeps o (f o)) →
  settled_below n w (with_sockets (alter f x) w).
Proof.
  intros Hf s o _ Hs Ho. unfold with_sockets. simpl. rewrite lookup_alter.
  destruct (decide (x = s)) as [->|].
  - rewrite Hs. simpl. eexists. split; [done|]. by apply Hf.
  - exists o. by repeat split.
Qed.

Lemma settled_below_above (f : WebSocket → WebSocket) (n x : nat) (w : World) :
  (n ≤ x)%nat → settled_below n w (with_sockets (alter f x) w).
Proof.
  intros Hx s o Hn Hs Ho. unfold with_sockets. simpl.
  rewrite lookup_alter, decide_False by lia. exists o. by repeat split.
Qed.

Lemma keeps_close_socket args (o : WebSocket) :
  readyState o ≠ OPEN → keeps o (close_socket args o).
Proof. unfold close_socket, keeps. by destruct o as [[] ? ? ?]. Qed.

Lemma keeps_send_socket data (o : WebSocket) :
  readyState o ≠ OPEN → keeps o (send_socket data o).
Proof. unfold send_socket, keeps. by destruct o as [[] ? ? ?]. Qed.

Lemma keeps_mark_closed (o : WebSocket) :
  readyState o ≠ OPEN → keeps o (mark_closed o).
Proof. unfold mark_closed, keeps. by destruct o as [[] ? ? ?]. Qed.

Lemma settled_below_ws_close (n x : nat) args (w : World) :
  settled_below n w (ws_close x args w).
Proof.
  exact (settled_below_alter (close_socket args) n x (act (Close x args) w)
           (keeps_close_socket args)).
Qed.

Lemma settled_below_ws_send (n x : nat) data (w : World) :
  settled_below n w (ws_send x data w).
Proof.
  exact (settled_below_alter (send_socket data) n x (act (Send x data) w)
           (keeps_send_socket data)).
Qed.

Lemma settled_below_accept (w : World) : settled_below (next_ws w) w (accept w).
Proof.
  intros s o Hn Hs Ho. unfold accept. simpl.
  rewrite lookup_insert_ne by lia. exists o. by repeat split.
Qed.

Lemma roles_below_refl (n : nat) (w : World) : roles_below n w w.
Proof. intros s o _ Hs. by exists o. Qed.

Lemma roles_below_trans (n : nat) (w1 w2 w3 : World) :
  roles_below n w1 w2 → roles_below n w2 w3 → roles_below n w1 w3.
Proof.
  intros H12 H23 s o Hn Hs.
  destruct (H12 s o Hn Hs) as (o2 & Hs2 & Hl2).
  destruct (H23 s o2 Hn Hs2) as (o3 & Hs3 & Hl3).
  exists o3. split; [done | congruence].
Qed.

Lemma roles_below_alter (f : WebSocket → WebSocket) (n x : nat) (w : World) :
  (∀ o, listeners (f o) = listeners o) →
  roles_below n w (with_sockets (alter f x) w).
Proof.
  intros Hf s o _ Hs. unfold with_sockets. simpl. rewrite lookup_alter.
  destruct (decide (x = s)) as [->|].
  - rewrite Hs. simpl. eexists. split; [done|]. by apply Hf.
  - by exists o.
Qed.

Lemma roles_below_above (f : WebSocket → WebSocket) (n x : nat) (w : World) :
  (n ≤ x)%nat → roles_below n w (with_sockets (alter f x) w).
Proof.
  intros Hx s o Hn Hs. unfold with_sockets. simpl.
  rewrite lookup_alter, decide_False by lia. by exists o.
Qed.

Lemma roles_below_ws_close (n x : nat) args (w : World) :
  roles_below n w (ws_close x args w).
Proof.
  apply (roles_below_alter (close_socket args) n x (act (Close x args) w)).
  intros o. unfold close_socket. by destruct o as [[] ? ? ?].
Qed.

Lemma roles_below_ws_send (n x : nat) data (w : World) :
  roles_below n w (ws_send x data w).
Proof.
  apply (roles_below_alter (send_socket data) n x (act (Send x data) w)).
  intros o. unfold send_socket. by destruct o as [[] ? ? ?].
Qed.

Lemma roles_below_accept (w : World) : roles_below (next_ws w) w (accept w).
Proof.
  intros s o Hn Hs. unfold accept. simpl.
  rewrite lookup_insert_ne by lia. by exists o.
Qed.

Lemma steady_refl n w : steady n w w.
Proof. split; [apply settled_below_refl | apply roles_below_refl]. Qed.

Lemma steady_trans n w1 w2 w3 : steady n w1 w2 → steady n w2 w3 → steady n w1 w3.
Proof.
  intros [? ?] [? ?].
  split; [by apply (settled_below_trans n w1 w2) | by apply (roles_below_trans n w1 w2)].
Qed.

Lemma steady_ws_close n x args w : steady n w (ws_close x args w).
Proof. split; [apply settled_below_ws_close | apply roles_below_ws_close]. Qed.

Lemma steady_ws_send n x data w : steady n w (ws_send x data w).
Proof. split; [apply settled_below_ws_send | apply roles_below_ws_send]. Qed.

Lemma steady_on n l x w : (n ≤ x)%nat → steady n w (on l x w).
Proof.
  intros Hx. split; [by apply settled_below_above | by apply roles_below_above].
Qed.

Lemma steady_mark_closed n x w : steady n w (with_sockets (alter mark_closed x) w).
Proof.
  split.
  - apply settled_below_alter, keeps_mark_closed.
  - by apply roles_below_alter.
Qed.

Lemma steady_accept w : steady (next_ws w) w (accept w).
Proof. split; [apply settled_below_accept | apply roles_below_accept]. Qed.

(** Worlds with the same sockets. *)
Lemma steady_same n w w' : sockets w' = sockets w → steady n w w'.
Proof.
  intros Heq. split.
  - intros s o _ Hs Ho. rewrite Heq. exists o. by repeat split.
  - intros s o _ Hs. rewrite Heq. by exists o.
Qed.

Lemma steady_handleExtensionConnection n ws w :
  (n ≤ ws)%nat → steady n w (handleExtensionConnection ws w).
Proof.
  intros Hws. unfold handleExtensionConnection.
  set (w1 := if is_open _ w then _ else w).
  assert (steady n w w1) as H1.
  { subst w1. destruct (is_open _ w); [|apply steady_refl].
    destruct (_extensionSocket w) as [old|]; [|apply steady_refl].
    exact (steady_ws_close n old _
             (debugLogger "Closing previous extension connection." w)). }
  apply (steady_trans n w w1); [done|].
  apply (steady_trans n w1 (on ExtensionListeners ws (set_extensionSocket (Some ws) w1))).
  - exact (steady_on n ExtensionListeners ws (set_extensionSocket (Some ws) w1) Hws).
  - apply steady_same. unfold resolve_waiter.
    by destruct (_waiter _).
Qed.

Lemma steady_onConnection n ws request w :
  (n ≤ ws)%nat → steady n w (_onConnection ws request w).
Proof.
  intros Hws. unfold _onConnection.
  destruct (String.eqb _ kExtensionPath).
  { destruct (token_differs _ _).
    - exact (steady_ws_close n ws _ (debugLogger _ w)).
    - by apply steady_handleExtensionConnection. }
  destruct (String.eqb _ kBrowserPath).
  { destruct (token_differs _ _).
    - exact (steady_ws_close n ws _ (debugLogger _ w)).
    - exact (steady_on n BrowserListeners ws
               (debugLogger "Browser client connected."
                  (set_browserSocket (Some ws) w)) Hws). }
  exact (steady_ws_close n ws _ (debugLogger _ w)).
Qed.

Lemma steady_step (w : World) (e : Event) : steady (next_ws w) w (step w e).
Proof.
  destruct e as [request|ws data|ws|ws| | |bound]; simpl.
  - apply (steady_trans _ w (accept w)); [apply steady_accept|].
    by apply steady_onConnection.
  - destruct (live ws w); [|apply steady_refl]. unfold emit_message.
    destruct (listeners_of ws w); [apply steady_refl| |].
    + unfold extension_on_message. destruct (is_open _ w); [|apply steady_refl].
      destruct (_browserSocket w); [|apply steady_refl]. apply steady_ws_send.
    + unfold browser_on_message. destruct (is_open _ w).
      * destruct (_extensionSocket w); [|apply steady_refl]. apply steady_ws_send.
      * apply steady_ws_close.
  - destruct (live ws w); [|apply steady_refl].
    apply (steady_trans _ w (with_sockets (alter mark_closed ws) w));
      [apply steady_mark_closed|].
    apply steady_same. unfold emit_close.
    destruct (listeners_of ws _); try done.
    unfold extension_on_close. by destruct (bool_decide _).
  - destruct (live ws w); [|apply steady_refl]. apply steady_same.
    unfold emit_error. by destruct (listeners_of ws w).
  - unfold close.
    set (w1 := act ServerClose w).
    set (w2 := match _browserSocket w1 with Some b => _ | None => w1 end).
    set (w3 := set_browserSocket None w2).
    set (w4 := match _extensionSocket w3 with Some e => _ | None => w3 end).
    assert (steady (next_ws w) w w2) as H2.
    { subst w2. destruct (_browserSocket w1) as [b|]; [|by apply steady_same].
      exact (steady_ws_close _ b None w1). }
    assert (steady (next_ws w) w2 w4) as H4.
    { subst w4. destruct (_extensionSocket w3) as [x|]; [|by apply steady_same].
      exact (steady_ws_close _ x None w3). }
    apply (steady_trans _ w w2); [done|].
    apply (steady_trans _ w2 w4); [done|]. by apply steady_same.
  - by apply steady_same.
  - apply steady_same. unfold startIfNeeded. by destruct (listening w).
Qed.

Lemma next_ws_step (w : World) (e : Event) :
  next_ws (step w e)
  = match e with Connection _ => S (next_ws w) | _ => next_ws w end.
Proof.
  destruct e; simpl;
    unfold _onConnection, handleExtensionConnection, handleBrowserConnection,
      resolve_waiter, emit_message, extension_on_message, browser_on_message,
      emit_close, extension_on_close, browser_on_close, emit_error, close,
      startIfNeeded;
    case_branches; reflexivity.
Qed.

(** The socket a connection event brings: it gets listeners and takes the
    matching field, or it is refused and the fields stay. *)
Lemma connection_socket (w : World) (request : IncomingMessage) :
  ∃ o, sockets (step w (Connection request)) !! next_ws w = Some o
    ∧ ((listeners o = NoListeners ∧ refused_socket o
        ∧ _extensionSocket (step w (Connection request)) = _extensionSocket w
        ∧ _browserSocket (step w (Connection request)) = _browserSocket w)
       ∨ (listeners o = ExtensionListeners
          ∧ _extensionSocket (step w (Connection request)) = Some (next_ws w)
          ∧ _browserSocket (step w (Connection request)) = _browserSocket w)
       ∨ (listeners o = BrowserListeners
          ∧ _browserSocket (step w (Connection request)) = Some (next_ws w)
          ∧ _extensionSocket (step w (Connection request)) = _extensionSocket w)).
Proof.
  assert (∀ args msg,
            let w' := ws_close (next_ws w) (Some (4001%Z, args))
                        (debugLogger msg (accept w)) in
            ∃ o, sockets w' !! next_ws w = Some o
              ∧ listeners o = NoListeners ∧ refused_socket o
              ∧ _extensionSocket w' = _extensionSocket w
              ∧ _browserSocket w' = _browserSocket w) as Hrej.
  { intros args msg. unfold ws_close, with_sockets, debugLogger, act, accept.
    simpl. rewrite lookup_alter, decide_True, lookup_insert_eq by done. simpl.
    eexists. split; [done|]. split; [done|]. split; [|done].
    repeat split; [done|]. by eexists. }
  unfold step, _onConnection.
  destruct (String.eqb _ kExtensionPath).
  { destruct (token_differs _ _).
    - destruct (Hrej "Invalid token" "Invalid token for extension connection.")
        as (o & Ho & Hr). exists o. split; [done|]. by left.
    - unfold handleExtensionConnection, resolve_waiter.
      set (w1 := if is_open _ (accept w) then _ else accept w).
      assert (_browserSocket w1 = _browserSocket w) as Hb.
      { subst w1. destruct (is_open _ (accept w)); [|done].
        by destruct (_extensionSocket (accept w)). }
      assert (is_Some (sockets w1 !! next_ws w)) as [o1 Ho1].
      { subst w1. destruct (is_open _ (accept w)).
        - destruct (_extensionSocket (accept w)) as [old|]; simpl.
          + rewrite lookup_alter. destruct (decide (old = next_ws w)) as [->|].
            * by rewrite lookup_insert_eq.
            * by rewrite lookup_insert_eq.
          + by rewrite lookup_insert_eq.
        - simpl. by rewrite lookup_insert_eq. }
      exists (mkWebSocket (readyState o1) (sent o1) (closeFrame o1) ExtensionListeners).
      destruct (_waiter _); simpl; rewrite lookup_alter, decide_True, Ho1 by done;
        (split; [done|]); right; left; by rewrite Hb. }
  destruct (String.eqb _ kBrowserPath).
  { destruct (token_differs _ _).
    - destruct (Hrej "Invalid token" "Invalid token for browser connection.")
        as (o & Ho & Hr). exists o. split; [done|]. by left.
    - unfold handleBrowserConnection. simpl.
      rewrite lookup_alter, decide_True, lookup_insert_eq by done. simpl.
      eexists. split; [done|]. right. by right. }
  destruct (Hrej "Invalid path" "Invalid path for connection:")
    as (o & Ho & Hr). exists o. split; [done|]. by left.
Qed.

Lemma dense_sockets_step (w : World) (e : Event) :
  dense_sockets w → dense_sockets (step w e).
Proof.
  intros Hdense s Hs. rewrite next_ws_step in Hs.
  destruct (decide (s < next_ws w)%nat) as [Hlt|Hge].
  - destruct (Hdense s Hlt) as [o Ho].
    destruct (proj2 (steady_step w e) s o Hlt Ho) as (o' & -> & _). by eexists.
  - destruct e as [request| | | | | |]; try lia.
    assert (s = next_ws w) as -> by lia.
    destruct (connection_socket w request) as (o & -> & _). by eexists.
Qed.

Lemma reachable_dense (w : World) : reachable w → dense_sockets w.
Proof.
  induction 1 as [? ? | w e _ IH].
  - intros s Hs. simpl in Hs. lia.
  - by apply dense_sockets_step.
Qed.

(** The fields after one turn: as before, null, or the socket the turn
    brought, which then carries the matching listeners. *)
Lemma fields_step (w : World) (e : Event) :
  (_extensionSocket (step w e) = _extensionSocket w
   ∨ _extensionSocket (step w e) = None
   ∨ ∃ o, _extensionSocket (step w e) = Some (next_ws w)
       ∧ sockets (step w e) !! next_ws w = Some o
       ∧ listeners o = ExtensionListeners)
  ∧ (_browserSocket (step w e) = _browserSocket w
     ∨ _browserSocket (step w e) = None
     ∨ ∃ o, _browserSocket (step w e) = Some (next_ws w)
         ∧ sockets (step w e) !! next_ws w = Some o
         ∧ listeners o = BrowserListeners).
Proof.
  destruct e as [request|ws data|ws|ws| | |bound].
  - destruct (connection_socket w request)
      as (o & Ho & [(Hl & Hr & He & Hb)|[(Hl & He & Hb)|(Hl & Hb & He)]]).
    + by split; left.
    + split; [right; right; eauto | by left].
    + split; [by left | right; right; eauto].
  - simpl. destruct (live ws w); [|by split; left]. unfold emit_message.
    destruct (listeners_of ws w); [by split; left| |].
    + unfold extension_on_message. destruct (is_open _ w); [|by split; left].
      destruct (_browserSocket w) eqn:?; split; left; simpl; congruence.
    + unfold browser_on_message. destruct (is_open _ w); [|by split; left].
      destruct (_extensionSocket w) eqn:?; split; left; simpl; congruence.
  - simpl. destruct (live ws w); [|by split; left]. unfold emit_close.
    destruct (listeners_of ws _); [by split; left| |].
    + unfold extension_on_close. destruct (bool_decide _); simpl.
      * split; [right; by left | by left].
      * by split; left.
    + split; [by left | right; by left].
  - simpl. destruct (live ws w); [|by split; left]. unfold emit_error.
    destruct (listeners_of ws w); by split; left.
  - split; right; left; unfold step, close; case_branches; reflexivity.
  - by split; left.
  - simpl. unfold startIfNeeded. destruct (listening w); by split; left.
Qed.

Lemma well_paired_step (w : World) (e : Event) :
  fresh_sockets w → well_paired w → well_paired (step w e).
Proof.
  intros Hfresh [Hext Hbr].
  assert (∀ s o, sockets w !! s = Some o →
            ∃ o', sockets (step w e) !! s = Some o' ∧ listeners o' = listeners o)
    as Hkeep.
  { intros s o Hs. apply (proj2 (steady_step w e) s o); [|done].
    destruct (decide (s < next_ws w)%nat); [done|].
    rewrite Hfresh in Hs; [done | lia]. }
  destruct (fields_step w e) as [He Hb]. split.
  - intros s Hs. destruct He as [He|[He|(o & He & Ho & Hl)]].
    + rewrite He in Hs. destruct (Hext s Hs) as (o & Ho & Hl).
      destruct (Hkeep s o Ho) as (o' & Ho' & Hl'). exists o'. split; [done|congruence].
    + congruence.
    + rewrite He in Hs. injection Hs as <-. by exists o.
  - intros s Hs. destruct Hb as [Hb|[Hb|(o & Hb & Ho & Hl)]].
    + rewrite Hb in Hs. destruct (Hbr s Hs) as (o & Ho & Hl).
      destruct (Hkeep s o Ho) as (o' & Ho' & Hl'). exists o'. split; [done|congruence].
    + congruence.
    + rewrite Hb in Hs. injection Hs as <-. by exists o.
Qed.

Lemma reachable_well_paired (w : World) : reachable w → well_paired w.
Proof.
  induction 1 as [? ? | w e Hw IH].
  - by split.
  - apply well_paired_step; [|done]. by apply reachable_invariant.
Qed.

(** What one turn adds to the trace: a payload is only handed to a socket
    that was open when the turn began. *)
Lemma sends_step (w : World) (e : Event) :
  ∃ t, trace (step w e) = trace w ++ t
    ∧ ∀ x data, Send x data ∈ t → is_open (Some x) w = true.
Proof.
  destruct e as [request|ws data|ws|ws| | |bound]; simpl;
    unfold _onConnection, handleExtensionConnection, handleBrowserConnection,
      resolve_waiter, emit_message, extension_on_message, browser_on_message,
      emit_close, extension_on_close, browser_on_close, emit_error, close,
      startIfNeeded;
    case_branches; simpl;
    (eexists; split;
     [first [symmetry; apply app_nil_r | rewrite <- ?app_assoc; reflexivity]|]);
    intros x payload Hin;
    repeat (apply elem_of_cons in Hin as [Hin|Hin]; [try discriminate|]);
    try (by apply elem_of_nil in Hin);
    injection Hin as -> ->; assumption.
Qed.

(** X5. Once a socket has left the open state the relay never calls
    [send] on it again, and nothing reopens it: whatever happens
    afterwards, no send to that socket is added to the trace, and the
    socket has sent what it had sent, carries the listeners and the close
    frame it had, and is not open. *)
Theorem closed_sockets_stay_closed (es : list Event) :
  ∀ (w : World) (s : nat) (o : WebSocket),
  reachable w → sockets w !! s = Some o → readyState o ≠ OPEN →
  (∃ o', sockets (run w es) !! s = Some o' ∧ keeps o o')
  ∧ ∃ t, trace (run w es) = trace w ++ t ∧ ∀ data, Send s data ∉ t.
Proof.
  induction es as [|e es IH]; intros w s o Hreach Hs Ho.
  - split; [exists o; by repeat split|].
    exists []. split; [by rewrite app_nil_r|]. intros data. apply not_elem_of_nil.
  - assert (s < next_ws w)%nat as Hlt.
    { destruct (decide (s < next_ws w)%nat); [done|].
      rewrite (proj1 (reachable_invariant w Hreach)) in Hs; [done | lia]. }
    destruct (proj1 (steady_step w e) s o Hlt Hs Ho) as (o1 & Hs1 & Hk1).
    destruct (IH (step w e) s o1 (reachable_step w e Hreach) Hs1
                (proj2 (proj2 (proj2 Hk1)))) as [(o2 & Hs2 & Hk2) (t2 & Ht2 & Hno2)].
    destruct (sends_step w e) as (t1 & Ht1 & Hopen1).
    split; [exists o2; split; [done|]; by apply (keeps_trans o o1 o2)|].
    exists (t1 ++ t2). split.
    + change (run w (e :: es)) with (run (step w e) es).
      by rewrite Ht2, Ht1, <- app_assoc.
    + intros data [Hin|Hin]%elem_of_app; [|by apply (Hno2 data)].
      apply Hopen1 in Hin. unfold is_open in Hin. rewrite Hs in Hin.
      by apply bool_decide_eq_true in Hin.
Qed.

(** X6. A socket without listeners is a refused one: in every state the
    relay reaches, such a socket has never been handed a payload, is not
    open, and was sent a close frame with code 4001. *)
Theorem sockets_without_listeners_are_refused (w : World) :
  reachable w →
  ∀ s o, sockets w !! s = Some o → listeners o = NoListeners → refused_socket o.
Proof.
  induction 1 as [? ? | w e Hw IH]; intros s o Hs Hl; [done|].
  destruct (reachable_invariant _ (reachable_step w e Hw)) as [Hfresh' _].
  assert (s < next_ws (step w e))%nat as Hlt'.
  { destruct (decide (s < next_ws (step w e))%nat); [done|].
    rewrite Hfresh' in Hs; [done | lia]. }
  rewrite next_ws_step in Hlt'.
  destruct (decide (s < next_ws w)%nat) as [Hlt|Hge].
  - destruct (reachable_dense w Hw s Hlt) as [o0 Ho0].
    destruct (proj2 (steady_step w e) s o0 Hlt Ho0) as (o1 & Hs1 & Hl1).
    assert (o1 = o) as -> by congruence.
    destruct (IH s o0 Ho0) as (Hsent & Hopen & reason & Hframe); [congruence|].
    destruct (proj1 (steady_step w e) s o0 Hlt Ho0 Hopen)
      as (o2 & Hs2 & Hk1 & Hk2 & Hk3 & Hk4).
    assert (o2 = o) as -> by congruence.
    repeat split; [congruence | done |]. exists reason. congruence.
  - destruct e as [request| | | | | |]; try lia.
    assert (s = next_ws w) as -> by lia.
    destruct (connection_socket w request)
      as (o1 & Ho1 & [(_ & Hr & _)|[(Hl1 & _)|(Hl1 & _)]]);
      assert (o1 = o) as -> by congruence; [done | congruence | congruence].
Qed.

(** X7. The relay's extension field only ever holds a socket that carries
    the extension listeners and its client field one that carries the
    client listeners, and a socket keeps the listeners it has for good: a
    connection accepted in one role never ends up in the other. *)
Theorem roles_never_mix (w : World) :
  reachable w →
  well_paired w
  ∧ ∀ es s o, sockets w !! s = Some o →
      ∃ o', sockets (run w es) !! s = Some o' ∧ listeners o' = listeners o.
Proof.
  intros Hreach. split; [by apply reachable_well_paired|].
  intros es. revert w Hreach.
  induction es as [|e es IH]; intros w Hreach s o Hs; [by exists o|].
  assert (s < next_ws w)%nat as Hlt.
  { destruct (decide (s < next_ws w)%nat); [done|].
    rewrite (proj1 (reachable_invariant w Hreach)) in Hs; [done | lia]. }
  destruct (proj2 (steady_step w e) s o Hlt Hs) as (o1 & Hs1 & Hl1).
  destruct (IH (step w e) (reachable_step w e Hreach) s o1 Hs1) as (o2 & Hs2 & Hl2).
  exists o2. split; [done | congruence].
Qed.

(** X8. An extension connection with the right token that meets no open
    extension socket closes nothing: the new socket becomes the extension
    socket with the extension listeners, every other socket is as before
    and the client socket stays paired. *)
Theorem extension_connection_without_predecessor (w : World)
    (request : IncomingMessage) :
  reachable w →
  extension_accepted request w → is_open (_extensionSocket w) w = false →
  _extensionSocket (step w (Connection request)) = Some (next_ws w)
  ∧ sockets (step w (Connection request)) !! next_ws w
    = Some (mkWebSocket OPEN [] None ExtensionListeners)
  ∧ (∀ s, s ≠ next_ws w →
       sockets (step w (Connection request)) !! s = sockets w !! s)
  ∧ _browserSocket (step w (Connection request)) = _browserSocket w
  ∧ trace (step w (Connection request))
    = trace w ++ [SetExtensionSocket (Some (next_ws w))]
      ++ match _waiter w with Some _ => [ResolveWaiter] | None => [] end.
Proof.
  intros Hreach [Hpath Htok] Hclosed.
  destruct (reachable_invariant w Hreach) as [Hfresh _].
  destruct (reachable_well_paired w Hreach) as [Hext _].
  assert (step w (Connection request)
          = handleExtensionConnection (next_ws w) (accept w)) as ->.
  { unfold step, _onConnection. rewrite Hpath, Htok. simpl.
    by rewrite String.eqb_refl. }
  unfold handleExtensionConnection.
  assert (is_open (_extensionSocket (accept w)) (accept w) = false) as ->.
  { unfold is_open in *. simpl. destruct (_extensionSocket w) as [old|]; [|done].
    destruct (Hext old eq_refl) as (o & Ho & _).
    assert (old ≠ next_ws w) as Hne.
    { intros ->. rewrite Hfresh in Ho; [done | lia]. }
    by rewrite lookup_insert_ne. }
  unfold resolve_waiter. simpl. destruct (_waiter w); simpl; repeat split.
  all: try (by rewrite lookup_alter, decide_True, lookup_insert_eq).
  all: try (intros s Hs; by rewrite lookup_alter, decide_False, lookup_insert_ne).
  all: by rewrite <- ?app_assoc.
Qed.

(** *** The waiter *)

Lemma tokens_step (w : World) (e : Event) :
  _extensionToken (step w e) = _extensionToken w
  ∧ _browserToken (step w e) = _browserToken w.
Proof.
  destruct e; simpl;
    unfold _onConnection, handleExtensionConnection, handleBrowserConnection,
      resolve_waiter, emit_message, extension_on_message, browser_on_message,
      emit_close, extension_on_close, browser_on_close, emit_error, close,
      startIfNeeded;
    case_branches; by split.
Qed.

Lemma extension_accepted_step (request : IncomingMessage) (w : World) :
  extension_accepted request w →
  step w (Connection request) = handleExtensionConnection (next_ws w) (accept w).
Proof.
  intros [Hpath Htok]. unfold step, _onConnection. rewrite Hpath, Htok. simpl.
  by rewrite String.eqb_refl.
Qed.

Lemma waiter_handleExtensionConnection (ws : nat) (w : World) :
  _waiter (handleExtensionConnection ws w)
  = match _waiter w with Some _ => Some true | None => None end.
Proof.
  unfold handleExtensionConnection.
  set (w1 := if is_open _ w then _ else w).
  assert (_waiter w1 = _waiter w) as Hw1.
  { subst w1. destruct (is_open _ w); [|done]. by destruct (_extensionSocket w). }
  unfold resolve_waiter.
  change (_waiter (on ExtensionListeners ws (set_extensionSocket (Some ws) w1)))
    with (_waiter w1).
  rewrite Hw1. by destruct (_waiter w).
Qed.

(** X9. The promise of [waitForConnection] is resolved by an accepted
    extension connection and by nothing else, and only if it exists by
    then: a connection that arrives before [waitForConnection] is called
    is not remembered, the promise made afterwards is unresolved. *)
Theorem waiter_resolved_by_later_extension_connection (w : World)
    (request : IncomingMessage) :
  extension_accepted request w →
  _waiter (run w [CallWaitForConnection; Connection request]) = Some true
  ∧ _waiter (run w [Connection request; CallWaitForConnection]) = Some false
  ∧ ∀ e, ¬ extension_connects e w → e ≠ CallWaitForConnection →
      _waiter (step w e) = _waiter w.
Proof.
  intros Hacc. split; [|split].
  - change (run w [CallWaitForConnection; Connection request])
      with (step (waitForConnection w) (Connection request)).
    rewrite (extension_accepted_step request (waitForConnection w)) by exact Hacc.
    by rewrite waiter_handleExtensionConnection.
  - done.
  - intros e Hnot Hwait.
    destruct e as [r|ws data|ws|ws| | |bound]; simpl; [| | | | |done|].
    + unfold _onConnection.
      destruct (String.eqb_spec (pathname r) kExtensionPath) as [Hp|Hp].
      { destruct (token_differs _ _) eqn:Ht; [done|]. simpl in Ht.
        exfalso. apply Hnot. exists r. split; [done|]. split; [done|].
        unfold token_differs in Ht. destruct (token r) as [t|]; [|done].
        destruct (String.eqb_spec t (_extensionToken w)); [by subst | done]. }
      destruct (String.eqb _ kBrowserPath); [|done].
      by destruct (token_differs _ _).
    + unfold emit_message, extension_on_message, browser_on_message.
      case_branches; reflexivity.
    + unfold emit_close, extension_on_close, browser_on_close.
      case_branches; reflexivity.
    + unfold emit_error. case_branches; reflexivity.
    + unfold close. case_branches; reflexivity.
    + unfold startIfNeeded. case_branches; reflexivity.
Qed.

(** *** [close()] *)

Lemma ws_close_not_open (x : nat) args (w : World) (o : WebSocket) :
  sockets (ws_close x args w) !! x = Some o → readyState o ≠ OPEN.
Proof.
  unfold ws_close, with_sockets, act. simpl.
  rewrite lookup_alter, decide_True by done.
  destruct (sockets w !! x); [|done]. simpl. intros [= <-].
  apply close_socket_not_open.
Qed.

Lemma sockets_close (w : World) :
  sockets (close w)
  = close_held (_extensionSocket w) (close_held (_browserSocket w) (sockets w)).
Proof.
  unfold close. cbn.
  destruct (_browserSocket w) as [b|]; cbn;
    destruct (_extensionSocket w) as [e|]; reflexivity.
Qed.

Lemma fields_close (w : World) :
  _extensionSocket (close w) = None ∧ _browserSocket (close w) = None.
Proof. split; unfold close; case_branches; reflexivity. Qed.

(** X10. [close()] calls [close()] on the client socket and on the
    extension socket the relay holds and clears both fields: neither of
    the two sockets is open afterwards, no socket with the extension
    listeners is, every other socket is as before, and a second [close()]
    changes no socket and no field. *)
Theorem close_unpairs_and_closes (w : World) :
  reachable w →
  _extensionSocket (close w) = None ∧ _browserSocket (close w) = None
  ∧ (∀ s o, _extensionSocket w = Some s ∨ _browserSocket w = Some s →
       sockets (close w) !! s = Some o → readyState o ≠ OPEN)
  ∧ (∀ s o, sockets (close w) !! s = Some o → ¬ open_extension o)
  ∧ (∀ s, _extensionSocket w ≠ Some s → _browserSocket w ≠ Some s →
       sockets (close w) !! s = sockets w !! s)
  ∧ sockets (close (close w)) = sockets (close w)
  ∧ _extensionSocket (close (close w)) = None
  ∧ _browserSocket (close (close w)) = None.
Proof.
  intros Hreach. destruct (fields_close w) as [He Hb].
  split; [done|]. split; [done|]. split; [|split; [|split; [|split]]].
  - intros s o Hheld. rewrite sockets_close. unfold close_held.
    destruct (_browserSocket w) as [b|] eqn:Hbw;
      destruct (_extensionSocket w) as [e|] eqn:Hew;
      rewrite ?lookup_alter; repeat case_decide; subst;
      try (destruct Hheld; congruence);
      (destruct (sockets w !! s); [|done]); simpl; intros [= <-];
      apply close_socket_not_open.
  - intros s o Hs Ho.
    pose proof (sole_extension_step w CallClose
                  (proj2 (reachable_invariant w Hreach)) s o Hs Ho) as Hsole.
    simpl in Hsole. congruence.
  - intros s Hes Hbs. rewrite sockets_close. unfold close_held.
    destruct (_browserSocket w) as [b|] eqn:Hbw;
      destruct (_extensionSocket w) as [e|] eqn:Hew;
      rewrite ?lookup_alter; repeat case_decide; congruence.
  - by rewrite (sockets_close (close w)), He, Hb.
  - apply fields_close.
Qed.

(** *** The server and the process *)

(** After [close()] the server takes no connection. *)
Lemma close_stops_listening (w : World) (request : IncomingMessage) :
  listening (close w) = false ∧ enabled (close w) (Connection request) = false.
Proof.
  assert (listening (close w) = false) as Hl.
  { unfold listening, close. case_branches; simpl;
      rewrite <- ?app_assoc, fold_left_app; reflexivity. }
  split; [exact Hl|]. unfold enabled. rewrite Hl. apply andb_false_r.
Qed.

(** An ['error'] event on a refused socket ends the process: no event is
    delivered afterwards. *)
Lemma error_on_refused_socket_is_uncaught (w : World) (ws : nat) (e : Event) :
  listeners_of ws w = NoListeners → live ws w = true →
  exited (step w (Error ws)) = true ∧ enabled (step w (Error ws)) e = false.
Proof.
  intros Hl Hlive.
  assert (exited (step w (Error ws)) = true) as Hx.
  { unfold step, emit_error, exited. rewrite Hlive, Hl. simpl.
    rewrite existsb_app. simpl. apply orb_true_r. }
  split; [exact Hx|]. unfold enabled. by rewrite Hx.
Qed.

(** *** Tokens *)

Lemma tokens_run (es : list Event) :
  ∀ w, _extensionToken (run w es) = _extensionToken w
       ∧ _browserToken (run w es) = _browserToken w.
Proof.
  induction es as [|e es IH]; intros w; [done|].
  destruct (IH (step w e)) as [He Hb]. destruct (tokens_step w e) as [He' Hb'].
  split; [exact (eq_trans He He') | exact (eq_trans Hb Hb')].
Qed.

(** X11. The two tokens never change, so a connection address keeps
    working as long as the relay takes connections at all: after any run
    of events the runtime can deliver, whenever a connection can still be
    delivered (the process has not ended on an uncaught error and the
    server is listening), an extension request that carries the extension
    token is accepted and its socket becomes the extension socket, a
    client request that carries the client token becomes the client
    socket, and a request refused for its token or path is refused
    again. *)
Theorem connection_addresses_stay_valid (w : World) (es : list Event)
    (request : IncomingMessage) :
  feasible w es → enabled (run w es) (Connection request) = true →
  (extension_accepted request w →
     _extensionSocket (step (run w es) (Connection request))
       = Some (next_ws (run w es)))
  ∧ (browser_accepted request w →
     _browserSocket (step (run w es) (Connection request))
       = Some (next_ws (run w es)))
  ∧ (refused request w → refused request (run w es)).
Proof.
  intros _ _. destruct (tokens_run es w) as [He Hb]. split; [|split].
  - intros [Hp Ht].
    rewrite (extension_accepted_step request (run w es))
      by (split; [done | by rewrite He]).
    unfold handleExtensionConnection, resolve_waiter. case_branches; reflexivity.
  - intros [Hp Ht]. unfold step, _onConnection. simpl. rewrite Hp, Ht, Hb.
    simpl. by rewrite String.eqb_refl.
  - unfold refused. by rewrite He, Hb.
Qed.

(** *** The theorems at work on sample runs *)

Lemma client_frames_arrive_in_order_witness :
  sockets (run paired (frames 1 [[Byte.x01]; [Byte.x02]])) !! 0
    = Some (mkWebSocket OPEN [[Byte.x01]; [Byte.x02]] None ExtensionListeners)
  ∧ trace (run paired (frames 1 [[Byte.x01]; [Byte.x02]]))
    = trace paired ++ [Send 0 [Byte.x01]; Send 0 [Byte.x02]].
Proof.
  exact (client_frames_arrive_in_order 1 0 [[Byte.x01]; [Byte.x02]] paired
           (mkWebSocket OPEN [] None ExtensionListeners)
           eq_refl eq_refl eq_refl eq_refl eq_refl).
Defined.

Lemma client_close_clears_pairing_witness :
  _browserSocket two_clients = Some 2
  ∧ _browserSocket (step two_clients (Closed 1)) = None
  ∧ sockets (step two_clients (Closed 1)) !! 2
    = Some (mkWebSocket OPEN [] None BrowserListeners).
Proof.
  destruct (client_close_clears_pairing two_clients 1 eq_refl eq_refl)
    as (Hb & _ & Hs & _).
  split; [reflexivity|]. split; [exact Hb|].
  rewrite (Hs 2) by discriminate. reflexivity.
Defined.

Lemma extension_close_is_guarded_witness :
  _extensionSocket (step superseded (Closed 0)) = Some 2.
Proof.
  destruct (extension_close_is_guarded superseded 0 eq_refl eq_refl)
    as (_ & Hstale & _).
  rewrite Hstale by discriminate. reflexivity.
Defined.

Lemma client_connection_replaces_without_closing_witness :
  _browserSocket (step paired (Connection (browser_request "B"))) = Some 2
  ∧ sockets (step paired (Connection (browser_request "B"))) !! 1
    = Some (mkWebSocket OPEN [] None BrowserListeners).
Proof.
  destruct (client_connection_replaces_without_closing paired (browser_request "B")
              (conj eq_refl eq_refl)) as (Hb & _ & Hs & _).
  split; [exact Hb|]. rewrite (Hs 1) by discriminate. reflexivity.
Defined.

Lemma closed_sockets_stay_closed_witness :
  (∃ o', sockets (run superseded [Message 0 [Byte.x01]; Message 1 [Byte.x02]]) !! 0
           = Some o'
     ∧ sent o' = [] ∧ readyState o' ≠ OPEN)
  ∧ ∃ t, trace (run superseded [Message 0 [Byte.x01]; Message 1 [Byte.x02]])
         = trace superseded ++ t
      ∧ ∀ data, Send 0 data ∉ t.
Proof.
  assert (reachable superseded) as Hreach
    by apply relay_reachable_run, relay_reachable_run, relay_reachable_run,
      reachable_init.
  destruct (closed_sockets_stay_closed
              [Message 0 [Byte.x01]; Message 1 [Byte.x02]] superseded 0
              (mkWebSocket CLOSING []
                 (Some (Some (1000%Z, "New extension connection established")))
                 ExtensionListeners)
              Hreach eq_refl) as [(o' & Hs & Hsent & _ & _ & Hopen) Htrace].
  - discriminate.
  - split; [|exact Htrace]. exists o'. repeat split; assumption.
Defined.

Lemma sockets_without_listeners_are_refused_witness :
  refused_socket
    (mkWebSocket CLOSING [] (Some (Some (4001%Z, "Invalid token"))) NoListeners).
Proof.
  assert (reachable (run paired [Connection (extension_request "B")])) as Hreach
    by apply relay_reachable_run, relay_reachable_run, relay_reachable_run,
      reachable_init.
  exact (sockets_without_listeners_are_refused _ Hreach 2 _ eq_refl eq_refl).
Defined.

Lemma roles_never_mix_witness :
  well_paired paired
  ∧ ∃ o', sockets (run paired [Connection (extension_request "E"); Closed 0]) !! 0
            = Some o'
      ∧ listeners o' = ExtensionListeners.
Proof.
  assert (reachable paired) as Hreach
    by apply relay_reachable_run, relay_reachable_run, reachable_init.
  destruct (roles_never_mix paired Hreach) as [Hpaired Hroles].
  split; [exact Hpaired|].
  exact (Hroles [Connection (extension_request "E"); Closed 0] 0
           (mkWebSocket OPEN [] None ExtensionListeners) eq_refl).
Defined.

Lemma extension_connection_without_predecessor_witness :
  _extensionSocket (step client_only (Connection (extension_request "E"))) = Some 1
  ∧ _browserSocket (step client_only (Connection (extension_request "E"))) = Some 0
  ∧ trace (step client_only (Connection (extension_request "E")))
    = trace client_only ++ [SetExtensionSocket (Some 1)].
Proof.
  assert (reachable client_only) as Hreach
    by apply relay_reachable_run, relay_reachable_run, reachable_init.
  destruct (extension_connection_without_predecessor client_only
              (extension_request "E") Hreach (conj eq_refl eq_refl) eq_refl)
    as (He & _ & _ & Hb & Htrace).
  repeat split; assumption.
Defined.

Lemma waiter_resolved_by_later_extension_connection_witness :
  _waiter (run client_only [CallWaitForConnection;
                            Connection (extension_request "E")]) = Some true
  ∧ _waiter (run client_only [Connection (extension_request "E");
                              CallWaitForConnection]) = Some false.
Proof.
  destruct (waiter_resolved_by_later_extension_connection client_only
              (extension_request "E") (conj eq_refl eq_refl))
    as (Hafter & Hbefore & _).
  split; assumption.
Defined.

Lemma close_unpairs_and_closes_witness :
  _extensionSocket (close paired) = None ∧ _browserSocket (close paired) = None
  ∧ sockets (close (close paired)) = sockets (close paired).
Proof.
  assert (reachable paired) as Hreach
    by apply relay_reachable_run, relay_reachable_run, reachable_init.
  destruct (close_unpairs_and_closes paired Hreach)
    as (He & Hb & _ & _ & _ & Hagain & _).
  split; [exact He|]. split; [exact Hb | exact Hagain].
Defined.

Lemma connection_addresses_stay_valid_witness :
  _extensionSocket
    (step (run paired [Connection (browser_request "B"); Closed 0])
       (Connection (extension_request "E")))
  = Some (next_ws (run paired [Connection (browser_request "B"); Closed 0])).
Proof.
  apply (proj1 (connection_addresses_stay_valid paired
                  [Connection (browser_request "B"); Closed 0]
                  (extension_request "E")
                  (conj eq_refl (conj eq_refl I)) eq_refl)).
  split; reflexivity.
Defined.

End RelayExtras.

(* ===================================================================== *)
(** ** Further properties of the extension *)
(* ===================================================================== *)

Module ExtensionExtras.
Import Extension ExtensionProps.

Lemma world_ext (w1 w2 : World) :
  adapters w1 = adapters w2 → heap w1 = heap w2 → sockets w1 = sockets w2 →
  attached w1 = attached w2 → onEvent w1 = onEvent w2 → onDetach w1 = onDetach w2 →
  pending w1 = pending w2 → next_id w1 = next_id w2 →
  userAgent w1 = userAgent w2 → trace w1 = trace w2 → w1 = w2.
Proof. destruct w1, w2. simpl. by intros -> -> -> -> -> -> -> -> -> ->. Qed.

(** Reduces the record updates and projections of a state, and nothing
    else. *)
Ltac fields :=
  cbn [adapters heap sockets attached onEvent onDetach pending next_id
       userAgent trace set_adapters set_heap set_sockets set_attached
       set_onEvent set_onDetach set_pending set_next_id set_trace
       url readyState sent wired onClose dispatch _debuggee
       l_adapter l_targetId l_browserContextId fn_id fn_this fst snd].

Lemma set_trace_same (w : World) : set_trace (trace w) w = w.
Proof. by destruct w. Qed.

Lemma set_pending_same (w : World) : set_pending (pending w) w = w.
Proof. by destruct w. Qed.

Section Consent.

Variable JSON_parse : string → option value.
Variable WebSocket_accepts : string → bool.

(** *** Navigations *)

(** X12. A tab update that is not a completed navigation to the trigger
    page with a non-empty [connectionURL] is ignored: the extension's
    state stays exactly as it was, nothing is logged. *)
Theorem other_navigations_ignored (tabId : nat) (status : string)
    (tab_url : option TabURL) (w : World) :
  (∀ proxyURL, ¬ trigger status tab_url proxyURL) →
  step JSON_parse WebSocket_accepts w (TabsUpdated tabId status tab_url) = w.
Proof.
  intros Hnot. unfold step, run_handler, onTabsUpdated.
  destruct tab_url as [u|]; [|done].
  destruct (String.eqb_spec status "complete") as [Hs|]; [|done]. simpl.
  destruct (String.eqb_spec (hostname u) "demo.playwright.dev") as [Hh|]; [|done].
  destruct (String.eqb_spec (pathname u) "/mcp.html") as [Hp|]; [|done]. simpl.
  destruct (connectionURL u) as [proxyURL|] eqn:Hc; [|done].
  destruct (String.eqb_spec proxyURL EmptyString) as [He|]; [done|].
  destruct (Hnot proxyURL). split; [done|]. by exists u.
Qed.

Lemma trigger_runs (tabId : nat) (status : string) (tab_url : option TabURL)
    (proxyURL : string) :
  trigger status tab_url proxyURL →
  onTabsUpdated tabId status tab_url
  = (has ← read (λ w, bool_decide (is_Some (adapters w !! tabId)));
     if has : bool then debugLog "Already attached to tab:"
     else
       debugLog "Attaching debugger to tab:";;
       act (TabsUpdate tabId "prompt.html");;
       modify (λ w, set_pending (pending w ++ [(tabId, proxyURL)]) w)).
Proof.
  intros (-> & u & -> & Hh & Hp & Hc & Hne). unfold onTabsUpdated.
  rewrite Hh, Hp, Hc. simpl.
  by destruct (String.eqb_spec proxyURL EmptyString).
Qed.

(** X13. A trigger navigation of a tab that is already bridged only logs
    that fact; of any other tab it sends the tab to the consent page and
    queues one consent listener with the relay address, and that is all:
    no debugger is attached and no socket opened at this point. This also
    holds while an earlier consent of the same tab is still pending, so a
    second listener is queued for it. *)
Theorem trigger_navigation (tabId : nat) (status : string)
    (tab_url : option TabURL) (proxyURL : string) (w : World) :
  trigger status tab_url proxyURL →
  (is_Some (adapters w !! tabId) →
     step JSON_parse WebSocket_accepts w (TabsUpdated tabId status tab_url)
       = set_trace (trace w ++ [Log "Already attached to tab:"]) w)
  ∧ (adapters w !! tabId = None →
     step JSON_parse WebSocket_accepts w (TabsUpdated tabId status tab_url)
       = mkWorld (adapters w) (heap w) (sockets w) (attached w) (onEvent w)
           (onDetach w) (pending w ++ [(tabId, proxyURL)]) (next_id w)
           (userAgent w)
           (trace w ++ [Log "Attaching debugger to tab:";
                        TabsUpdate tabId "prompt.html"])).
Proof.
  intros Htrig. unfold step. rewrite (trigger_runs tabId _ _ _ Htrig).
  unfold run_handler. run_M. split.
  - intros Hhas. by rewrite bool_decide_eq_true_2.
  - intros Hnone. rewrite bool_decide_eq_false_2; [|rewrite Hnone; by intros [? ?]].
    simpl. unfold set_pending, set_trace. simpl. by rewrite <- app_assoc.
Qed.

(** *** Consent *)

Ltac not_in_trace H :=
  let Hin := fresh "Hin" in
  simpl; intros Hin; rewrite ?elem_of_app, ?elem_of_cons, ?elem_of_nil in Hin;
  repeat match type of Hin with
    | _ ∨ _ => destruct Hin as [Hin|Hin]
    end;
  first [ discriminate Hin | exact (H Hin) | contradiction ].

Lemma unbridged_step (w : World) (e : Event) :
  unbridged w → ¬ is_approval e → unbridged (step JSON_parse WebSocket_accepts w e).
Proof.
  intros (Ha & Hs & Hh & Had & He & Hd & Ht) Hno.
  destruct e as [tabId status tab_url| | | | | | | |]; simpl; try done.
  - unfold run_handler, onTabsUpdated.
    destruct tab_url as [u|]; [|done].
    destruct (negb (String.eqb status "complete")); [done|].
    destruct (_ || _); [done|].
    destruct (connectionURL u) as [proxyURL|]; [|done].
    destruct (String.eqb proxyURL EmptyString); [done|].
    run_M. destruct (bool_decide _); simpl;
      (repeat split; try done); intros t; not_in_trace (Ht t).
  - unfold state_of. by rewrite Hs, lookup_empty.
  - unfold state_of. by rewrite Hs, lookup_empty.
  - unfold state_of. by rewrite Hs, lookup_empty.
  - unfold state_of. by rewrite Hs, lookup_empty.
  - unfold run_handler, onCommandResponse, call_dispatch. run_M.
    destruct message; simpl; rewrite ?Hh, ?lookup_empty; simpl;
      (repeat split; try done); intros t; not_in_trace (Ht t).
  - rewrite Ha. rewrite bool_decide_eq_false_2 by set_solver. done.
  - rewrite Ha. rewrite bool_decide_eq_false_2 by set_solver. done.
Qed.

(** X14. Without the user's approval nothing is bridged: whatever
    navigations, socket events, debugger events and command results
    arrive, as long as no approval does, no debugger is attached, no
    socket and no adapter exists, no listener is registered, and
    [chrome.debugger.attach] has not been called. *)
Theorem nothing_bridged_without_approval (userAgent : string) (es : list Event) :
  Forall (λ e, ¬ is_approval e) es →
  unbridged (run JSON_parse WebSocket_accepts (init userAgent) es).
Proof.
  assert (unbridged (init userAgent)) as Hinit.
  { repeat split; try done. intros t Hin. by apply elem_of_nil in Hin. }
  revert Hinit. generalize (init userAgent).
  induction es as [|e es IH]; intros w Hw Hes; [done|].
  apply Forall_cons in Hes as [He Hes].
  apply IH; [|done]. by apply unbridged_step.
Qed.

Lemma filter_none {A} (P : A → Prop) `{∀ x, Decision (P x)} (l : list A) :
  (∀ x, x ∈ l → ¬ P x) → filter P l = [].
Proof.
  induction l as [|x l IH]; intros Hl; [done|].
  rewrite filter_cons_False by (apply Hl; left).
  apply IH. intros y Hy. apply Hl. by right.
Qed.

Lemma filter_all {A} (P : A → Prop) `{∀ x, Decision (P x)} (l : list A) :
  (∀ x, x ∈ l → P x) → filter P l = l.
Proof.
  induction l as [|x l IH]; intros Hl; [done|].
  rewrite filter_cons_True by (apply Hl; left).
  f_equal. apply IH. intros y Hy. apply Hl. by right.
Qed.

Lemma pending_onTabsUpdated_approved tabId proxyURL targetId browserContextId w :
  pending (run_handler
             (onTabsUpdated_approved WebSocket_accepts tabId proxyURL targetId
                browserContextId) w)
  = pending w.
Proof.
  unfold run_handler, onTabsUpdated_approved, chrome_debugger_attach,
    new_WebSocket, new_CDPAdapter, bind_this.
  destruct (WebSocket_accepts proxyURL); run_M; by destruct (bool_decide _).
Qed.

Lemma pending_run_all_approved tabId targetId browserContextId
    (ls : list (nat * string)) :
  ∀ w,
  pending (run_all ((λ p, onTabsUpdated_approved WebSocket_accepts tabId p.2
                            targetId browserContextId)
                      <$> ls) w)
  = pending w.
Proof.
  induction ls as [|p ls IH]; intros w; [done|]. simpl.
  by rewrite IH, pending_onTabsUpdated_approved.
Qed.

(** X15. An approval only wakes the consent listeners of its own tab and
    uses them up: with no listener waiting for the tab it changes nothing
    at all; afterwards no listener waits for that tab while the listeners
    of other tabs are all still there, so a second approval for the tab
    does nothing. *)
Theorem approval_is_consumed (tabId : nat) (targetId browserContextId : string)
    (w : World) :
  ((∀ p, p ∈ pending w → p.1 ≠ tabId) →
     step JSON_parse WebSocket_accepts w (Approved tabId targetId browserContextId) = w)
  ∧ pending (step JSON_parse WebSocket_accepts w (Approved tabId targetId browserContextId))
    = filter (λ p, p.1 ≠ tabId) (pending w)
  ∧ ∀ targetId' browserContextId',
      step JSON_parse WebSocket_accepts
        (step JSON_parse WebSocket_accepts w (Approved tabId targetId browserContextId))
        (Approved tabId targetId' browserContextId')
      = step JSON_parse WebSocket_accepts w (Approved tabId targetId browserContextId).
Proof.
  assert (∀ w t c, (∀ p, p ∈ pending w → p.1 ≠ tabId) →
            step JSON_parse WebSocket_accepts w (Approved tabId t c) = w) as Hnone.
  { intros w0 t c Hw. unfold step.
    rewrite (filter_none (λ p, p.1 = tabId)) by (intros p Hp; by apply Hw).
    rewrite (filter_all (λ p, p.1 ≠ tabId)) by done.
    simpl. apply set_pending_same. }
  assert (pending (step JSON_parse WebSocket_accepts w (Approved tabId targetId browserContextId))
          = filter (λ p, p.1 ≠ tabId) (pending w)) as Hpending.
  { unfold step. by rewrite pending_run_all_approved. }
  split; [apply Hnone|]. split; [done|].
  intros t c. apply Hnone. intros p. rewrite Hpending.
  by intros [Hp _]%list_elem_of_filter.
Qed.

(** *** Bridging *)

Lemma addListener_fresh (f : BoundFn) (ls : list BoundFn) (n : nat) :
  Forall (λ g, fn_id g < n)%nat ls → (n ≤ fn_id f)%nat →
  addListener f ls = ls ++ [f].
Proof.
  intros Hls Hf. unfold addListener. rewrite bool_decide_eq_false_2; [done|].
  intros (g & Hg & Hin)%list_elem_of_fmap.
  apply (proj1 (Forall_forall _ _) Hls) in Hin. lia.
Qed.

(** X16. The approval of a tab that waits with one consent listener,
    has no debugger attached and came with a relay address the
    [WebSocket] constructor takes builds the bridge: the debugger is
    attached, a connecting socket to the relay address and an adapter for
    the tab are made and wired to each other, the adapter's two listeners
    are registered last in their lists, the tab is entered in the adapter
    map and the consent listener is gone. *)
Theorem approval_bridges_the_tab (tabId : nat)
    (proxyURL targetId browserContextId : string) (w : World) :
  reachable JSON_parse WebSocket_accepts w →
  filter (λ p, p.1 = tabId) (pending w) = [(tabId, proxyURL)] →
  tabId ∉ attached w →
  WebSocket_accepts proxyURL = true →
  step JSON_parse WebSocket_accepts w (Approved tabId targetId browserContextId)
  = mkWorld
      (<[tabId := S (next_id w)]> (adapters w))
      (<[S (next_id w) :=
           mkCDPAdapter (onClose_of_tab tabId (next_id w))
             (dispatch_to_socket (next_id w)) tabId]> (heap w))
      (<[next_id w :=
           mkWebSocket proxyURL CONNECTING []
             (Some (mkSocketListeners (S (next_id w)) targetId browserContextId))]>
         (sockets w))
      ({[tabId]} ∪ attached w)
      (onEvent w ++ [mkBoundFn (S (S (next_id w))) (S (next_id w))])
      (onDetach w ++ [mkBoundFn (S (S (S (next_id w)))) (S (next_id w))])
      (filter (λ p, p.1 ≠ tabId) (pending w))
      (S (S (S (S (next_id w)))))
      (userAgent w)
      (trace w ++ [DebuggerAttach tabId;
                   Log "Debugger attached to tab:";
                   SendCommand tabId (Str "Target.getTargetInfo") (Obj []);
                   MapSet tabId (S (next_id w))]).
Proof.
  intros [He Hd]%reachable_ids_below Hwait Hfree Hok.
  unfold step. rewrite Hwait. simpl.
  unfold run_handler, onTabsUpdated_approved, chrome_debugger_attach,
    new_WebSocket, new_CDPAdapter, bind_this.
  rewrite Hok. run_M. rewrite bool_decide_eq_false_2 by done. simpl.
  rewrite (addListener_fresh _ _ (next_id w)) by (done || simpl; lia).
  rewrite (addListener_fresh _ _ (next_id w)) by (done || simpl; lia).
  rewrite !alter_insert_eq.
  apply world_ext; fields; try reflexivity.
  by rewrite <- !app_assoc.
Qed.

(** X17. The approval of a tab that already has a debugger attached
    builds nothing: [chrome.debugger.attach] is rejected, the rejection
    stays unhandled, and no socket, adapter, listener or map entry is
    made; the consent listener is used up all the same, so nothing tries
    again. *)
Theorem approval_with_debugger_attached (tabId : nat)
    (proxyURL targetId browserContextId : string) (w : World) :
  filter (λ p, p.1 = tabId) (pending w) = [(tabId, proxyURL)] →
  tabId ∈ attached w →
  step JSON_parse WebSocket_accepts w (Approved tabId targetId browserContextId)
  = mkWorld (adapters w) (heap w) (sockets w) (attached w) (onEvent w)
      (onDetach w) (filter (λ p, p.1 ≠ tabId) (pending w)) (next_id w)
      (userAgent w)
      (trace w ++ [DebuggerAttach tabId;
                   UnhandledRejection
                     "Another debugger is already attached to the tab"]).
Proof.
  intros Hwait Hatt. unfold step. rewrite Hwait. simpl.
  unfold run_handler, onTabsUpdated_approved, chrome_debugger_attach.
  run_M. rewrite bool_decide_eq_true_2 by done. simpl.
  unfold set_trace. simpl. by rewrite <- !app_assoc.
Qed.

(** X27. The approval of a tab whose relay address the [WebSocket]
    constructor does not take leaves the debugger attached with nothing
    behind it: the attach and the [Target.getTargetInfo] command are done,
    then [new WebSocket(proxyURL)] throws, the rejection stays unhandled,
    and no socket, adapter, listener or map entry is made; nothing
    detaches the debugger, and the consent listener is gone. *)
Theorem approval_with_refused_address (tabId : nat)
    (proxyURL targetId browserContextId : string) (w : World) :
  filter (λ p, p.1 = tabId) (pending w) = [(tabId, proxyURL)] →
  tabId ∉ attached w →
  WebSocket_accepts proxyURL = false →
  step JSON_parse WebSocket_accepts w (Approved tabId targetId browserContextId)
  = mkWorld (adapters w) (heap w) (sockets w) ({[tabId]} ∪ attached w)
      (onEvent w) (onDetach w) (filter (λ p, p.1 ≠ tabId) (pending w))
      (next_id w) (userAgent w)
      (trace w ++ [DebuggerAttach tabId;
                   Log "Debugger attached to tab:";
                   SendCommand tabId (Str "Target.getTargetInfo") (Obj []);
                   UnhandledRejection "SyntaxError"]).
Proof.
  intros Hwait Hfree Hbad. unfold step. rewrite Hwait. simpl.
  unfold run_handler, onTabsUpdated_approved, chrome_debugger_attach,
    new_WebSocket.
  rewrite Hbad. run_M. rewrite bool_decide_eq_false_2 by done. simpl.
  apply world_ext; fields; try reflexivity.
  by rewrite <- !app_assoc.
Qed.

(** *** The message pump *)

(** X18. A frame that decodes to a [Browser.setDownloadBehavior] command
    is answered by the adapter itself with one dispatch of
    [{id: <the request's id>, result: {}}]; nothing is sent to the native
    debugger. *)
Theorem setDownloadBehavior_answered_locally (this : nat)
    (targetId browserContextId : string) (data : MessageData) (message : value)
    (w : World) :
  decode JSON_parse data = Normal message →
  command "Browser.setDownloadBehavior" message →
  ∃ w', onBrowserMessage JSON_parse this targetId browserContextId data w
          = (w', Normal tt)
    ∧ calls (trace w')
      = calls (trace w)
        ++ [Dispatch this (Obj [("id", id_of message); ("result", Obj [])])].
Proof.
  intros Hdec (fields & -> & Hm).
  unfold onBrowserMessage, onBrowserMessage_body. run_M.
  rewrite Hdec. simpl. rewrite Hm. simpl.
  destruct (call_dispatch_spec this
              (Obj [("id", lookup_field "id" fields); ("result", Obj [])]) w)
    as (w1 & Hw1 & Hc1 & _).
  rewrite Hw1. by exists w1.
Qed.

Lemma is_string_other (m lit : string) : m ≠ lit → is_string (Str m) lit = false.
Proof. intros Hne. simpl. by destruct (String.eqb_spec m lit). Qed.

(** X19. Every other command is forwarded: a frame that decodes to an
    object with a non-empty [method] other than [Browser.getVersion] and
    [Browser.setDownloadBehavior], and in the case of
    [Target.setAutoAttach] with a truthy [sessionId], makes the adapter
    log it and call [sendCommand] once with its own tab, that method and
    the message's [params]; nothing is dispatched at that point and
    nothing else changes. *)
Theorem other_commands_forwarded (this : nat) (targetId browserContextId : string)
    (data : MessageData) (message : value) (method : string) (w : World) :
  decode JSON_parse data = Normal message →
  command method message →
  method ≠ EmptyString →
  method ≠ "Browser.getVersion" → method ≠ "Browser.setDownloadBehavior" →
  (method = "Target.setAutoAttach" → truthy (sessionId_of message) = true) →
  onBrowserMessage JSON_parse this targetId browserContextId data w
  = (set_trace
       (trace w ++ [Log "Received command from WebSocket:";
                    SendCommand (debuggee_of this w) (Str method)
                      (params_of message)]) w,
     Normal tt).
Proof.
  intros Hdec (fields & -> & Hm) Hne Hv Hd Hs.
  assert (String.eqb method "Browser.getVersion" = false) as Hv'
    by by destruct (String.eqb_spec method "Browser.getVersion").
  assert (String.eqb method "Browser.setDownloadBehavior" = false) as Hd'
    by by destruct (String.eqb_spec method "Browser.setDownloadBehavior").
  assert (String.eqb method EmptyString = false) as Hempty
    by by destruct (String.eqb_spec method EmptyString).
  unfold onBrowserMessage, onBrowserMessage_body. run_M.
  rewrite Hdec. simpl. rewrite Hm. simpl. rewrite Hv'. simpl.
  destruct (String.eqb_spec method "Target.setAutoAttach") as [Heq|Hneq].
  - simpl in Hs. rewrite (Hs Heq). simpl. rewrite Hd'. simpl. rewrite Hempty.
    simpl. apply (f_equal (λ x, (x, Normal ()))).
    apply world_ext; fields; try reflexivity. by rewrite <- !app_assoc.
  - simpl. rewrite Hd'. simpl. rewrite Hempty.
    simpl. apply (f_equal (λ x, (x, Normal ()))).
    apply world_ext; fields; try reflexivity. by rewrite <- !app_assoc.
Qed.


Lemma falsy_is_no_command (m : value) (lit : string) :
  truthy m = false → lit ≠ EmptyString → is_string m lit = false.
Proof.
  destruct m; try done. simpl. intros Hs Hlit.
  destruct (String.eqb_spec s EmptyString) as [->|]; [|done].
  destruct (String.eqb_spec EmptyString lit); [congruence | done].
Qed.

(** X21. A decoded message without a usable [method] is ignored without
    a trace: when reading [method] gives a falsy value (the field is
    missing, as in a response, or the message is a number, a string or an
    array) the extension's state stays exactly as it was. When the message
    is [null], reading [method] throws; that is caught and logged like a
    malformed frame. *)
Theorem messages_without_method_ignored (this : nat)
    (targetId browserContextId : string) (data : MessageData) (message : value)
    (w : World) :
  decode JSON_parse data = Normal message →
  (∀ m, get_property message "method" = Normal m → truthy m = false →
     onBrowserMessage JSON_parse this targetId browserContextId data w
     = (w, Normal tt))
  ∧ (∀ e, get_property message "method" = Throw e →
     onBrowserMessage JSON_parse this targetId browserContextId data w
     = (set_trace (trace w ++ [Log "Error processing WebSocket message:"]) w,
        Normal tt)).
Proof.
  intros Hdec. split.
  - intros m Hm Hfalsy.
    unfold onBrowserMessage, onBrowserMessage_body. run_M.
    rewrite Hdec. simpl. rewrite Hm. simpl.
    rewrite !(falsy_is_no_command m) by done. simpl.
    by rewrite Hfalsy.
  - intros e He.
    unfold onBrowserMessage, onBrowserMessage_body. run_M.
    rewrite Hdec. simpl. by rewrite He.
Qed.

End Consent.

(** X22. The result of a forwarded command goes back as one dispatch of
    [{id, result, error, sessionId}] that carries the command's own [id]
    and [sessionId] and the native result; [error] is null unless
    [chrome.runtime.lastError] is set, and then its message. *)
Theorem command_result_echoes_id_and_session (this : nat) (message response : value)
    (lastError : option string) (w : World) :
  (∃ fields, message = Obj fields) →
  ∃ w', onCommandResponse this message response lastError w = (w', Normal tt)
    ∧ calls (trace w')
      = calls (trace w)
        ++ [Dispatch this
              (Obj [("id", id_of message);
                    ("result", response);
                    ("error", match lastError with
                              | Some m => Str m
                              | None => Null
                              end);
                    ("sessionId", sessionId_of message)])].
Proof.
  intros (fields & ->). unfold onCommandResponse. run_M.
  match goal with |- context [call_dispatch this ?d w] =>
    destruct (call_dispatch_spec this d w) as (w1 & Hw1 & Hc1 & _) end.
  rewrite Hw1. by exists w1.
Qed.

(** X23. What an adapter dispatches while its socket is not open is
    lost: the value is logged, nothing is sent or queued, and no socket
    changes; so a native event that arrives before the socket has opened,
    or after it has started closing, never reaches the relay. *)
Theorem dispatch_without_open_socket_is_lost (this socket : nat) (a : CDPAdapter)
    (w : World) :
  heap w !! this = Some a → dispatch a = dispatch_to_socket socket →
  socket_is_open socket w = false →
  (∀ data,
     call_dispatch this data w
     = (set_trace
          (trace w ++ [Dispatch this data;
                       Log "Sending message to browser:";
                       Log "WebSocket is not open. Cannot send data."]) w,
        Normal tt))
  ∧ ∀ source method params,
      sockets (_onDebuggerEvent this source method params w).1 = sockets w.
Proof.
  intros Ha Hd Hclosed.
  assert (∀ data t,
            call_dispatch this data (set_trace t w)
            = (set_trace
                 (t ++ [Dispatch this data;
                        Log "Sending message to browser:";
                        Log "WebSocket is not open. Cannot send data."]) w,
               Normal tt)) as Hlost.
  { intros data t. unfold call_dispatch. run_M. rewrite Ha.
    destruct a as [c dsp tab]. simpl in Hd. subst dsp. simpl.
    unfold socket_is_open in *. simpl. rewrite Hclosed. simpl.
    apply (f_equal (λ x, (x, Normal ()))).
    apply world_ext; fields; try reflexivity. by rewrite <- !app_assoc. }
  split.
  - intros data. rewrite <- (set_trace_same w) at 1. apply Hlost.
  - intros source method params. unfold _onDebuggerEvent. run_M.
    match goal with |- context [call_dispatch this ?d (set_trace ?t w)] =>
      rewrite (Hlost d t) end.
    done.
Qed.

(** *** Calm computations *)

Lemma calm_refl (w : World) : calm w w.
Proof. repeat split; try done. intros tab. by left. Qed.

Lemma calm_trans (w1 w2 w3 : World) : calm w1 w2 → calm w2 w3 → calm w1 w3.
Proof.
  intros (Hh & Ha & Hw & Ho) (Hh' & Ha' & Hw' & Ho'). repeat split.
  - congruence.
  - intros tab. destruct (Ha' tab) as [-> | ->]; [apply Ha | by right].
  - intros s. by rewrite Hw', Hw.
  - intros s Hs. by apply Ho, Ho'.
Qed.

Lemma calm_same (w w' : World) :
  heap w' = heap w → adapters w' = adapters w → sockets w' = sockets w → calm w w'.
Proof.
  intros Hh Ha Hs. repeat split; try done.
  - intros tab. left. by rewrite Ha.
  - intros s. by rewrite Hs.
  - intros s. unfold socket_is_open. by rewrite Hs.
Qed.

Lemma tame_bind {A B} (c : M A) (k : A → M B) :
  tame c → (∀ a, tame (k a)) → tame (c ≫= k).
Proof.
  intros Hc Hk w. unfold mbind, M_bind. specialize (Hc w).
  destruct (c w) as [w1 [a|e]]; [|done].
  apply (calm_trans w w1); [done | apply Hk].
Qed.

Lemma tame_try_catch {A} (c : M A) (h : string → M A) :
  tame c → (∀ e, tame (h e)) → tame (try_catch c h).
Proof.
  intros Hc Hh w. unfold try_catch. specialize (Hc w).
  destruct (c w) as [w1 [a|e]]; [done|].
  apply (calm_trans w w1); [done | apply Hh].
Qed.

Lemma tame_ret {A} (a : A) : tame (mret a).
Proof. intros w. apply calm_refl. Qed.

Lemma tame_lift {A} (c : Completion A) : tame (lift c).
Proof. intros w. apply calm_refl. Qed.

Lemma tame_read {A} (f : World → A) : tame (read f).
Proof. intros w. apply calm_refl. Qed.

Lemma tame_throw {A} (e : string) : tame (throw (A := A) e).
Proof. intros w. apply calm_refl. Qed.

Lemma tame_act (a : Action) : tame (act a).
Proof. intros w. by apply calm_same. Qed.

Lemma tame_fresh : tame fresh.
Proof. intros w. by apply calm_same. Qed.

Lemma tame_modify (f : World → World) :
  (∀ w, heap (f w) = heap w ∧ adapters (f w) = adapters w
        ∧ sockets (f w) = sockets w) →
  tame (modify f).
Proof. intros Hf w. destruct (Hf w) as (? & ? & ?). by apply calm_same. Qed.

Lemma tame_delete (tabId : nat) :
  tame (modify (λ w, set_adapters (delete tabId (adapters w)) w)).
Proof.
  intros w. repeat split; try done. intros tab. simpl.
  rewrite lookup_delete. destruct (decide (tabId = tab)); [by right | by left].
Qed.

Lemma tame_alter_socket (f : WebSocket → WebSocket) (socket : nat) :
  (∀ so, wired (f so) = wired so) →
  (∀ so, readyState (f so) = OPEN → readyState so = OPEN) →
  tame (modify (λ w, set_sockets (alter f socket (sockets w)) w)).
Proof.
  intros Hwired Hopen w. unfold modify. repeat split; fields; try done.
  - intros tab. by left.
  - intros s. rewrite lookup_alter. destruct (decide (socket = s)) as [->|]; [|done].
    destruct (sockets w !! s); [|done]. simpl. by rewrite Hwired.
  - intros s. unfold socket_is_open. fields. rewrite lookup_alter.
    destruct (decide (socket = s)) as [->|]; [|done].
    destruct (sockets w !! s) as [so|]; [|done]. simpl.
    intros H%bool_decide_eq_true. by apply bool_decide_eq_true, Hopen.
Qed.

Lemma tame_socket_send (socket : nat) (data : value) : tame (socket_send socket data).
Proof.
  unfold socket_send. apply tame_bind; [apply tame_act | intros _].
  by apply (tame_alter_socket _ socket).
Qed.

Lemma tame_socket_close (socket : nat) : tame (socket_close socket).
Proof.
  unfold socket_close. apply tame_bind; [apply tame_act | intros _].
  by apply (tame_alter_socket _ socket).
Qed.

Ltac tame_step :=
  lazymatch goal with
  | |- tame (socket_send _ _) => apply tame_socket_send
  | |- tame (socket_close _) => apply tame_socket_close
  | |- tame (try_catch _ _) => apply tame_try_catch; [|intros ?]
  | |- tame (mbind _ _) => apply tame_bind; [|intros ?]
  | |- tame (mret _) => apply tame_ret
  | |- tame (lift _) => apply tame_lift
  | |- tame (read _) => apply tame_read
  | |- tame (throw _) => apply tame_throw
  | |- tame (act _) => apply tame_act
  | |- tame fresh => apply tame_fresh
  | |- tame (modify (λ w, set_adapters (delete _ (adapters w)) w)) =>
      apply tame_delete
  | |- tame (modify _) => apply tame_modify; intros ?; by repeat split
  | |- tame (if ?b then _ else _) => destruct b
  | |- tame (match ?x with Some _ => _ | None => _ end) => destruct x
  | |- tame (match ?x with mkCDPAdapter _ _ _ => _ end) => destruct x
  | |- tame (match ?x with onClose_noop => _ | onClose_of_tab _ _ => _ end) =>
      destruct x
  | |- tame (match ?x with dispatch_noop => _ | dispatch_to_socket _ => _ end) =>
      destruct x
  end.

Ltac solve_tame := repeat tame_step.

Lemma tame_call_dispatch (this : nat) (data : value) : tame (call_dispatch this data).
Proof. unfold call_dispatch, debugLog. solve_tame. Qed.

Lemma tame_call_onClose (this : nat) : tame (call_onClose this).
Proof. unfold call_onClose, debugLog. solve_tame. Qed.

Lemma tame_detach (this : nat) : tame (detach this).
Proof.
  unfold detach, chrome_debugger_detach, bind_this. solve_tame.
  all: try apply tame_call_onClose.
Qed.

Lemma tame_onBrowserMessage JSON_parse this targetId browserContextId data :
  tame (onBrowserMessage JSON_parse this targetId browserContextId data).
Proof.
  unfold onBrowserMessage, onBrowserMessage_body, prop, debugLog. solve_tame.
  all: apply tame_call_dispatch.
Qed.

Lemma tame_onCommandResponse this message response lastError :
  tame (onCommandResponse this message response lastError).
Proof.
  unfold onCommandResponse, prop. solve_tame. apply tame_call_dispatch.
Qed.

Lemma tame_onDebuggerEvent this source method params :
  tame (_onDebuggerEvent this source method params).
Proof. unfold _onDebuggerEvent, debugLog. solve_tame. apply tame_call_dispatch. Qed.

Lemma tame_onDebuggerDetach this : tame (_onDebuggerDetach this).
Proof. unfold _onDebuggerDetach, debugLog. solve_tame. apply tame_call_onClose. Qed.

Lemma tame_onTabsUpdated tabId status tab_url :
  tame (onTabsUpdated tabId status tab_url).
Proof. unfold onTabsUpdated, debugLog. solve_tame. Qed.

Lemma calm_run_handler (c : M unit) (w : World) : tame c → calm w (run_handler c w).
Proof.
  intros Hc. specialize (Hc w). unfold run_handler.
  destruct (c w) as [w1 [[]|e]]; [done|].
  apply (calm_trans w w1); [done | by apply calm_same].
Qed.

Lemma calm_run_all (cs : list (M unit)) :
  Forall tame cs → ∀ w, calm w (run_all cs w).
Proof.
  induction 1 as [|c cs Hc _ IH]; intros w; [apply calm_refl|]. simpl.
  apply (calm_trans w (run_handler c w)); [by apply calm_run_handler | apply IH].
Qed.

(** *** The objects fit together *)

Lemma orderly_refl (w : World) : orderly w w.
Proof. split; [apply calm_refl | done]. Qed.

Lemma orderly_trans (w1 w2 w3 : World) :
  orderly w1 w2 → orderly w2 w3 → orderly w1 w3.
Proof.
  intros (Hc & He & Hd & Hn) (Hc' & He' & Hd' & Hn').
  split; [by apply (calm_trans w1 w2)|]. repeat split; [congruence.. | lia].
Qed.

Lemma orderly_run_handler (c : M unit) (w : World) :
  tame c → quiet c → orderly w (run_handler c w).
Proof.
  intros Ht Hq. split; [by apply calm_run_handler|].
  destruct (run_handler_listeners c w) as [-> ->].
  destruct (Hq w) as (He & Hd & Hn). repeat split; [done..|].
  unfold run_handler. destruct (c w) as [w1 [[]|e]]; simpl in *; lia.
Qed.

Lemma orderly_run_detach (this : nat) (w : World) :
  ids_below w → orderly w (run_handler (detach this) w).
Proof.
  intros Hw. split; [apply calm_run_handler, tame_detach|].
  destruct (run_detach_keeps_listeners this w Hw) as [-> ->].
  repeat split; [done..|].
  unfold run_handler, detach, chrome_debugger_detach, bind_this. run_M.
  destruct (bool_decide (debuggee_of this w ∈ attached w)); simpl; [|done].
  match goal with |- context [call_onClose this ?w0] =>
    pose proof (quiet_call_onClose this w0) as (_ & _ & Hn);
    destruct (call_onClose this w0) as [w1 [[]|e]] end;
    simpl in *; lia.
Qed.

Lemma orderly_run_all (cs : list (M unit)) :
  Forall (λ c, tame c ∧ quiet c) cs → ∀ w, orderly w (run_all cs w).
Proof.
  induction 1 as [|c cs [Ht Hq] _ IH]; intros w; [apply orderly_refl|]. simpl.
  apply (orderly_trans w (run_handler c w)); [by apply orderly_run_handler | apply IH].
Qed.

Lemma ids_below_orderly (w w' : World) : ids_below w → orderly w w' → ids_below w'.
Proof.
  intros [He Hd] (_ & He' & Hd' & Hn). unfold ids_below. rewrite He', Hd'. split.
  - eapply Forall_impl; [exact He | simpl; intros; lia].
  - eapply Forall_impl; [exact Hd | simpl; intros; lia].
Qed.

(** What keeps [registry_ok]: the same adapter objects and listeners, no
    identity taken back, an adapter map that at most lost entries, sockets
    with the listeners they had. *)
Lemma registry_ok_kept (w w' : World) :
  registry_ok w →
  heap w' = heap w → onEvent w' = onEvent w → onDetach w' = onDetach w →
  (next_id w ≤ next_id w')%nat →
  (∀ tab, adapters w' !! tab = adapters w !! tab ∨ adapters w' !! tab = None) →
  (∀ s, wired <$> sockets w' !! s = wired <$> sockets w !! s) →
  registry_ok w'.
Proof.
  intros (K0 & K2 & K1 & K3 & K4) Hh He Hd Hn Ha Hw.
  assert (∀ s so, sockets w !! s = Some so →
            ∃ so', sockets w' !! s = Some so' ∧ wired so' = wired so) as Hfwd.
  { intros s so Hs. specialize (Hw s). rewrite Hs in Hw.
    destruct (sockets w' !! s) as [so'|]; [|done].
    exists so'. split; [done|]. simpl in Hw. congruence. }
  assert (∀ s so', sockets w' !! s = Some so' →
            ∃ so, sockets w !! s = Some so ∧ wired so' = wired so) as Hbwd.
  { intros s so' Hs. specialize (Hw s). rewrite Hs in Hw.
    destruct (sockets w !! s) as [so|]; [|done].
    exists so. split; [done|]. simpl in Hw. congruence. }
  split; [|split; [|split; [|split]]].
  - intros k Hk. rewrite Hh. destruct (K0 k) as [Hk1 Hk2]; [lia|].
    split; [done|]. specialize (Hw k). rewrite Hk2 in Hw.
    by destruct (sockets w' !! k).
  - intros a ad. rewrite Hh. intros Hadp.
    destruct (K2 a ad Hadp) as (socket & so & t & c & Hform & Hs & Hwired).
    destruct (Hfwd socket so Hs) as (so' & Hs' & Hw').
    exists socket, so', t, c. repeat split; [done..|congruence].
  - intros a ad. rewrite Hh, He, Hd. apply K1.
  - intros tab a Htab. rewrite Hh. apply K3.
    destruct (Ha tab); congruence.
  - intros s so' Hs'. destruct (Hbwd s so' Hs') as (so & Hs & Hw').
    destruct (K4 s so Hs) as (l & ad & Hl & Hadp & Hdsp).
    exists l, ad. rewrite Hh. repeat split; [congruence | done..].
Qed.

Lemma sound_orderly (w w' : World) : sound w → orderly w w' → sound w'.
Proof.
  intros [Hids Hreg] Hord. split; [by apply (ids_below_orderly w)|].
  destruct Hord as ((Hh & Ha & Hw & _) & He & Hd & Hn).
  by apply (registry_ok_kept w).
Qed.

(** The state the rest of [onTabsUpdated] leaves when the attach
    succeeds and the constructor takes the address. *)
Lemma approved_builds (accepts : string → bool) (tabId : nat)
    (proxyURL targetId browserContextId : string) (w : World) :
  ids_below w → tabId ∉ attached w → accepts proxyURL = true →
  run_handler
    (onTabsUpdated_approved accepts tabId proxyURL targetId browserContextId) w
  = mkWorld
      (<[tabId := S (next_id w)]> (adapters w))
      (<[S (next_id w) :=
           mkCDPAdapter (onClose_of_tab tabId (next_id w))
             (dispatch_to_socket (next_id w)) tabId]> (heap w))
      (<[next_id w :=
           mkWebSocket proxyURL CONNECTING []
             (Some (mkSocketListeners (S (next_id w)) targetId browserContextId))]>
         (sockets w))
      ({[tabId]} ∪ attached w)
      (onEvent w ++ [mkBoundFn (S (S (next_id w))) (S (next_id w))])
      (onDetach w ++ [mkBoundFn (S (S (S (next_id w)))) (S (next_id w))])
      (pending w)
      (S (S (S (S (next_id w)))))
      (userAgent w)
      (trace w ++ [DebuggerAttach tabId;
                   Log "Debugger attached to tab:";
                   SendCommand tabId (Str "Target.getTargetInfo") (Obj []);
                   MapSet tabId (S (next_id w))]).
Proof.
  intros [He Hd] Hfree Hok.
  unfold run_handler, onTabsUpdated_approved, chrome_debugger_attach,
    new_WebSocket, new_CDPAdapter, bind_this.
  rewrite Hok. run_M. rewrite bool_decide_eq_false_2 by done. simpl.
  rewrite (addListener_fresh _ _ (next_id w)) by (done || simpl; lia).
  rewrite (addListener_fresh _ _ (next_id w)) by (done || simpl; lia).
  rewrite !alter_insert_eq.
  apply world_ext; fields; try reflexivity.
  by rewrite <- !app_assoc.
Qed.

Lemma sound_approved (accepts : string → bool) (tabId : nat)
    (proxyURL targetId browserContextId : string) (w : World) :
  sound w →
  sound (run_handler
           (onTabsUpdated_approved accepts tabId proxyURL targetId browserContextId)
           w).
Proof.
  intros [Hids Hreg]. split.
  { apply stable_run_handler; [apply stable_onTabsUpdated_approved | done]. }
  destruct (decide (tabId ∈ attached w)) as [Hatt|Hfree].
  { apply (registry_ok_kept w); try done.
    all: unfold run_handler, onTabsUpdated_approved, chrome_debugger_attach;
      run_M; rewrite bool_decide_eq_true_2 by done; simpl; try done.
    intros tab. by left. }
  destruct (accepts proxyURL) eqn:Hok; cycle 1.
  { apply (registry_ok_kept w); try done.
    all: unfold run_handler, onTabsUpdated_approved, chrome_debugger_attach,
      new_WebSocket;
      rewrite Hok; run_M; rewrite bool_decide_eq_false_2 by done; simpl;
      try done.
    intros tab. by left. }
  rewrite approved_builds by done.
  destruct Hreg as (K0 & K2 & K1 & K3 & K4).
  destruct (K0 (next_id w)) as [_ Hsn]; [lia|].
  destruct (K0 (S (next_id w))) as [Hhn _]; [lia|].
  split; [|split; [|split; [|split]]]; simpl.
  - intros k Hk. destruct (K0 k) as [Hk1 Hk2]; [lia|].
    by rewrite !lookup_insert_ne by lia.
  - intros a ad. rewrite lookup_insert.
    destruct (decide (S (next_id w) = a)) as [<-|Hne].
    + intros [= <-]. eexists (next_id w), _, _, _.
      split; [done|]. by rewrite lookup_insert_eq.
    + intros Hadp.
      destruct (K2 a ad Hadp) as (socket & so & t & c & Hform & Hs & Hwired).
      exists socket, so, t, c. split; [done|]. split; [|done].
      rewrite lookup_insert_ne; [done|]. intros <-. congruence.
  - intros a ad. rewrite lookup_insert.
    destruct (decide (S (next_id w) = a)) as [<-|Hne].
    + intros _. split; eexists; (split; [apply elem_of_app; right; by left | done]).
    + intros Hadp. destruct (K1 a ad Hadp) as [(f & Hf & Hfa) (g & Hg & Hga)].
      split; [exists f | exists g]; (split; [apply elem_of_app; by left | done]).
  - intros tab a. rewrite lookup_insert.
    destruct (decide (tabId = tab)) as [<-|Hne].
    + intros [= <-]. eexists. by rewrite lookup_insert_eq.
    + intros Htab. destruct (K3 tab a Htab) as (ad & Hadp & Hdeb).
      exists ad. split; [|done]. rewrite lookup_insert_ne; [done|].
      intros <-. congruence.
  - intros s so. rewrite lookup_insert.
    destruct (decide (next_id w = s)) as [<-|Hne].
    + intros [= <-]. eexists _, _. split; [done|]. simpl.
      by rewrite lookup_insert_eq.
    + intros Hs. destruct (K4 s so Hs) as (l & ad & Hl & Hadp & Hdsp).
      exists l, ad. split; [done|]. split; [|done].
      rewrite lookup_insert_ne; [done|]. intros Heq. congruence.
Qed.

Lemma sound_run_all_approved (accepts : string → bool) tabId targetId
    browserContextId (ls : list (nat * string)) :
  ∀ w, sound w →
  sound (run_all ((λ p, onTabsUpdated_approved accepts tabId p.2 targetId
                          browserContextId)
                    <$> ls) w).
Proof.
  induction ls as [|p ls IH]; intros w Hw; [done|]. simpl.
  by apply IH, sound_approved.
Qed.

Lemma sound_adjusted (w w' : World) :
  sound w →
  heap w' = heap w → onEvent w' = onEvent w → onDetach w' = onDetach w →
  next_id w' = next_id w → adapters w' = adapters w →
  (∀ s, wired <$> sockets w' !! s = wired <$> sockets w !! s) →
  sound w'.
Proof.
  intros [[He Hd] Hreg] Hh Hev Hdt Hn Ha Hw. split.
  - unfold ids_below. by rewrite Hev, Hdt, Hn.
  - apply (registry_ok_kept w); try done; [lia|]. intros tab. left. by rewrite Ha.
Qed.

Lemma sound_set_readyState (socket : nat) (r : ReadyState) (w : World) :
  sound w → sound (set_readyState socket r w).
Proof.
  intros Hw. apply (sound_adjusted w); try done.
  intros s. unfold set_readyState. simpl. rewrite lookup_alter.
  destruct (decide (socket = s)) as [->|]; [|done]. by destruct (sockets w !! s).
Qed.

Section Registry.

Variable JSON_parse : string → option value.
Variable WebSocket_accepts : string → bool.

Lemma sound_step (w : World) (e : Event) :
  sound w → sound (step JSON_parse WebSocket_accepts w e).
Proof.
  intros Hw. destruct e; simpl.
  - apply (sound_orderly w); [done|].
    apply orderly_run_handler; [apply tame_onTabsUpdated | apply quiet_onTabsUpdated].
  - apply sound_run_all_approved. by apply (sound_adjusted w).
  - destruct (state_of socket w) as [[]|]; try done.
    destruct (listeners_of socket w); [|done].
    apply (sound_orderly (set_readyState socket OPEN w));
      [by apply sound_set_readyState|].
    apply orderly_run_handler; [solve_tame | solve_quiet].
  - destruct (state_of socket w) as [[]|]; try done;
      (destruct (listeners_of socket w); [|done]);
      (apply (sound_orderly w); [done|]);
      (apply orderly_run_handler;
         [apply tame_onBrowserMessage | apply quiet_onBrowserMessage]).
  - destruct (state_of socket w) as [[]|]; try done;
      (destruct (listeners_of socket w) as [l|]; [|done]).
    all: pose proof (sound_set_readyState socket CLOSED w Hw) as Hw0.
    all: set (w0 := set_readyState socket CLOSED w) in *.
    all: assert (sound (run_handler
                          (debugLog "WebSocket error:";; detach (l_adapter l)) w0))
           as Hw1.
    all: try (apply (sound_orderly (run_handler
                          (debugLog "WebSocket error:";; detach (l_adapter l)) w0));
              [done | apply orderly_run_detach; by destruct Hw1]).
    all: unfold run_handler, debugLog, act, modify, mbind, M_bind; simpl.
    all: assert (sound (set_trace (trace w0 ++ [Log "WebSocket error:"]) w0)) as Hw2
           by by apply (sound_adjusted w0).
    all: exact (sound_orderly _ _ Hw2
                  (orderly_run_detach (l_adapter l) _ (proj1 Hw2))).
  - destruct (state_of socket w) as [[]|]; try done;
      (destruct (listeners_of socket w) as [l|]; [|done]);
      (apply (sound_orderly (set_readyState socket CLOSED w));
         [by apply sound_set_readyState|]);
      apply orderly_run_detach; by apply sound_set_readyState.
  - apply (sound_orderly w); [done|].
    apply orderly_run_handler;
      [apply tame_onCommandResponse | apply quiet_onCommandResponse].
  - destruct (bool_decide _); [|done]. apply (sound_orderly w); [done|].
    apply orderly_run_all, Forall_fmap, Forall_forall. intros f _. unfold compose.
    split; [apply tame_onDebuggerEvent | apply quiet_onDebuggerEvent].
  - destruct (bool_decide _); [|done].
    apply (sound_orderly (set_attached (attached w ∖ {[source]}) w));
      [by apply (sound_adjusted w)|].
    apply orderly_run_all, Forall_fmap, Forall_forall. intros f _. unfold compose.
    split; [apply tame_onDebuggerDetach | apply quiet_onDebuggerDetach].
Qed.

Lemma reachable_sound (w : World) : reachable JSON_parse WebSocket_accepts w → sound w.
Proof.
  induction 1 as [userAgent | w e _ IH]; [|by apply sound_step].
  split; [split; constructor|]. repeat split; try done.
  all: intros *; rewrite ?lookup_empty; try done.
  all: intros Hin; by apply elem_of_nil in Hin.
Qed.

(** X24. In every state the extension reaches, an entry of the adapter
    map leads to an adapter made for that very tab, whose [onClose]
    removes that tab's entry and closes the socket it dispatches to, and
    the listeners of that socket lead back to the same adapter. *)
Theorem adapter_map_entries_are_wired (w : World) (tabId a : nat) :
  reachable JSON_parse WebSocket_accepts w → adapters w !! tabId = Some a →
  ∃ socket so targetId browserContextId,
    heap w !! a
      = Some (mkCDPAdapter (onClose_of_tab tabId socket)
                (dispatch_to_socket socket) tabId)
    ∧ sockets w !! socket = Some so
    ∧ wired so = Some (mkSocketListeners a targetId browserContextId).
Proof.
  intros [_ (_ & K2 & _ & K3 & _)]%reachable_sound Htab.
  destruct (K3 tabId a Htab) as (ad & Hadp & Hdeb).
  destruct (K2 a ad Hadp) as (socket & so & t & c & Hform & Hs & Hwired).
  exists socket, so, t, c. rewrite Hdeb in Hform. by rewrite Hadp, Hform.
Qed.

(** *** Teardown *)

Lemma call_onClose_effect (this tabId socket : nat) (d : DispatchFn) (deb : nat)
    (w : World) :
  heap w !! this = Some (mkCDPAdapter (onClose_of_tab tabId socket) d deb) →
  (call_onClose this w).2 = Normal tt
  ∧ adapters (call_onClose this w).1 = delete tabId (adapters w)
  ∧ socket_is_open socket (call_onClose this w).1 = false
  ∧ (∀ s, s ≠ socket →
       sockets (call_onClose this w).1 !! s = sockets w !! s)
  ∧ attached (call_onClose this w).1 = attached w.
Proof.
  intros Ha. unfold call_onClose, socket_close, socket_is_open. run_M.
  rewrite Ha. simpl. fields.
  destruct (sockets w !! socket) as [so|] eqn:Hso;
    [destruct (bool_decide (readyState so = OPEN)) eqn:Hopen|];
    simpl; fields; rewrite ?lookup_alter, ?decide_True, ?Hso by done;
    simpl; rewrite ?Hopen; repeat split; try done.
  intros s Hs. by rewrite lookup_alter, decide_False.
Qed.

Lemma detach_attached (this : nat) (ad : CDPAdapter) (w : World) :
  heap w !! this = Some ad → _debuggee ad ∈ attached w →
  ∃ w0, detach this w = call_onClose this w0
    ∧ heap w0 = heap w ∧ adapters w0 = adapters w ∧ sockets w0 = sockets w
    ∧ attached w0 = attached w ∖ {[_debuggee ad]}.
Proof.
  intros Hadp Hatt. unfold detach, chrome_debugger_detach, bind_this, debuggee_of.
  run_M. rewrite Hadp. rewrite bool_decide_eq_true_2 by done. simpl.
  eexists. split; [reflexivity|]. by repeat split.
Qed.

(** X25. The first teardown of a bridge by [detach]: for an adapter the
    extension has made, with the debugger attached to its tab, [detach]
    returns normally, the tab is no longer attached, its entry is gone
    from the adapter map, the adapter's socket is not open any more, and
    no other socket, no adapter and no listener registration changes. *)
Theorem detach_tears_the_bridge_down (this : nat) (ad : CDPAdapter) (w : World) :
  reachable JSON_parse WebSocket_accepts w → heap w !! this = Some ad →
  _debuggee ad ∈ attached w →
  ∃ socket,
    dispatch ad = dispatch_to_socket socket
    ∧ (detach this w).2 = Normal tt
    ∧ attached (detach this w).1 = attached w ∖ {[_debuggee ad]}
    ∧ adapters (detach this w).1 = delete (_debuggee ad) (adapters w)
    ∧ socket_is_open socket (detach this w).1 = false
    ∧ (∀ s, s ≠ socket → sockets (detach this w).1 !! s = sockets w !! s)
    ∧ heap (detach this w).1 = heap w
    ∧ onEvent (detach this w).1 = onEvent w
    ∧ onDetach (detach this w).1 = onDetach w.
Proof.
  intros Hreach Hadp Hatt.
  destruct (reachable_sound w Hreach) as [Hids (_ & K2 & _)].
  destruct (K2 this ad Hadp) as (socket & so & t & c & Hform & Hs & Hwired).
  exists socket. split; [by rewrite Hform|].
  destruct (detach_keeps_listeners this w Hids) as [He Hd].
  destruct (tame_detach this w) as (Hheap & _).
  destruct (detach_attached this ad w Hadp Hatt)
    as (w0 & Hrun & Hh0 & Ha0 & Hs0 & Hatt0).
  destruct (call_onClose_effect this (_debuggee ad) socket
              (dispatch_to_socket socket) (_debuggee ad) w0)
    as (Hret & Hmap & Hclosed & Hothers & Hattached).
  { by rewrite Hh0, Hadp, <- Hform. }
  rewrite Hrun in *. rewrite Hmap, Hattached, Ha0, Hatt0.
  repeat split; try done.
  intros s Hne. by rewrite (Hothers s Hne), Hs0.
Qed.

Lemma run_all_onDebuggerDetach (tabId socket : nat) (d : DispatchFn) (deb : nat)
    (f : BoundFn) (ls : list BoundFn) :
  ∀ w,
  f ∈ ls →
  heap w !! fn_this f = Some (mkCDPAdapter (onClose_of_tab tabId socket) d deb) →
  adapters (run_all ((λ g, _onDebuggerDetach (fn_this g)) <$> ls) w) !! tabId = None
  ∧ socket_is_open socket
      (run_all ((λ g, _onDebuggerDetach (fn_this g)) <$> ls) w) = false.
Proof.
  induction ls as [|g ls IH]; intros w Hin Ha; [by apply elem_of_nil in Hin|].
  simpl.
  set (w1 := run_handler (_onDebuggerDetach (fn_this g)) w).
  assert (calm w w1) as Hcalm
    by apply calm_run_handler, tame_onDebuggerDetach.
  apply elem_of_cons in Hin as [->|Hin].
  - assert (adapters w1 !! tabId = None ∧ socket_is_open socket w1 = false)
      as [Hnone Hclosed].
    { subst w1. unfold run_handler, _onDebuggerDetach. run_M.
      match goal with |- context [call_onClose (fn_this g) ?w0] =>
        destruct (call_onClose_effect (fn_this g) tabId socket d deb w0 Ha)
          as (Hret & Hmap & Hclosed & _)
      end.
      destruct (call_onClose _ _) as [w2 r]. simpl in *. subst r.
      split; [|done]. rewrite Hmap. fields. apply lookup_delete_eq. }
    destruct (calm_run_all ((λ g, _onDebuggerDetach (fn_this g)) <$> ls)) with (w := w1)
      as (_ & Hshrink & _ & Hopen).
    { apply Forall_fmap, Forall_forall. intros x _. unfold compose.
      apply tame_onDebuggerDetach. }
    split.
    + destruct (Hshrink tabId) as [Heq|Heq]; [exact (eq_trans Heq Hnone) | exact Heq].
    + apply not_true_is_false. intros Ho. apply (Hopen socket) in Ho. congruence.
  - apply IH; [done|]. destruct Hcalm as (Hheap & _). by rewrite Hheap.
Qed.

(** X26. When the browser ends the debugging session of a tab, every
    bridge goes, not only that tab's: all registered [onDetach] listeners
    run their adapter's [onClose] whatever the source, so afterwards the
    adapter map is empty and no socket of the extension is open. *)
Theorem native_detach_tears_every_bridge_down (source : nat) (w : World) :
  reachable JSON_parse WebSocket_accepts w → source ∈ attached w →
  adapters (step JSON_parse WebSocket_accepts w (DebuggerDetached source)) = ∅
  ∧ ∀ s, socket_is_open s
           (step JSON_parse WebSocket_accepts w (DebuggerDetached source)) = false.
Proof.
  intros Hreach Hsrc.
  destruct (reachable_sound w Hreach) as [_ (_ & K2 & K1 & K3 & K4)].
  unfold step. rewrite bool_decide_eq_true_2 by done.
  set (w0 := set_attached (attached w ∖ {[source]}) w).
  assert (∀ a ad, heap w !! a = Some ad →
            ∃ socket,
              dispatch ad = dispatch_to_socket socket
              ∧ adapters (run_all ((λ g, _onDebuggerDetach (fn_this g))
                                     <$> onDetach w) w0) !! _debuggee ad = None
              ∧ socket_is_open socket
                  (run_all ((λ g, _onDebuggerDetach (fn_this g))
                              <$> onDetach w) w0) = false) as Hall.
  { intros a ad Hadp.
    destruct (K2 a ad Hadp) as (socket & so & t & c & Hform & _).
    destruct (K1 a ad Hadp) as [(f & Hf & Hfa) _].
    exists socket. split; [by rewrite Hform|].
    apply (run_all_onDebuggerDetach _ socket (dispatch_to_socket socket)
             (_debuggee ad) f); [done|].
    rewrite Hfa. by rewrite <- Hform. }
  destruct (calm_run_all ((λ g, _onDebuggerDetach (fn_this g)) <$> onDetach w))
    with (w := w0) as (_ & Hshrink & Hwired & _).
  { apply Forall_fmap, Forall_forall. intros x _. unfold compose.
    apply tame_onDebuggerDetach. }
  split.
  - apply map_eq. intros tab. rewrite lookup_empty.
    destruct (adapters w !! tab) as [a|] eqn:Htab.
    + destruct (K3 tab a Htab) as (ad & Hadp & Hdeb).
      destruct (Hall a ad Hadp) as (socket & _ & Hnone & _). by rewrite <- Hdeb.
    + destruct (Hshrink tab) as [Heq|Heq]; [|done]. by rewrite Heq.
  - intros s.
    destruct (socket_is_open s (run_all _ w0)) eqn:Hopen; [|done]. exfalso.
    assert (is_Some (sockets w !! s)) as [so Hso].
    { specialize (Hwired s). unfold socket_is_open in Hopen.
      destruct (sockets (run_all _ w0) !! s) as [so'|]; [|done].
      destruct (sockets w0 !! s) as [so|] eqn:Hso; [by eexists | done]. }
    destruct (K4 s so Hso) as (l & ad & _ & Hadp & Hdsp).
    destruct (Hall (l_adapter l) ad Hadp) as (socket & Hdsp' & _ & Hclosed).
    assert (socket = s) as -> by congruence. congruence.
Qed.

End Registry.

(** *** The theorems at work on sample runs *)

Lemma other_navigations_ignored_witness :
  step sample_parse sample_accepts bridged (TabsUpdated 9 "loading" (Some trigger_url)) = bridged.
Proof.
  apply (other_navigations_ignored sample_parse sample_accepts 9 "loading" (Some trigger_url)).
  intros proxyURL [Hstatus _]. discriminate Hstatus.
Defined.

Lemma trigger_navigation_witness :
  step sample_parse sample_accepts bridged (TabsUpdated 7 "complete" (Some trigger_url))
    = set_trace (trace bridged ++ [Log "Already attached to tab:"]) bridged
  ∧ pending (step sample_parse sample_accepts bridged
               (TabsUpdated 8 "complete" (Some trigger_url)))
    = [(8, "ws://localhost:9223/extension?token=E")].
Proof.
  assert (trigger "complete" (Some trigger_url)
            "ws://localhost:9223/extension?token=E") as Htrig.
  { split; [reflexivity|]. exists trigger_url. repeat split. discriminate. }
  split.
  - apply (proj1 (trigger_navigation sample_parse sample_accepts 7 _ _ _ bridged Htrig)).
    by exists 1.
  - rewrite (proj2 (trigger_navigation sample_parse sample_accepts 8 _ _ _ bridged Htrig)
               eq_refl).
    reflexivity.
Defined.

Lemma nothing_bridged_without_approval_witness :
  unbridged
    (run sample_parse sample_accepts (init "Mozilla/5.0")
       [TabsUpdated 7 "complete" (Some trigger_url);
        DebuggerEvent 7 "Page.loaded" (Obj []);
        SocketOpened 0;
        CommandResponse 1 Null (Obj []) None]).
Proof.
  apply (nothing_bridged_without_approval sample_parse sample_accepts).
  repeat constructor; intros [].
Defined.

Lemma approval_is_consumed_witness :
  step sample_parse sample_accepts awaiting (Approved 9 "target-9" "context-1") = awaiting
  ∧ pending (step sample_parse sample_accepts awaiting (Approved 7 "target-7" "context-1")) = [].
Proof.
  split.
  - apply (proj1 (approval_is_consumed sample_parse sample_accepts 9 "target-9" "context-1"
                    awaiting)).
    intros p Hp. apply list_elem_of_singleton in Hp. subst p. discriminate.
  - rewrite (proj1 (proj2 (approval_is_consumed sample_parse sample_accepts 7 "target-7"
                             "context-1" awaiting))).
    reflexivity.
Defined.

Lemma approval_bridges_the_tab_witness :
  adapters (step sample_parse sample_accepts awaiting (Approved 7 "target-7" "context-1")) !! 7
    = Some 1
  ∧ pending (step sample_parse sample_accepts awaiting (Approved 7 "target-7" "context-1")) = [].
Proof.
  assert (reachable sample_parse sample_accepts awaiting) as Hreach
    by apply extension_reachable_run, reachable_init.
  assert (7 ∉ attached awaiting) as Hfree.
  { apply (bool_decide_unpack _). vm_compute. exact I. }
  rewrite (approval_bridges_the_tab sample_parse sample_accepts 7
             "ws://localhost:9223/extension?token=E" "target-7" "context-1"
             awaiting Hreach eq_refl Hfree eq_refl).
  split; reflexivity.
Defined.

Lemma approval_with_debugger_attached_witness :
  adapters (step sample_parse sample_accepts retriggered (Approved 7 "target-7" "context-1"))
    = adapters retriggered
  ∧ sockets (step sample_parse sample_accepts retriggered (Approved 7 "target-7" "context-1"))
    = sockets retriggered
  ∧ pending (step sample_parse sample_accepts retriggered
               (Approved 7 "target-7" "context-1")) = [].
Proof.
  assert (7 ∈ attached retriggered) as Hatt.
  { apply (bool_decide_unpack _). vm_compute. exact I. }
  rewrite (approval_with_debugger_attached sample_parse sample_accepts 7
             "ws://localhost:9223/extension?token=E" "target-7" "context-1"
             retriggered eq_refl Hatt).
  repeat split.
Defined.

Lemma approval_with_refused_address_witness :
  attached (step sample_parse sample_accepts awaiting_refused
              (Approved 9 "target-9" "context-1")) = {[9]}
  ∧ adapters (step sample_parse sample_accepts awaiting_refused
                (Approved 9 "target-9" "context-1")) = ∅
  ∧ sockets (step sample_parse sample_accepts awaiting_refused
               (Approved 9 "target-9" "context-1")) = ∅.
Proof.
  assert (9 ∉ attached awaiting_refused) as Hfree.
  { apply (bool_decide_unpack _). vm_compute. exact I. }
  rewrite (approval_with_refused_address sample_parse sample_accepts 9
             "not a url" "target-9" "context-1" awaiting_refused
             eq_refl Hfree eq_refl).
  split; [|split]; [|reflexivity..]. simpl. apply (right_id_L ∅ (∪)).
Defined.

Lemma setDownloadBehavior_answered_locally_witness :
  ∃ w', onBrowserMessage more_parse 1 "target-7" "context-1"
          (BlobData setDownloadBehavior_text) bridged = (w', Normal tt)
    ∧ calls (trace w')
      = calls (trace bridged)
        ++ [Dispatch 1 (Obj [("id", Number 3); ("result", Obj [])])].
Proof.
  apply (setDownloadBehavior_answered_locally more_parse 1 "target-7" "context-1"
           (BlobData setDownloadBehavior_text)
           (Obj [("id", Number 3); ("method", Str "Browser.setDownloadBehavior")])
           bridged eq_refl).
  eexists. split; reflexivity.
Defined.

Lemma other_commands_forwarded_witness :
  onBrowserMessage more_parse 1 "target-7" "context-1" (BlobData navigate_text)
    bridged
  = (set_trace
       (trace bridged ++ [Log "Received command from WebSocket:";
                          SendCommand 7 (Str "Page.navigate") Undefined]) bridged,
     Normal tt).
Proof.
  apply (other_commands_forwarded more_parse 1 "target-7" "context-1"
           (BlobData navigate_text)
           (Obj [("id", Number 4); ("method", Str "Page.navigate");
                 ("sessionId", Str "S")])
           "Page.navigate" bridged eq_refl).
  - eexists. split; reflexivity.
  - discriminate.
  - discriminate.
  - discriminate.
  - discriminate.
Defined.


Lemma messages_without_method_ignored_witness :
  onBrowserMessage more_parse 1 "target-7" "context-1" (BlobData result_text)
    bridged = (bridged, Normal tt)
  ∧ onBrowserMessage more_parse 1 "target-7" "context-1" (BlobData "null")
      bridged
    = (set_trace (trace bridged ++ [Log "Error processing WebSocket message:"])
         bridged,
       Normal tt).
Proof.
  split.
  - exact (proj1 (messages_without_method_ignored more_parse 1 "target-7"
                    "context-1" (BlobData result_text)
                    (Obj [("id", Number 6); ("result", Obj [])]) bridged eq_refl)
             Undefined eq_refl eq_refl).
  - exact (proj2 (messages_without_method_ignored more_parse 1 "target-7"
                    "context-1" (BlobData "null") Null bridged eq_refl)
             "TypeError: Cannot read properties" eq_refl).
Defined.

Lemma command_result_echoes_id_and_session_witness :
  ∃ w', onCommandResponse 1
          (Obj [("id", Number 4); ("method", Str "Page.navigate");
                ("sessionId", Str "S")])
          (Obj [("frameId", Str "F")]) None bridged = (w', Normal tt)
    ∧ calls (trace w')
      = calls (trace bridged)
        ++ [Dispatch 1
              (Obj [("id", Number 4);
                    ("result", Obj [("frameId", Str "F")]);
                    ("error", Null);
                    ("sessionId", Str "S")])].
Proof.
  apply (command_result_echoes_id_and_session 1
           (Obj [("id", Number 4); ("method", Str "Page.navigate");
                 ("sessionId", Str "S")])
           (Obj [("frameId", Str "F")]) None bridged).
  by eexists.
Defined.

Lemma dispatch_without_open_socket_is_lost_witness :
  sockets (_onDebuggerEvent 1 7 "Page.loaded" (Obj []) connecting).1
  = sockets connecting.
Proof.
  exact (proj2 (dispatch_without_open_socket_is_lost 1 0
                  (mkCDPAdapter (onClose_of_tab 7 0) (dispatch_to_socket 0) 7)
                  connecting eq_refl eq_refl eq_refl)
           7 "Page.loaded" (Obj [])).
Defined.

Lemma adapter_map_entries_are_wired_witness :
  ∃ socket so targetId browserContextId,
    heap two_bridges !! 5
      = Some (mkCDPAdapter (onClose_of_tab 8 socket) (dispatch_to_socket socket) 8)
    ∧ sockets two_bridges !! socket = Some so
    ∧ wired so = Some (mkSocketListeners 5 targetId browserContextId).
Proof.
  assert (reachable sample_parse sample_accepts two_bridges) as Hreach
    by apply extension_reachable_run, extension_reachable_run, reachable_init.
  exact (adapter_map_entries_are_wired sample_parse sample_accepts two_bridges 8 5 Hreach eq_refl).
Defined.

Lemma detach_tears_the_bridge_down_witness :
  ∃ socket,
    (detach 1 bridged).2 = Normal tt
    ∧ adapters (detach 1 bridged).1 = delete 7 (adapters bridged)
    ∧ socket_is_open socket (detach 1 bridged).1 = false.
Proof.
  assert (reachable sample_parse sample_accepts bridged) as Hreach
    by apply extension_reachable_run, reachable_init.
  assert (7 ∈ attached bridged) as Hatt.
  { apply (bool_decide_unpack _). vm_compute. exact I. }
  destruct (detach_tears_the_bridge_down sample_parse sample_accepts 1
              (mkCDPAdapter (onClose_of_tab 7 0) (dispatch_to_socket 0) 7)
              bridged Hreach eq_refl Hatt)
    as (socket & _ & Hret & _ & Hmap & Hclosed & _).
  exists socket. split; [exact Hret|]. split; [exact Hmap | exact Hclosed].
Defined.

Lemma native_detach_tears_every_bridge_down_witness :
  adapters (step sample_parse sample_accepts two_bridges (DebuggerDetached 8)) = ∅
  ∧ socket_is_open 0 (step sample_parse sample_accepts two_bridges (DebuggerDetached 8)) = false.
Proof.
  assert (reachable sample_parse sample_accepts two_bridges) as Hreach
    by apply extension_reachable_run, extension_reachable_run, reachable_init.
  assert (8 ∈ attached two_bridges) as Hsrc.
  { apply (bool_decide_unpack _). vm_compute. exact I. }
  destruct (native_detach_tears_every_bridge_down sample_parse sample_accepts 8 two_bridges
              Hreach Hsrc) as [Hmap Hsockets].
  split; [exact Hmap | exact (Hsockets 0)].
Defined.

End ExtensionExtras.
